(** * gogram: MTProto transport and session core

    A shallow embedding of the parts of the gogram client that its
    specification makes checkable statements about, followed by the
    theorems that settle those statements against the code.

    Layout: machine integers, then one module per Go package or receiver
    (definitions only), then the theorems, grouped the same way. *)

From Stdlib Require Import ZArith Lia List Bool String.
From stdpp Require Import base option list gmap strings pretty.

Local Open Scope Z_scope.

(* ===================================================================== *)
(** ** Machine integers *)
(* ===================================================================== *)

(** Go's fixed-width signed integers wrap silently on overflow.  A value
    of type [int64] (resp. [int32]) is a [Z] in the signed range; every
    arithmetic result goes through [wrap]. *)
Module Int64.

Definition min_int : Z := - 2 ^ 63.
Definition max_int : Z := 2 ^ 63 - 1.

Definition wrap (z : Z) : Z := (z + 2 ^ 63) mod 2 ^ 64 - 2 ^ 63.

Definition in_range (z : Z) : Prop := min_int <= z <= max_int.

Definition add (a b : Z) : Z := wrap (a + b).
Definition sub (a b : Z) : Z := wrap (a - b).
Definition mul (a b : Z) : Z := wrap (a * b).
(** Go's [/] and [%] truncate toward zero: [Z.quot] and [Z.rem]. *)
Definition quot (a b : Z) : Z := wrap (Z.quot a b).
Definition rem (a b : Z) : Z := Z.rem a b.
Definition shl (a n : Z) : Z := wrap (Z.shiftl a n).

End Int64.

Module Int32.

Definition min_int : Z := - 2 ^ 31.
Definition max_int : Z := 2 ^ 31 - 1.

Definition wrap (z : Z) : Z := (z + 2 ^ 31) mod 2 ^ 32 - 2 ^ 31.

Definition in_range (z : Z) : Prop := min_int <= z <= max_int.

Definition add (a b : Z) : Z := wrap (a + b).
Definition sub (a b : Z) : Z := wrap (a - b).
Definition quot (a b : Z) : Z := wrap (Z.quot a b).
Definition rem (a b : Z) : Z := Z.rem a b.

End Int32.

(* ===================================================================== *)
(** ** internal/utils: message identifiers *)
(* ===================================================================== *)

Module Utils.

Definition billion : Z := 1000 * 1000 * 1000.

(** The id computed from one reading [now] of [time.Now().UnixNano()]:
    the body of [GenerateMessageId] up to the comparison with [prevID]. *)
Definition newID (now offset : Z) : Z :=
  let unixnano := Int64.add now (Int64.mul offset billion) in
  let seconds := Int64.quot unixnano billion in
  let nanoseconds := Int64.rem unixnano billion in
  Z.lor (Int64.shl seconds 32) (Z.land nanoseconds (-4)).

(** [GenerateMessageId prevID offset].  Each call of the Go function reads
    the clock once and, when the id it computes is not above [prevID],
    calls itself again.  [clock] lists the successive readings the calls
    obtain; [None] means the readings ran out while the function was
    still retrying. *)
Fixpoint GenerateMessageId (clock : list Z) (prevID offset : Z) : option Z :=
  match clock with
  | [] => None
  | now :: later =>
      if newID now offset <=? prevID
      then GenerateMessageId later prevID offset
      else Some (newID now offset)
  end.

End Utils.

(* ===================================================================== *)
(** ** telegram/media.go: dividing parts among workers *)
(* ===================================================================== *)

Module Media.

(** The [for i := 0; i < worker; i++] loop shared by both partitioners;
    [n] is the number of iterations left.  A range [[]int32{start, end}]
    is the pair [(start, end)]. *)
Fixpoint divideLoop (n : nat) (start perWorker remainder : Z) : list (Z * Z) :=
  match n with
  | O => []
  | S n' =>
      let end0 := Int32.add start perWorker in
      let end1 := if 0 <? remainder then Int32.add end0 1 else end0 in
      let remainder' := if 0 <? remainder then Int32.sub remainder 1 else remainder in
      (start, end1) :: divideLoop n' end1 perWorker remainder'
  end.

(** What is common to both functions once [worker] is settled: the
    division (which panics on a zero divisor), [make([][]int32, worker)]
    (which panics on a negative length) and the loop.  [None] is a
    run-time panic.  The result is the final [Worker] field together with
    the ranges. *)
Definition divideWith (parts worker : Z) : option (Z * list (Z * Z)) :=
  if Int32.wrap worker =? 0 then None
  else
    let perWorker := Int32.quot parts (Int32.wrap worker) in
    let remainder := Int32.rem parts (Int32.wrap worker) in
    if worker <? 0 then None
    else Some (worker, divideLoop (Z.to_nat worker) 0 perWorker remainder).

Module Uploader.

(** [(u *Uploader) dividePartsToWorkers], with [parts = u.Parts : int32]
    and [worker = u.Worker : int]. *)
Definition dividePartsToWorkers (parts worker : Z) : option (Z * list (Z * Z)) :=
  let worker := if parts <? Int32.wrap worker then parts else worker in
  let worker := if Int32.wrap worker =? 0 then 1 else worker in
  divideWith parts worker.

End Uploader.

Module Downloader.

(** [(d *Downloader) DividePartsToWorkers]: the same code without the
    [if int32(worker) == 0 { worker = 1 }] guard. *)
Definition DividePartsToWorkers (parts worker : Z) : option (Z * list (Z * Z)) :=
  let worker := if parts <? Int32.wrap worker then parts else worker in
  divideWith parts worker.

End Downloader.

(** The ranges the specification describes for [W] workers over [N]
    parts, written from its words: worker [i] starts where worker [i-1]
    ended and receives [N / W] parts, plus one when [i < N % W]. *)
Definition spec_lo (N W : Z) (i : Z) : Z := i * (N / W) + Z.min i (N mod W).

Definition spec_ranges (N W : Z) : list (Z * Z) :=
  map (fun i : nat => (spec_lo N W (Z.of_nat i), spec_lo N W (Z.of_nat i + 1)))
      (seq 0 (Z.to_nat W)).

End Media.

(* ===================================================================== *)
(** ** Errors and panics *)
(* ===================================================================== *)

(** Go's [error] values as far as the modelled code tells them apart.
    [Nil] is the nil error; [Errorf format e] is
    [fmt.Errorf(format, e)] for a format with one [%w] verb, which is a
    fresh non-nil error whatever [e] is; [ErrorString] is any other error
    known by its text; [BadMsgError] is the error built by
    [BadMsgErrorFromNative]. *)
Inductive error : Type :=
| Nil
| Errorf (format : string) (wrapped : error)
| ErrorString (text : string)
| BadMsgError (code : Z).

Definition is_nil (e : error) : bool :=
  match e with Nil => true | _ => false end.

(** A call either returns or panics. *)
Inductive Outcome (A : Type) : Type :=
| Returns (a : A)
| Panics (msg : string).
Arguments Returns {A} a.
Arguments Panics {A} msg.

(* ===================================================================== *)
(** ** internal/mode: the framing-mode constructor *)
(* ===================================================================== *)

Module Mode.

(** [type Variant uint8] with its four constants. *)
Definition Variant := Z.
Definition Abridged : Variant := 0.
Definition Intermediate : Variant := 1.
Definition PaddedIntermediate : Variant := 2.
Definition Full : Variant := 3.

Definition ErrInterfaceIsNil : error := ErrorString "ErrInterfaceIsNil".
Definition ErrModeNotSupported : error := ErrorString "ErrModeNotSupported".
Definition ErrAmbiguousModeAnnounce : error := ErrorString "ErrAmbiguousModeAnnounce".

(** The stream behind an [io.ReadWriter]: the bytes written to it so
    far, and whether its next [Write] fails. *)
Record Stream : Type := mkStream {
  written : list Z;
  writeFails : bool
}.

(** [conn.Write(b)]. *)
Definition Write (conn : Stream) (b : list Z) : Stream * error :=
  if writeFails conn then (conn, ErrorString "write failed")
  else (mkStream (written conn ++ b) (writeFails conn), Nil).

(** The three implementations of the [Mode] interface, each holding its
    stream. *)
Inductive Mode : Type :=
| abridged (conn : Stream)
| intermediate (conn : Stream)
| full (conn : Stream).

(** Modelled from the spec: the announcement each mode writes on connect
    ([getModeAnnouncement], whose implementations are in files that are
    not part of the sources): one byte [0xEF] for Abridged, four bytes
    [0xEE] for Intermediate, nothing for Full. *)
Definition getModeAnnouncement (m : Mode) : list Z :=
  match m with
  | abridged _ => [0xEF]
  | intermediate _ => [0xEE; 0xEE; 0xEE; 0xEE]
  | full _ => []
  end.

Definition setConn (m : Mode) (conn : Stream) : Mode :=
  match m with
  | abridged _ => abridged conn
  | intermediate _ => intermediate conn
  | full _ => full conn
  end.

(** [initMode]: the [switch v], whose first case panics. *)
Definition initMode (v : Variant) (conn : Stream) : Outcome (option Mode * error) :=
  if v =? PaddedIntermediate then Panics "not supported yet"
  else if v =? Abridged then Returns (Some (abridged conn), Nil)
  else if v =? Intermediate then Returns (Some (intermediate conn), Nil)
  else if v =? Full then Returns (Some (full conn), Nil)
  else Returns (None, ErrModeNotSupported).

(** [New(v, conn)]; a nil [conn] is [None].  The result carries the mode
    (nil on error), the error, and the stream as the call leaves it. *)
Definition New (v : Variant) (conn : option Stream)
  : Outcome (option Mode * error * option Stream) :=
  match conn with
  | None => Returns (None, ErrInterfaceIsNil, None)
  | Some c =>
      match initMode v c with
      | Panics msg => Panics msg
      | Returns (Some m, Nil) =>
          let '(c', err) := Write c (getModeAnnouncement m) in
          if is_nil err then Returns (Some (setConn m c'), Nil, Some c')
          else Returns (None, Errorf "can't setup connection: %w" err, Some c')
      | Returns (_, err) => Returns (None, err, Some c)
      end
  end.

End Mode.

(* ===================================================================== *)
(** ** telegram: the cache of exported senders *)
(* ===================================================================== *)

Module Telegram.

(** [time.Duration] and [time.Time] are counted in nanoseconds. *)
Definition Minute : Z := 60 * (1000 * 1000 * 1000).
Definition DisconnectExportedAfter : Z := 15 * Minute.

(** [exportedSender]; the [*Client] is a handle. *)
Record exportedSender : Type := mkExportedSender {
  client : nat;
  dcID : Z;
  added : Z
}.

(** The body of one cycle of [cleanSendersRoutine], after the sleep and
    under the lock.  [newSenders := senders[:0]] shares the backing array
    of the cache, so the loop is modelled on that array: [arr] is the
    array, [i] the index the [range] loop reads next, [k] the length of
    [newSenders], and [append(newSenders, s)] stores [s] at index [k].
    [now i] is the clock reading of the [time.Since] call of iteration
    [i]; [fuel] counts the iterations left.  [s.client.Terminate()] is
    recorded in [terminated].  The cycle ends with the cache set to
    [newSenders], the first [k] cells of the array. *)
Fixpoint cleanLoop (now : nat -> Z) (fuel i k : nat)
    (arr : list exportedSender) (terminated : list nat)
  : list exportedSender * list nat :=
  match fuel with
  | O => (take k arr, terminated)
  | S fuel' =>
      match arr !! i with
      | None => (take k arr, terminated)
      | Some s =>
          if DisconnectExportedAfter <? now i - added s
          then cleanLoop now fuel' (S i) k arr (terminated ++ [client s])
          else cleanLoop now fuel' (S i) (S k) (<[k := s]> arr) terminated
      end
  end.

Definition cleanSendersCycle (now : nat -> Z) (senders : list exportedSender)
  : list exportedSender * list nat :=
  cleanLoop now (length senders) 0 0 senders [].

(** The statement of the specification, in its words: a sender is
    expired when its age, at the moment the cleaner looks at it, exceeds
    fifteen minutes. *)
Definition expired (now : nat -> Z) (p : nat * exportedSender) : bool :=
  15 * Minute <? now p.1 - added p.2.

(** The senders of the cache paired with their positions, from position
    [i] on. *)
Definition numbered (i : nat) (senders : list exportedSender)
  : list (nat * exportedSender) :=
  combine (seq i (length senders)) senders.

End Telegram.

(* ===================================================================== *)
(** ** gogram: the MTProto session, its multiplexer and its supervisor *)
(* ===================================================================== *)

Module Gogram.

Definition acksThreshold : nat := 10.

(** Inbound TL objects as the type switch of [processResponse] tells
    them apart, with the fields it reads.  [Update] stands for every
    object the switch sends to its [default] case.  A [Message] is a
    [messages.Common]: its id, its sequence number and, for [Msg], the
    result of [tl.DecodeUnknownObject] on its bytes ([None] when they do
    not decode); the decoder is not part of the sources, and the
    expected-types hint only steers it. *)
Inductive Object : Type :=
| MessageContainer (items : list Message)
| BadServerSalt (NewSalt : Z)
| NewSessionCreated (ServerSalt : Z)
| MsgsNewDetailedInfo (AnswerMsgID : Z)
| MsgsDetailedInfo (AnswerMsgID : Z)
| Pong
| MsgsAck (MsgIDs : list Z)
| BadMsgNotification (Code : Z)
| RpcResult (ReqMsgID : Z) (Obj : Object)
| GzipPacked (Obj : Object)
| RpcError (Code : Z) (Message : string)
| Null
| errorSessionConfigsChanged
| Update (constructor : Z)
with Message : Type :=
| mkMessage (MsgID : Z) (SeqNo : Z) (Msg : option Object).

Definition GetMsgID (msg : Message) : Z := let 'mkMessage i _ _ := msg in i.
Definition GetSeqNo (msg : Message) : Z := let 'mkMessage _ s _ := msg in s.
Definition GetMsg (msg : Message) : option Object := let 'mkMessage _ _ b := msg in b.

(** A reply channel is a handle; what happens on it is in the trace. *)
Definition Chan := nat.

(** What the session does to the world, in order.  [HandlerCalled i o b]
    is the call of the [i]-th server-request handler on [o], which
    answered [b].  A handler is a [func(i any) bool] of the user: it is
    given the object, not the session, the dispatch uses nothing of it
    but its answer, and whatever else it does is behind this event and
    not part of the model.  Of the calls of [m.Logger] those of
    [offsetTime] above the debug level are recorded. *)
Inductive Event : Type :=
| SaveSessionCalled (salt : Z)
| Received (ch : Chan) (o : Object)
| SendTimedOut (ch : Chan)
| MakeRequestCalled (request : Object)
| SendPacketCalled (request : Object)
| TimeSourceQueried
| LoggerError (e : error)
| LoggerInfo (text : string)
| HandlerCalled (i : nat) (o : Object) (processed : bool)
| StopRoutinesCalled
| ConnectCalled
| ReaderStarted
| PingerStarted
| MakeAuthKeyCalled
| PingSent.

(** The fields of [MTProto] the modelled methods read or write, and the
    trace of their effects.  [stopRoutines] tells whether the func field
    of that name has been assigned: it is nil in the struct that
    [NewMTProto] builds. *)
Record MTProto : Type := mkMTProto {
  tcpActive : bool;
  stopRoutines : bool;
  encrypted : bool;
  memorySession : bool;
  timeOffset : Z;
  serverSalt : Z;
  responseChannels : gmap Z Chan;
  pendingAcks : gset Z;
  authKey404 : list Z;
  serverRequestHandlers : list (Object -> bool);
  trace : list Event
}.

Definition with_tcpActive (b : bool) (m : MTProto) : MTProto :=
  mkMTProto b (stopRoutines m) (encrypted m) (memorySession m) (timeOffset m)
    (serverSalt m) (responseChannels m) (pendingAcks m) (authKey404 m)
    (serverRequestHandlers m) (trace m).

Definition with_stopRoutines (b : bool) (m : MTProto) : MTProto :=
  mkMTProto (tcpActive m) b (encrypted m) (memorySession m) (timeOffset m)
    (serverSalt m) (responseChannels m) (pendingAcks m) (authKey404 m)
    (serverRequestHandlers m) (trace m).

Definition with_encrypted (b : bool) (m : MTProto) : MTProto :=
  mkMTProto (tcpActive m) (stopRoutines m) b (memorySession m) (timeOffset m)
    (serverSalt m) (responseChannels m) (pendingAcks m) (authKey404 m)
    (serverRequestHandlers m) (trace m).

Definition with_timeOffset (z : Z) (m : MTProto) : MTProto :=
  mkMTProto (tcpActive m) (stopRoutines m) (encrypted m) (memorySession m) z
    (serverSalt m) (responseChannels m) (pendingAcks m) (authKey404 m)
    (serverRequestHandlers m) (trace m).

Definition with_serverSalt (z : Z) (m : MTProto) : MTProto :=
  mkMTProto (tcpActive m) (stopRoutines m) (encrypted m) (memorySession m)
    (timeOffset m) z (responseChannels m) (pendingAcks m) (authKey404 m)
    (serverRequestHandlers m) (trace m).

Definition with_responseChannels (c : gmap Z Chan) (m : MTProto) : MTProto :=
  mkMTProto (tcpActive m) (stopRoutines m) (encrypted m) (memorySession m)
    (timeOffset m) (serverSalt m) c (pendingAcks m) (authKey404 m)
    (serverRequestHandlers m) (trace m).

Definition with_pendingAcks (s : gset Z) (m : MTProto) : MTProto :=
  mkMTProto (tcpActive m) (stopRoutines m) (encrypted m) (memorySession m)
    (timeOffset m) (serverSalt m) (responseChannels m) s (authKey404 m)
    (serverRequestHandlers m) (trace m).

Definition with_authKey404 (l : list Z) (m : MTProto) : MTProto :=
  mkMTProto (tcpActive m) (stopRoutines m) (encrypted m) (memorySession m)
    (timeOffset m) (serverSalt m) (responseChannels m) (pendingAcks m) l
    (serverRequestHandlers m) (trace m).

Definition emit (e : Event) (m : MTProto) : MTProto :=
  mkMTProto (tcpActive m) (stopRoutines m) (encrypted m) (memorySession m)
    (timeOffset m) (serverSalt m) (responseChannels m) (pendingAcks m)
    (authKey404 m) (serverRequestHandlers m) (trace m ++ [e]).

(** The answer of the public time service to one query; [Undecodable]
    carries the error of the JSON decoder. *)
Inductive TimeReply : Type :=
| Unreachable
| Undecodable (err : error)
| Unixtime (t : Z).

(** One attempt of [makeRequest] to send a request: [m.sendPacket]
    returns an error, known by its text, or the packet goes out and a
    value arrives on the reply channel. *)
Inductive Attempt : Type :=
| SendFails (text : string)
| Replied (response : Object).

(** [Config], as far as [NewMTProto] and [loadAuth] read it into the
    modelled fields. *)
Record Config : Type := mkConfig {
  MemorySession : bool;
  StringSession : string
}.

(** What the session cannot decide by itself.  Each answer may depend on
    the whole session, trace included, so successive calls may be
    answered differently.
    - [SaveSession m]: the error returned by [m.SaveSession()];
    - [sendPacket m o]: what the successive attempts to send the request
      [o] meet, in order, [m.sendPacket] not being part of the sources;
      when the list runs out, the last packet is never answered;
    - [floodHandler e]: the answer of [m.floodHandler];
    - [receiving ch]: whether the waiter of [ch] takes a value offered
      to it before the one-millisecond timer of the [select] fires;
    - [timeSource m]: the local [time.Now().Unix()] and the answer of
      the time service;
    - [connect m], [makeAuthKey m]: the errors returned by
      [m.connect(ctx)] and [m.makeAuthKey()];
    - [Load c]: the result of [c.SessionStorage.Load()], of the stored
      session its salt; [notFound e]: whether the text of [e] contains
      [session.ErrFileNotExists] or [session.ErrPathNotFound], constants
      that are not part of the sources; [openDir c]: the error of the
      [os.OpenFile] on the directory of the key file; [Decode s]: the
      error of decoding the string session [s]. *)
Record Env : Type := mkEnv {
  SaveSession : MTProto -> error;
  sendPacket : MTProto -> Object -> list Attempt;
  floodHandler : error -> bool;
  receiving : Chan -> bool;
  timeSource : MTProto -> Z * TimeReply;
  connect : MTProto -> error;
  makeAuthKey : MTProto -> error;
  Load : Config -> option Z * error;
  notFound : error -> bool;
  openDir : Config -> error;
  Decode : string -> error
}.

(** The struct literal of [NewMTProto]: it leaves [tcpActive],
    [stopRoutines], [timeOffset], [serverSalt] and [authKey404] at
    their zero values. *)
Definition blank (c : Config) : MTProto :=
  mkMTProto false false false (MemorySession c) 0 0 ∅ ∅ [] [] [].

(** How a call that may not come back ends: it returns, it panics, or
    it waits for ever on a reply channel.  The session is the one the
    call leaves behind. *)
Inductive Run (A : Type) : Type :=
| Done (m : MTProto) (a : A)
| Panicked (m : MTProto) (msg : string)
| Blocked (m : MTProto).
Arguments Done {A} m a.
Arguments Panicked {A} m msg.
Arguments Blocked {A} m.

Definition run_state {A : Type} (r : Run A) : MTProto :=
  match r with Done m _ => m | Panicked m _ => m | Blocked m => m end.

(** How the type switch of [processResponse] is left: by falling out of
    the [switch] statement, by a [return], or inside a call that does
    not come back. *)
Inductive Flow : Type :=
| FallsThrough (m : MTProto)
| Return (m : MTProto) (err : error)
| Panicking (m : MTProto) (msg : string)
| Blocking (m : MTProto).

(** *** The sender's side of a reply *)

Fixpoint contains (s sub : string) : bool :=
  String.prefix sub s
  || match s with
     | EmptyString => false
     | String _ s' => contains s' sub
     end.

(** What [makeRequest] does with the value it receives on its reply
    channel: send the request again, return an error, or return the
    value.  [RpcErrorToNative] keeps the message of the error. *)
Inductive Next : Type :=
| Resends
| Fails (err : error)
| Delivers (response : Object).

Definition makeRequest_received (floodHandler : error -> bool)
    (response : Object) : Next :=
  match response with
  | RpcError Code Message =>
      if contains Message "FLOOD_WAIT_" || contains Message "FLOOD_PREMIUM_WAIT_"
      then if floodHandler (ErrorString Message) then Resends
           else Fails (ErrorString Message)
      else Fails (ErrorString Message)
  | errorSessionConfigsChanged => Resends
  | _ => Delivers response
  end.

Section Session.

Variable env : Env.

(** *** Clock-skew correction *)

(** [offsetTime] once the local clock has been read and the time service
    has answered.  [math.Abs(float64(d)) < 60] on an [int64] [d] is
    [|d| < 60]: the conversion is exact below [2^53] and monotone.  An
    answer that cannot be decoded is logged as an error, an offset that
    is recorded is logged as information. *)
Definition offsetTimeWith (currentLocalTime : Z) (reply : TimeReply)
    (m : MTProto) : MTProto :=
  match reply with
  | Unreachable => m
  | Undecodable err => emit (LoggerError (Errorf "off-setting time: %w" err)) m
  | Unixtime t =>
      if (t <=? currentLocalTime)
         || (Z.abs (Int64.sub t currentLocalTime) <? 60)
      then m
      else
        let m := with_timeOffset (Int64.sub t currentLocalTime) m in
        emit (LoggerInfo ("system time is out of sync, offsetting time by "
                          +:+ pretty (timeOffset m) +:+ " seconds")) m
  end.

(** [(m *MTProto) offsetTime()]. *)
Definition offsetTime (m : MTProto) : MTProto :=
  let '(currentLocalTime, reply) := timeSource env m in
  offsetTimeWith currentLocalTime reply (emit TimeSourceQueried m).

(** Modelled from the spec: the id of the next outbound message, which
    [sendPacket], not part of the sources, obtains from [m.genMsgID]:
    [GenerateMessageId] on the previous id, biased by the stored
    [timeOffset]. *)
Definition nextMsgID (clock : list Z) (prevID : Z) (m : MTProto) : option Z :=
  Utils.GenerateMessageId clock prevID (timeOffset m).

(** *** Connecting and reconnecting *)

(** [(m *MTProto) Disconnect()]: [m.stopRoutines()] is the call of a
    func field, which panics while the field is nil; otherwise the
    routines are cancelled and nil is returned. *)
Definition Disconnect (m : MTProto) : Outcome (MTProto * error) :=
  if stopRoutines m
  then Returns (with_tcpActive false (emit StopRoutinesCalled m), Nil)
  else Panics "invalid memory address or nil pointer dereference".

(** [(m *MTProto) CreateConnection(withLog)], logging left out: the
    cancel function is stored before anything else. *)
Definition CreateConnection (withLog : bool) (m : MTProto) : MTProto * error :=
  let m := with_stopRoutines true m in
  let err := connect env m in
  let m := emit ConnectCalled m in
  if negb (is_nil err) then (m, err)
  else
    let m := with_tcpActive true m in
    let m := emit PingerStarted (emit ReaderStarted m) in
    if negb (encrypted m) then
      let err := makeAuthKey env m in
      let m := emit MakeAuthKeyCalled m in
      if negb (is_nil err) then (m, err) else (m, Nil)
    else (m, Nil).

(** [(m *MTProto) Ping()]: the request is sent and its result dropped. *)
Definition Ping (m : MTProto) : MTProto := emit PingSent m.

(** [(m *MTProto) Reconnect(WithLogs)]. *)
Definition Reconnect (WithLogs : bool) (m : MTProto) : Outcome (MTProto * error) :=
  match Disconnect m with
  | Panics msg => Panics msg
  | Returns (m, err) =>
      if negb (is_nil err) then Returns (m, Errorf "disconnecting: %w" err)
      else
        let '(m, err) := CreateConnection WithLogs m in
        let m := Ping m in
        Returns (m, Errorf "recreating connection: %w" err)
  end.

(** *** Starting a session *)

(** Modelled from the spec: [_loadSession], which is not part of the
    sources, takes over the stored session; of the fields it fills the
    record has the salt. *)
Definition _loadSession (salt : Z) (m : MTProto) : MTProto :=
  with_serverSalt salt m.

(** [(m *MTProto) ImportAuth(stringSession)]; the key, its hash, the
    address and the app id it stores are not in the record. *)
Definition ImportAuth (stringSession : string) (m : MTProto)
  : MTProto * (bool * error) :=
  let err := Decode env stringSession in
  if negb (is_nil err) then (m, (false, err))
  else if negb (memorySession m) then
    let err := SaveSession env m in
    let m := emit (SaveSessionCalled (serverSalt m)) m in
    if negb (is_nil err) then (m, (false, Errorf "saving session: %w" err))
    else (m, (true, Nil))
  else (m, (true, Nil)).

(** [(m *MTProto) loadAuth(stringSession, sess)]. *)
Definition loadAuth (stringSession : string) (sess : option Z) (m : MTProto)
  : MTProto * error :=
  if negb (String.eqb stringSession "") then
    let '(m, (_, err)) := ImportAuth stringSession m in
    if negb (is_nil err) then (m, Errorf "importing string session: %w" err)
    else (m, Nil)
  else
    match sess with
    | Some salt => (_loadSession salt m, Nil)
    | None => (m, Nil)
    end.

(** The three ways [NewMTProto] returns: with an error before the
    struct exists, with the error of [loadAuth] (the struct, dropped by
    the caller, is kept here for its trace), or with the struct. *)
Inductive Started : Type :=
| LoadFailed (err : error)
| AuthFailed (m : MTProto) (err : error)
| Ready (m : MTProto).

(** [NewMTProto(c)]. *)
Definition NewMTProto (c : Config) : Started :=
  let '(loaded, err) := Load env c in
  if negb (is_nil err) && negb (notFound env err) then
    if negb (is_nil (openDir env c))
    then LoadFailed
           (Errorf "check if you have write permission in the directory: %w"
                   (openDir env c))
    else LoadFailed (Errorf "loading session: %w" err)
  else
    let mtproto := offsetTime (blank c) in
    let mtproto :=
      if bool_decide (loaded <> None) || negb (String.eqb (StringSession c) "")
      then with_encrypted true mtproto else mtproto in
    let '(mtproto, err) := loadAuth (StringSession c) loaded mtproto in
    if negb (is_nil err) then AuthFailed mtproto (Errorf "loading auth: %w" err)
    else Ready mtproto.

(** [(m *MTProto) ImportRawAuth(authKey, authKeyHash, addr, appID)]; the
    four values go into fields that are not in the record. *)
Definition ImportRawAuth (m : MTProto) : Outcome (MTProto * (bool * error)) :=
  let '(m, err) :=
    if negb (memorySession m)
    then (emit (SaveSessionCalled (serverSalt m)) m, SaveSession env m)
    else (m, Nil) in
  if negb (is_nil err) then Returns (m, (false, Errorf "saving session: %w" err))
  else
    match Reconnect false m with
    | Panics msg => Panics msg
    | Returns (m, err) =>
        if negb (is_nil err) then Returns (m, (false, Errorf "reconnecting: %w" err))
        else Returns (m, (true, Nil))
    end.

(** *** The -404 watchdog *)

(** [(m *MTProto) handle404Error()].  [now] is the reading of
    [time.Now().Unix()] that is stored on the first error and compared
    with the stored one on the later errors; [later] is the second
    reading, which the later errors store.  [authKey404] is a slice:
    indexing a one-element slice at [1] panics.  The error of
    [Reconnect] is only logged. *)
Definition handle404Error (now later : Z) (m : MTProto) : Outcome MTProto :=
  let updated : Outcome (list Z) :=
    match authKey404 m with
    | [] => Returns [1; now]
    | [_] => Panics "index out of range [1] with length 1"
    | count :: last :: rest =>
        let count' := if Int64.sub now last <? 30 then Int64.add count 1 else 1 in
        Returns (count' :: later :: rest)
    end in
  match updated with
  | Panics msg => Panics msg
  | Returns l =>
      let m := with_authKey404 l m in
      if hd 0 l =? 4 then
        match Reconnect false m with
        | Panics msg => Panics msg
        | Returns (m, _) => Returns m
        end
      else if 8 <? hd 0 l then Panics "[AUTH_KEY_INVALID] (code -404)"
      else Returns m
  end.

(** *** The send path *)

(** [(m *MTProto) makeRequest(data)].  [attempts] is what the successive
    calls of [m.sendPacket] meet; each turn of the recursion takes one.
    With none left the packet just sent is never answered and the
    receive on the reply channel does not end. *)
Fixpoint makeRequest (attempts : list Attempt) (data : Object) (m : MTProto)
  : Run (option Object * error) :=
  let m := if negb (tcpActive m) then (CreateConnection false m).1 else m in
  let m := emit (SendPacketCalled data) m in
  match attempts with
  | [] => Blocked m
  | SendFails text :: later =>
      if contains text "use of closed network connection"
         || contains text "transport is closed"
      then
        match Reconnect false m with
        | Panics msg => Panicked m msg
        | Returns (m, err) =>
            if negb (is_nil err) then Done m (None, Errorf "reconnecting: %w" err)
            else makeRequest later data m
        end
      else Done m (None, Errorf "sending packet: %w" (ErrorString text))
  | Replied response :: later =>
      match makeRequest_received (floodHandler env) response with
      | Resends => makeRequest later data m
      | Fails err => Done m (None, err)
      | Delivers response => Done m (Some response, Nil)
      end
  end.

(** Modelled from the spec: [(m *MTProto) MakeRequest], which is not
    part of the sources, is the send path of a request: it hands the
    request to [makeRequest]. *)
Definition MakeRequest (data : Object) (m : MTProto) : Run (option Object * error) :=
  makeRequest (sendPacket env m data) data m.

(** *** The inbound dispatch *)

(** The block that ends [processResponse]: send the pending
    acknowledgements when there are at least [acksThreshold] of them.
    [pendingAcks.Keys()] is [elements], in an order the code does not
    fix. *)
Definition flushAcks (m : MTProto) : Run error :=
  if decide (acksThreshold <= size (pendingAcks m))%nat then
    let request := MsgsAck (elements (pendingAcks m)) in
    match MakeRequest request (emit (MakeRequestCalled request) m) with
    | Done m (_, err) =>
        if negb (is_nil err) then Done m (Errorf "sending acks: %w" err)
        else Done (with_pendingAcks ∅ m) Nil
    | Panicked m msg => Panicked m msg
    | Blocked m => Blocked m
    end
  else Done m Nil.

(** One turn of the loop over the snapshot of the waiters: the [select]
    between the send and the one-millisecond timer. *)
Definition signal (m : MTProto) (waiter : Z * Chan) : MTProto :=
  if receiving env waiter.2
  then emit (Received waiter.2 errorSessionConfigsChanged) m
  else emit (SendTimedOut waiter.2) m.

(** The [case *objects.BadServerSalt] of the type switch.  The keys of
    the snapshot are visited in the order of [map_to_list]; the code
    does not fix the order. *)
Definition onBadServerSalt (NewSalt : Z) (m : MTProto) : Flow :=
  let m := with_serverSalt NewSalt m in
  let '(m, err) :=
    if negb (memorySession m)
    then (emit (SaveSessionCalled (serverSalt m)) m, SaveSession env m)
    else (m, Nil) in
  if negb (is_nil err) then Return m (Errorf "saving session: %w" err)
  else
    let respChannelsBackup := responseChannels m in
    let m := with_responseChannels ∅ m in
    FallsThrough (foldl signal m (map_to_list respChannelsBackup)).

(** The [case *objects.NewSessionCreated]: a failure to save is only
    logged. *)
Definition onNewSessionCreated (ServerSalt : Z) (m : MTProto) : Flow :=
  let m := with_serverSalt ServerSalt m in
  FallsThrough (if negb (memorySession m)
                then emit (SaveSessionCalled (serverSalt m)) m else m).

(** The [case *objects.BadMsgNotification]. *)
Definition onBadMsgNotification (Code : Z) (m : MTProto) : Flow :=
  let m := if (Code =? 16) || (Code =? 17) then offsetTime m else m in
  Return m (BadMsgError Code).

(** Modelled from the spec: [writeRPCResponse], which is not part of the
    sources, delivers the object to the waiter registered under the
    request id and removes the entry; without a waiter it reports "no
    response channel found". *)
Definition writeRPCResponse (msgID : Z) (o : Object) (m : MTProto)
  : MTProto * error :=
  match responseChannels m !! msgID with
  | Some ch =>
      (emit (Received ch o)
         (with_responseChannels (delete msgID (responseChannels m)) m), Nil)
  | None => (m, ErrorString "no response channel found")
  end.

(** The [case *objects.RpcResult]: a missing waiter is only logged. *)
Definition onRpcResult (ReqMsgID : Z) (Obj : Object) (m : MTProto) : Flow :=
  let obj := match Obj with GzipPacked o => o | _ => Obj end in
  let '(m, err) := writeRPCResponse ReqMsgID obj m in
  match err with
  | Nil => FallsThrough m
  | ErrorString "no response channel found" => FallsThrough m
  | _ => Return m (Errorf "writing rpc response: %w" err)
  end.

(** The loop of the [default] case: the handlers are called in order,
    each on the object, until one answers true; [i] is the index of the
    first of [handlers]. *)
Fixpoint offer (handlers : list (Object -> bool)) (i : nat) (o : Object)
    (m : MTProto) : MTProto :=
  match handlers with
  | [] => m
  | f :: rest =>
      let processed := f o in
      let m := emit (HandlerCalled i o processed) m in
      if processed then m else offer rest (S i) o m
  end.

(** The [default] case. *)
Definition onOther (o : Object) (m : MTProto) : Flow :=
  FallsThrough (offer (serverRequestHandlers m) 0 o m).

(** [(m *MTProto) processResponse(msg)] and its type switch, which the
    [goto] of the [GzipPacked] case re-enters. *)
Fixpoint processResponse (msg : Message) (m : MTProto) {struct msg} : Run error :=
  match msg with
  | mkMessage msgID seqNo body =>
      let contentBearing := negb (Z.land seqNo 1 =? 0) in
      if contentBearing && bool_decide (msgID ∈ pendingAcks m) then Done m Nil
      else
        let m := if contentBearing
                 then with_pendingAcks ({[msgID]} ∪ pendingAcks m) m else m in
        match body with
        | None =>
            Done m (Errorf "unmarshalling response: %w" (ErrorString "decoding failed"))
        | Some data =>
            match typeSwitch data m with
            | Return m err => Done m err
            | FallsThrough m => flushAcks m
            | Panicking m msg => Panicked m msg
            | Blocking m => Blocked m
            end
        end
  end
with typeSwitch (data : Object) (m : MTProto) {struct data} : Flow :=
  match data with
  | MessageContainer items =>
      (fix each (l : list Message) (m : MTProto) {struct l} : Flow :=
         match l with
         | [] => FallsThrough m
         | v :: l' =>
             match processResponse v m with
             | Done m' err =>
                 if negb (is_nil err)
                 then Return m' (Errorf "processing item in container: %w" err)
                 else each l' m'
             | Panicked m' msg => Panicking m' msg
             | Blocked m' => Blocking m'
             end
         end) items m
  | BadServerSalt NewSalt => onBadServerSalt NewSalt m
  | NewSessionCreated ServerSalt => onNewSessionCreated ServerSalt m
  | MsgsNewDetailedInfo AnswerMsgID =>
      Return (with_pendingAcks ({[AnswerMsgID]} ∪ pendingAcks m) m) Nil
  | MsgsDetailedInfo AnswerMsgID =>
      Return (with_pendingAcks ({[AnswerMsgID]} ∪ pendingAcks m) m) Nil
  | Pong => FallsThrough m
  | MsgsAck _ => FallsThrough m
  | BadMsgNotification Code => onBadMsgNotification Code m
  | RpcResult ReqMsgID Obj => onRpcResult ReqMsgID Obj m
  | GzipPacked Obj => typeSwitch Obj m
  | _ => onOther data m
  end.

(** What [processResponse] does with a message once the duplicate check
    has let it through: decode, switch, flush. *)
Definition decodeAndDispatch (msg : Message) (m : MTProto) : Run error :=
  match GetMsg msg with
  | None => Done m (Errorf "unmarshalling response: %w" (ErrorString "decoding failed"))
  | Some data =>
      match typeSwitch data m with
      | Return m err => Done m err
      | FallsThrough m => flushAcks m
      | Panicking m msg => Panicked m msg
      | Blocking m => Blocked m
      end
  end.

End Session.

(** *** The dispatch as the specification words it *)





(** *** The watchdog as the specification words it *)

(** The counter after a -404 arriving at [now], given the recorded
    [{count, last_unix}] ([previous], empty before the first error): one
    more when the previous error was less than 30 seconds ago, 1
    otherwise. *)
Definition watchdog_count (previous : list Z) (now : Z) : Z :=
  match previous with
  | count :: last_unix :: _ => if now - last_unix <? 30 then count + 1 else 1
  | _ => 1
  end.

(** A watchdog record as the code builds it: absent, or a counter
    between 1 and 8 with a time stamp. *)
Definition watchdog_ok (record : list Z) : Prop :=
  record = [] \/ exists count last_unix, record = [count; last_unix] /\ 1 <= count <= 8.

(** The watchdog over a sequence of -404 errors, each with the two clock
    readings its call takes. *)
Fixpoint handle404Errors (env : Env) (arrivals : list (Z * Z)) (m : MTProto)
  : Outcome MTProto :=
  match arrivals with
  | [] => Returns m
  | (now, later) :: rest =>
      match handle404Error env now later m with
      | Panics msg => Panics msg
      | Returns m' => handle404Errors env rest m'
      end
  end.

(** *** Sample sessions *)

(** A world in which every call succeeds, every request is answered at
    once, every waiter is listening, the time service cannot be reached
    and nothing is stored. *)
Definition calm : Env :=
  {| SaveSession := fun _ => Nil;
     sendPacket := fun _ _ => [Replied Null];
     floodHandler := fun _ => false;
     receiving := fun _ => true;
     timeSource := fun _ => (1700000000, Unreachable);
     connect := fun _ => Nil;
     makeAuthKey := fun _ => Nil;
     Load := fun _ => (None, Nil);
     notFound := fun _ => false;
     openDir := fun _ => Nil;
     Decode := fun _ => Nil |}.

(** A connected session with a stored key that saves to disk, nothing
    pending. *)
Definition idle : MTProto :=
  mkMTProto true true true false 0 0 ∅ ∅ [] [] [].

(** The same session kept in memory only. *)
Definition memoryIdle : MTProto :=
  mkMTProto true true true true 0 0 ∅ ∅ [] [] [].

(** The calm world with another local clock and time-service answer. *)
Definition withTime (currentLocalTime : Z) (reply : TimeReply) : Env :=
  {| SaveSession := SaveSession calm;
     sendPacket := sendPacket calm;
     floodHandler := floodHandler calm;
     receiving := receiving calm;
     timeSource := fun _ => (currentLocalTime, reply);
     connect := connect calm;
     makeAuthKey := makeAuthKey calm;
     Load := Load calm;
     notFound := notFound calm;
     openDir := openDir calm;
     Decode := Decode calm |}.

(** The calm world with a disk that cannot be written. *)
Definition diskFull : Env :=
  {| SaveSession := fun _ => ErrorString "no space left on device";
     sendPacket := sendPacket calm;
     floodHandler := floodHandler calm;
     receiving := receiving calm;
     timeSource := timeSource calm;
     connect := connect calm;
     makeAuthKey := makeAuthKey calm;
     Load := Load calm;
     notFound := notFound calm;
     openDir := openDir calm;
     Decode := Decode calm |}.

(** The calm world with waiters that are not yet listening. *)
Definition nobodyListening : Env :=
  {| SaveSession := SaveSession calm;
     sendPacket := sendPacket calm;
     floodHandler := floodHandler calm;
     receiving := fun _ => false;
     timeSource := timeSource calm;
     connect := connect calm;
     makeAuthKey := makeAuthKey calm;
     Load := Load calm;
     notFound := notFound calm;
     openDir := openDir calm;
     Decode := Decode calm |}.


(** The struct [NewMTProto] builds in the calm world for a client that
    keeps its session on disk and starts without one. *)
Definition fresh : MTProto :=
  mkMTProto false false false false 0 0 ∅ ∅ [] [] [TimeSourceQueried].

(** The event of one [select] of the [BadServerSalt] loop. *)
Definition signalEvent (env : Env) (waiter : Z * Chan) : Event :=
  if receiving env waiter.2
  then Received waiter.2 errorSessionConfigsChanged
  else SendTimedOut waiter.2.

(** *** Reading the trace *)

Definition emits (es : list Event) (m : MTProto) : MTProto :=
  mkMTProto (tcpActive m) (stopRoutines m) (encrypted m) (memorySession m)
    (timeOffset m) (serverSalt m) (responseChannels m) (pendingAcks m)
    (authKey404 m) (serverRequestHandlers m) (trace m ++ es).

Definition flow_state (f : Flow) : MTProto :=
  match f with
  | FallsThrough m => m
  | Return m _ => m
  | Panicking m _ => m
  | Blocking m => m
  end.


(** [m'] has the trace of [m] followed by events that all satisfy
    [P]. *)
Definition grows (P : Event -> Prop) (m m' : MTProto) : Prop :=
  exists new, trace m' = trace m ++ new /\ Forall P new.


(** The events of connecting and reconnecting. *)
Definition connection_event (e : Event) : Prop :=
  match e with
  | StopRoutinesCalled | ConnectCalled | ReaderStarted | PingerStarted
  | MakeAuthKeyCalled | PingSent => True
  | _ => False
  end.

(** What the send path may do to a session on behalf of the request
    [data]: it sends packets carrying [data] and connects or
    reconnects; the pending acknowledgements, the kind of session and
    the clock offset are not its business. *)
Definition sends (data : Object) (m m' : MTProto) : Prop :=
  pendingAcks m' = pendingAcks m
  /\ memorySession m' = memorySession m
  /\ timeOffset m' = timeOffset m
  /\ grows (fun e => e = SendPacketCalled data \/ connection_event e) m m'.

(** What [offsetTime] writes to the log, by the local clock and the
    answer of the time source. *)
Definition offsetTime_log (currentLocalTime : Z) (reply : TimeReply) : list Event :=
  match reply with
  | Unreachable => []
  | Undecodable err => [LoggerError (Errorf "off-setting time: %w" err)]
  | Unixtime t =>
      if 60 <=? t - currentLocalTime
      then [LoggerInfo ("system time is out of sync, offsetting time by "
                        +:+ pretty (t - currentLocalTime) +:+ " seconds")]
      else []
  end.

(** The clock reading [now] moved by [offset] seconds, as
    [GenerateMessageId] does it. *)
Definition advance (offset now : Z) : Z :=
  Int64.add now (Int64.mul offset Utils.billion).

(** Nine acknowledgements pending. *)
Definition ninePending : MTProto :=
  with_pendingAcks (list_to_set [1; 2; 3; 4; 5; 6; 7; 8; 9]) idle.


End Gogram.

(* ===================================================================== *)
(** ** telegram/media.go: sizing a transfer *)
(* ===================================================================== *)

Module Transfer.

Definition DEFAULT_WORKERS : Z := 4.
Definition DEFAULT_PARTS : Z := 512 * 1024.

(** The fields of [Downloader] that [Init], [calcOffset] and
    [DividePartsToWorkers] compute with. *)
Record Downloader : Type := mkDownloader {
  dParts : Z;
  dChunkSize : Z;
  dWorker : Z;
  dSize : Z
}.

(** [(d *Downloader) Init()], as far as these fields go; the rest of the
    function names the file, creates it and borrows the workers.
    [d.Size / DEFAULT_PARTS] is an [int32] division. *)
Definition Downloader_Init (d : Downloader) : Downloader :=
  let parts :=
    if dParts d =? 0 then
      let p := Int32.quot (dSize d) DEFAULT_PARTS in
      if p =? 0 then 1 else p
    else dParts d in
  let chunkSize := if dChunkSize d =? 0 then DEFAULT_PARTS else dChunkSize d in
  let worker := if dWorker d =? 0 then DEFAULT_WORKERS else dWorker d in
  let worker := if parts <? worker then parts else worker in
  mkDownloader parts chunkSize worker (dSize d).

(** [(d *Downloader) calcOffset(part)]: the product is taken in [int32]
    and converted afterwards. *)
Definition calcOffset (d : Downloader) (part : Z) : Z :=
  Int32.wrap (part * dChunkSize d).

(** The fields of [Uploader] that [Init] computes with; [uFileSize] is
    [Meta.FileSize] and [uIsBig] is [Meta.IsBig]. *)
Record Uploader : Type := mkUploader {
  uParts : Z;
  uChunkSize : Z;
  uWorker : Z;
  uFileSize : Z;
  uIsBig : bool
}.

(** [(u *Uploader) Init()] from the point where the switch on the
    source has set [Meta.FileSize].  [getInt], which is not part of the
    sources, is a parameter.  [None] is the panic of a division by a
    zero chunk size. *)
Definition Uploader_Init (getInt : Z -> Z -> Z) (u : Uploader) : option Uploader :=
  let chunkSize := if uChunkSize u =? 0 then DEFAULT_PARTS else uChunkSize u in
  let small := uFileSize u <? chunkSize in
  let chunkSize := if small then Int32.wrap (uFileSize u) else chunkSize in
  let parts := if small then 1 else uParts u in
  let worker := if small then 1 else uWorker u in
  let isBig := if uFileSize u <? 10 * 1024 * 1024 then uIsBig u else true in
  if parts =? 0 then
    if chunkSize =? 0 then None
    else
      let p := Int32.wrap (Int64.quot (uFileSize u) chunkSize) in
      let p := if Int64.rem (uFileSize u) chunkSize =? 0 then p else Int32.add p 1 in
      Some (mkUploader p chunkSize (getInt worker DEFAULT_WORKERS) (uFileSize u) isBig)
  else
    Some (mkUploader parts chunkSize (getInt worker DEFAULT_WORKERS) (uFileSize u) isBig).

End Transfer.

(* ===================================================================== *)
(** ** telegram: the inline keyboard builder *)
(* ===================================================================== *)

Module Buttons.

Section Keyboard.

(** [KeyboardButton], an interface the builder only moves around. *)
Context {Button : Type}.

(** [kb.rows]; a [KeyboardButtonRow] is its [Buttons]. *)
Definition Rows : Type := list (list Button).

(** [(kb *KeyboardBuilder) AddRow(buttons...)]. *)
Definition AddRow (rows : Rows) (buttons : list Button) : Rows :=
  rows ++ [buttons].

(** The slice expression [s[lo:hi]] with its bounds check.  None of the
    builders asks for more than [len(s)], so the capacity of [s] plays no
    part. *)
Definition slice (s : list Button) (lo hi : Z) : Outcome (list Button) :=
  if (0 <=? lo) && (lo <=? hi) && (hi <=? Z.of_nat (length s))
  then Returns (take (Z.to_nat (hi - lo)) (drop (Z.to_nat lo) s))
  else Panics "slice bounds out of range".

(** The loop of [NewGrid], [for i := 0; i < x && i*y < totalButtons; i++]:
    [n] is [x - i]. *)
Fixpoint gridLoop (n : nat) (y : Z) (buttons : list Button) (i : Z) (rows : Rows)
  : Outcome Rows :=
  match n with
  | O => Returns rows
  | S n' =>
      let totalButtons := Z.of_nat (length buttons) in
      if Int64.mul i y <? totalButtons then
        let endIndex := Int64.mul (Int64.add i 1) y in
        let endIndex := if totalButtons <? endIndex then totalButtons else endIndex in
        match slice buttons (Int64.mul i y) endIndex with
        | Panics msg => Panics msg
        | Returns rowButtons =>
            gridLoop n' y buttons (Int64.add i 1) (AddRow rows rowButtons)
        end
      else Returns rows
  end.

(** [(kb *KeyboardBuilder) NewGrid(x, y, buttons...)]. *)
Definition NewGrid (rows : Rows) (x y : Z) (buttons : list Button) : Outcome Rows :=
  let totalButtons := Z.of_nat (length buttons) in
  match gridLoop (Z.to_nat x) y buttons 0 rows with
  | Panics msg => Panics msg
  | Returns rows =>
      if Int64.mul x y <? totalButtons then
        match slice buttons (Int64.mul x y) totalButtons with
        | Panics msg => Panics msg
        | Returns rest => Returns (AddRow rows rest)
        end
      else Returns rows
  end.

(** The loop of [NewColumn], [for i := 0; i < len(buttons); i += x].
    [fuel] bounds the number of turns; [None] means the loop was still
    running when it ran out. *)
Fixpoint columnLoop (fuel : nat) (x : Z) (buttons : list Button) (i : Z) (rows : Rows)
  : option (Outcome Rows) :=
  let total := Z.of_nat (length buttons) in
  if i <? total then
    match fuel with
    | O => None
    | S fuel' =>
        let endIndex := Int64.add i x in
        let endIndex := if total <? endIndex then total else endIndex in
        match slice buttons i endIndex with
        | Panics msg => Some (Panics msg)
        | Returns rowButtons =>
            columnLoop fuel' x buttons (Int64.add i x) (AddRow rows rowButtons)
        end
    end
  else Some (Returns rows).

(** [(kb *KeyboardBuilder) NewColumn(x, buttons...)]. *)
Definition NewColumn (fuel : nat) (rows : Rows) (x : Z) (buttons : list Button)
  : option (Outcome Rows) :=
  columnLoop fuel x buttons 0 rows.

(** The inner loop of [NewRow], [for j := i; j < len(buttons); j += y].
    It only runs inside the outer loop, hence with [y >= 1], and then
    ends within [len(buttons)] turns, which is the [fuel] it is given. *)
Fixpoint strideLoop (fuel : nat) (y : Z) (buttons : list Button) (j : Z)
    (rowButtons : list Button) : list Button :=
  match fuel with
  | O => rowButtons
  | S fuel' =>
      if j <? Z.of_nat (length buttons) then
        match buttons !! Z.to_nat j with
        | Some b => strideLoop fuel' y buttons (Int64.add j y) (rowButtons ++ [b])
        | None => rowButtons
        end
      else rowButtons
  end.

(** The outer loop of [NewRow], [for i := 0; i < y; i++]: [n] is
    [y - i]. *)
Fixpoint rowLoop (n : nat) (y : Z) (buttons : list Button) (i : Z) (rows : Rows)
  : Rows :=
  match n with
  | O => rows
  | S n' =>
      rowLoop n' y buttons (Int64.add i 1)
        (AddRow rows (strideLoop (length buttons) y buttons i []))
  end.

(** [(kb *KeyboardBuilder) NewRow(y, buttons...)]. *)
Definition NewRow (rows : Rows) (y : Z) (buttons : list Button) : Rows :=
  rowLoop (Z.to_nat y) y buttons 0 rows.

End Keyboard.

End Buttons.

(* ===================================================================== *)
(** ** internal/mode and gogram: choosing and detecting the framing *)
(* ===================================================================== *)

Module Framing.
Import Mode.

(** [parseTransportMode] of the gogram package. *)
Definition parseTransportMode (sMode : string) : Variant :=
  if String.eqb sMode "modeAbridged" then Abridged
  else if String.eqb sMode "modeFull" then Full
  else if String.eqb sMode "modeIntermediate" then Intermediate
  else Abridged.

(** [GetVariant].  Its [default] case is for implementations of the
    [Mode] interface other than the three of the package; [New] and
    [Detect] build no such mode. *)
Definition GetVariant (m : Mode) : Variant * error :=
  match m with
  | abridged _ => (Abridged, Nil)
  | intermediate _ => (Intermediate, Nil)
  | full _ => (Full, Nil)
  end.

Definition io_EOF : error := ErrorString "EOF".

(** Modelled from the spec: the announcements [Detect] compares with
    ([transportModeAbridged] and [transportModeIntermediate], declared
    in files that are not part of the sources). *)
Definition transportModeAbridged : list Z := [0xEF].
Definition transportModeIntermediate : list Z := [0xEE; 0xEE; 0xEE; 0xEE].

(** [conn.Read(b)] for a buffer of [n] bytes.  The inbound side of the
    stream is the list of the chunks in which the bytes become
    available; a call delivers at most [n] bytes of the first chunk and
    leaves the rest of it in front; with no chunk left the peer has
    closed the stream.  The result is the bytes delivered, the inbound
    side afterwards and the error. *)
Definition Read (inbound : list (list Z)) (n : nat)
  : list Z * list (list Z) * error :=
  match inbound with
  | [] => ([], [], io_EOF)
  | chunk :: rest =>
      (take n chunk,
       match drop n chunk with [] => rest | pending => pending :: rest end,
       Nil)
  end.

(** A buffer after a read that delivered [got] into its front. *)
Definition filled (buffer got : list Z) : list Z :=
  got ++ drop (length got) buffer.

(** [Detect(conn)]; a nil [conn] is [None].  The count returned by
    [Read] is dropped, as in the source. *)
Definition Detect (conn : option Stream) (inbound : list (list Z))
  : Outcome (option Mode * error) * list (list Z) :=
  match conn with
  | None => (Returns (None, ErrInterfaceIsNil), inbound)
  | Some c =>
      let '(got, inbound, err) := Read inbound 1 in
      if negb (is_nil err) then (Returns (None, err), inbound)
      else
        let b := filled [0] got in
        if hd 0 b =? hd 0 transportModeAbridged then
          (initMode Abridged c, inbound)
        else if hd 0 b =? hd 0 transportModeIntermediate then
          let modeAnnounce := filled [0; 0; 0; 0] b in
          let '(got, inbound, err) := Read inbound 3 in
          if negb (is_nil err) then (Returns (None, err), inbound)
          else
            let modeAnnounce := take 1 modeAnnounce ++ filled (drop 1 modeAnnounce) got in
            if bool_decide (modeAnnounce = transportModeIntermediate)
            then (initMode Intermediate c, inbound)
            else (Returns (None, ErrAmbiguousModeAnnounce), inbound)
        else (Returns (None, ErrModeNotSupported), inbound)
  end.

End Framing.

(* ===================================================================== *)
(** ** internal/utils: data-center addresses and byte strings *)
(* ===================================================================== *)

Module Net.

(** [DcList.DCS], the table from data-center id to addresses, with the
    value it has at start-up. *)
Definition DcList : gmap Z (list string) :=
  list_to_map
    [(1, ["149.154.175.58:443"]); (2, ["149.154.167.50:443"]);
     (3, ["149.154.175.100:443"]); (4, ["149.154.167.91:443"]);
     (5, ["91.108.56.151:443"])].

(** [GetAddr(dc)] on the table [DCS]: [addrs[0]] panics on an empty
    list. *)
Definition GetAddr (DCS : gmap Z (list string)) (dc : Z) : Outcome string :=
  match DCS !! dc with
  | Some addrs =>
      match addrs with
      | a :: _ => Returns a
      | [] => Panics "index out of range [0] with length 0"
      end
  | None => Returns ""
  end.

(** The two loops of [SearchAddr] over the entries of the table in the
    order [range] happens to visit them. *)
Fixpoint searchEntries (entries : list (Z * list string)) (addr : string) : option Z :=
  match entries with
  | [] => None
  | (dc, addrs) :: rest =>
      if existsb (fun a => String.eqb a addr) addrs then Some dc
      else searchEntries rest addr
  end.

(** [SearchAddr(addr)]; [entries] is the table in the order of the
    [range] loop, which Go does not fix. *)
Definition SearchAddr (entries : list (Z * list string)) (addr : string) : Z :=
  match searchEntries entries addr with
  | Some dc => dc
  | None => if Gogram.contains addr "91.108.56" then 5 else 4
  end.

(** [Xor(dst, src)]: [dst] is changed in place, byte by byte, and the
    loop panics on the first index [src] does not have.  The result is
    [dst] as the call leaves it and whether it panicked. *)
Fixpoint Xor (dst src : list Z) : list Z * bool :=
  match dst, src with
  | [], _ => ([], false)
  | d :: dst', [] => (d :: dst', true)
  | d :: dst', s :: src' =>
      let '(rest, panicked) := Xor dst' src' in
      (Z.lxor d s :: rest, panicked)
  end.

Definition is_byte (b : Z) : Prop := 0 <= b < 256.

End Net.

(* ===================================================================== *)
(** ** gogram and telegram: more of the session and of the client *)
(* ===================================================================== *)

Module Session.
Import Gogram.

(** The loop of the [MessageContainer] case on its own: the items are
    processed in order up to the first one that fails or does not come
    back. *)
Fixpoint processItems (env : Env) (items : list Message) (m : MTProto)
  : Run error :=
  match items with
  | [] => Done m Nil
  | v :: rest =>
      match processResponse env v m with
      | Done m' err =>
          if negb (is_nil err) then Done m' err else processItems env rest m'
      | Panicked m' msg => Panicked m' msg
      | Blocked m' => Blocked m'
      end
  end.

(** The part of a session that belongs to the connection and to its
    configuration rather than to the dispatch. *)
Definition same_link (m m' : MTProto) : Prop :=
  tcpActive m' = tcpActive m
  /\ stopRoutines m' = stopRoutines m
  /\ encrypted m' = encrypted m
  /\ memorySession m' = memorySession m
  /\ authKey404 m' = authKey404 m
  /\ serverRequestHandlers m' = serverRequestHandlers m.

Definition not_a_save (e : Event) : Prop :=
  match e with SaveSessionCalled _ => False | _ => True end.

(** An event of the dispatch's own code: neither a request on the send
    path nor the call of a handler. *)
Definition own_event (e : Event) : Prop :=
  match e with
  | MakeRequestCalled _ | SendPacketCalled _ | HandlerCalled _ _ _ => False
  | _ => True
  end.

(** One step of the dispatch: the kind of session is kept, the trace
    grows, in a memory session what it gains is no save, the clock
    offset moves only when the time source is asked, and the link is
    kept as long as no request is made and no handler called. *)
Definition step_ok (m m' : MTProto) : Prop :=
  memorySession m' = memorySession m
  /\ exists new, trace m' = trace m ++ new
                 /\ (memorySession m = true -> Forall not_a_save new)
                 /\ (TimeSourceQueried ∉ new -> timeOffset m' = timeOffset m)
                 /\ (Forall own_event new -> same_link m m').

(** A burst of -404 errors: each arrives less than 30 seconds after the
    time stamp the previous one left, all clock readings between the
    epoch and [2^62]. *)
Fixpoint in_burst (last_unix : Z) (arrivals : list (Z * Z)) : Prop :=
  match arrivals with
  | [] => True
  | (now, later) :: rest =>
      0 <= last_unix <= 2 ^ 62 /\ 0 <= now <= 2 ^ 62 /\ 0 <= later <= 2 ^ 62
      /\ now - last_unix < 30 /\ in_burst later rest
  end.

(** Two errors following a first one at 1700000000, ten and twenty
    seconds apart. *)
Definition shortBurst : list (Z * Z) :=
  [(1700000010, 1700000010); (1700000030, 1700000031)].

End Session.

Module Senders.
Import Telegram.

(** [(c *Client) AddNewExportedSenderToMap(dcID, sender)]; [now] is the
    reading of [time.Now()]. *)
Definition AddNewExportedSenderToMap (now : Z) (dc : Z) (sender : nat)
    (senders : list exportedSender) : list exportedSender :=
  senders ++ [mkExportedSender sender dc now].

(** [(c *Client) GetCachedExportedSenders(dcID)]. *)
Definition GetCachedExportedSenders (dc : Z) (senders : list exportedSender)
  : list nat :=
  map client (List.filter (fun s => dcID s =? dc) senders).

End Senders.

(* ===================================================================== *)
(** ** telegram: cache file names and the upload progress bar *)
(* ===================================================================== *)

Module Client.

(** [genCacheFileName(stringSession)]: the slice expression panics on a
    negative lower bound. *)
Definition genCacheFileName (stringSession : string) : Outcome string :=
  if String.eqb stringSession "" then Returns "cache"
  else
    let n := Z.of_nat (String.length stringSession) in
    let lo := Z.quot n 2 - 1 in
    let hi := Z.quot n 2 + 1 in
    if (0 <=? lo) && (lo <=? hi) && (hi <=? n)
    then Returns (String.append "cache_"
                    (substring (Z.to_nat lo) (Z.to_nat (hi - lo)) stringSession))
    else Panics "slice bounds out of range".

Definition progressfillemojirectangleempty : string := "◾️".
Definition progressfillemojirectanglefull : string := "◻️".

(** [strings.Repeat(s, count)]: it panics on a negative count and on a
    result whose length in bytes, [len(s) * count], does not fit an
    [int]. *)
Definition Repeat (s : string) (count : Z) : Outcome string :=
  if count <? 0 then Panics "strings: negative Repeat count"
  else if Int64.max_int <? Z.of_nat (String.length s) * count
  then Panics "strings: Repeat output length overflow"
  else Returns (String.concat "" (repeat s (Z.to_nat count))).

(** The closure [genPg] of [UploadProgressBar]: the arguments of
    [Sprintf] are evaluated from left to right. *)
Definition genPg (filled total : Z) : Outcome string :=
  let totalnumofprogressbar := 10 in
  if Int64.quot total totalnumofprogressbar =? 0 then Panics "integer divide by zero"
  else
    let filled := Int64.quot filled (Int64.quot total totalnumofprogressbar) in
    let empty := Int64.sub totalnumofprogressbar filled in
    match Repeat progressfillemojirectanglefull filled with
    | Panics msg => Panics msg
    | Returns full =>
        match Repeat progressfillemojirectangleempty empty with
        | Panics msg => Panics msg
        | Returns rest => Returns (String.append full rest)
        end
    end.

(** A bar of [f] full cells followed by [e] empty ones. *)
Definition bar (f e : nat) : string :=
  String.append (String.concat "" (repeat progressfillemojirectanglefull f))
                (String.concat "" (repeat progressfillemojirectangleempty e)).

End Client.

(* ===================================================================== *)
(** ** Theorems *)
(* ===================================================================== *)

Module Int64Facts.

Lemma wrap64_id z : Int64.in_range z -> Int64.wrap z = z.
Proof.
  unfold Int64.in_range, Int64.wrap, Int64.min_int, Int64.max_int. intros H.
  rewrite Z.mod_small; lia.
Qed.

Lemma wrap64_in_range z : Int64.in_range (Int64.wrap z).
Proof.
  unfold Int64.in_range, Int64.wrap, Int64.min_int, Int64.max_int.
  pose proof (Z.mod_pos_bound (z + 2 ^ 63) (2 ^ 64) ltac:(lia)). lia.
Qed.

(** Wrapping changes a value by a multiple of [2^64]. *)
Lemma wrap64_eqm z : exists k, Int64.wrap z = z + k * 2 ^ 64.
Proof.
  unfold Int64.wrap. exists (- ((z + 2 ^ 63) / 2 ^ 64)).
  pose proof (Z.div_mod (z + 2 ^ 63) (2 ^ 64) ltac:(lia)). lia.
Qed.

End Int64Facts.

Module Int32Facts.

Lemma wrap32_id z : Int32.in_range z -> Int32.wrap z = z.
Proof.
  unfold Int32.in_range, Int32.wrap, Int32.min_int, Int32.max_int. intros H.
  rewrite Z.mod_small; lia.
Qed.

End Int32Facts.

Module UtilsFacts.
Import Utils.

(** The two low bits of every computed id are zero, whatever the clock
    and the offset. *)
Lemma newID_low_bits now offset : Z.land (newID now offset) 3 = 0.
Proof.
  unfold newID. cbv zeta.
  set (s := Int64.quot _ _). set (n := Int64.rem _ _).
  rewrite Z.land_lor_distr_l.
  assert (Hs : Z.land (Int64.shl s 32) 3 = 0).
  { unfold Int64.shl. destruct (Int64Facts.wrap64_eqm (Z.shiftl s 32)) as [k ->].
    rewrite Z.shiftl_mul_pow2 by lia.
    change 3 with (Z.ones 2). rewrite Z.land_ones by lia.
    replace (s * 2 ^ 32 + k * 2 ^ 64) with ((s * 2 ^ 30 + k * 2 ^ 62) * 2 ^ 2) by lia.
    apply Z.mod_mul. lia. }
  assert (Hn : Z.land (Z.land n (-4)) 3 = 0).
  { rewrite <- Z.land_assoc. change (Z.land (-4) 3) with 0. apply Z.land_0_r. }
  rewrite Hs, Hn. reflexivity.
Qed.

(** The offset enters the id only as a shift of the clock reading by
    [offset] seconds. *)
Lemma newID_offset now offset :
  newID now offset = newID (Int64.add now (Int64.mul offset billion)) 0.
Proof.
  unfold newID. cbv zeta.
  change (Int64.mul 0 billion) with 0.
  assert (H : forall x, Int64.add (Int64.wrap x) 0 = Int64.wrap x).
  { intros x. unfold Int64.add. rewrite Z.add_0_r.
    apply Int64Facts.wrap64_id, Int64Facts.wrap64_in_range. }
  unfold Int64.add at 2 4 6. by rewrite !H.
Qed.

Lemma GenerateMessageId_sound clock P offset id :
  GenerateMessageId clock P offset = Some id ->
  P < id /\ Z.land id 3 = 0 /\ exists now, In now clock /\ id = newID now offset.
Proof.
  induction clock as [|now later IH]; simpl; [discriminate|].
  destruct (Z.leb_spec (newID now offset) P) as [Hle|Hgt].
  - intros H. destruct (IH H) as (H1 & H2 & t & Ht & ->). eauto 6.
  - intros [= <-]. split; [lia|]. split; [apply newID_low_bits|eauto].
Qed.

(** Readings whose id is not above the previous one are skipped. *)
Lemma GenerateMessageId_skip before clock P offset :
  Forall (fun t => newID t offset <= P) before ->
  GenerateMessageId (before ++ clock) P offset = GenerateMessageId clock P offset.
Proof.
  induction 1 as [|t before Ht _ IH]; simpl; [reflexivity|].
  destruct (Z.leb_spec (newID t offset) P); [exact IH | lia].
Qed.

(** When no reading gives an id above the previous one, the generator is
    still retrying when the readings run out. *)
Lemma GenerateMessageId_retries clock P offset :
  Forall (fun t => newID t offset <= P) clock ->
  GenerateMessageId clock P offset = None.
Proof.
  intros H. rewrite <- (app_nil_r clock). rewrite GenerateMessageId_skip by exact H.
  reflexivity.
Qed.

(** C1 (as amended).  Let the clock readings seen by the successive
    retries be [before], all giving ids not above the previous id [P],
    followed by a reading [now] whose id is above [P].  Then the generator
    returns, and what it returns is the id of that reading: it is strictly
    greater than [P] and its two low bits are zero. *)
Theorem GenerateMessageId_returns_first_above
  (before later : list Z) (now P offset : Z) :
  Forall (fun t => newID t offset <= P) before ->
  P < newID now offset ->
  exists id,
    GenerateMessageId (before ++ now :: later) P offset = Some id
    /\ id = newID now offset /\ P < id /\ Z.land id 3 = 0.
Proof.
  intros Hbefore Hnow. exists (newID now offset).
  rewrite GenerateMessageId_skip by exact Hbefore. simpl.
  destruct (Z.leb_spec (newID now offset) P); [lia|].
  auto using newID_low_bits.
Qed.

Lemma GenerateMessageId_returns_first_above_witness :
  exists id,
    GenerateMessageId
      ([1700000000000000100] ++ 1700000000000001100 :: [])
      (1700000000 * 2 ^ 32 + 100) 0 = Some id
    /\ id = newID 1700000000000001100 0
    /\ 1700000000 * 2 ^ 32 + 100 < id /\ Z.land id 3 = 0.
Proof.
  apply (GenerateMessageId_returns_first_above
           [1700000000000000100] [] 1700000000000001100
           (1700000000 * 2 ^ 32 + 100) 0).
  - constructor; [vm_compute; discriminate | constructor].
  - vm_compute. reflexivity.
Defined.

(** C1 (as stated) fails.  Previous id [P = 1700000000 * 2^32 + 100], no
    offset; the first reading (1700000000 s, 100 ns) gives the candidate
    [P] itself, which is not above [P]; the retry reads the clock one
    microsecond later and returns [P + 1000].  The smallest id above [P]
    with clear low bits is [P + 4]. *)
Lemma GenerateMessageId_not_smallest :
  let P := 1700000000 * 2 ^ 32 + 100 in
  newID 1700000000000000100 0 <= P
  /\ GenerateMessageId [1700000000000000100; 1700000000000001100] P 0
     = Some (P + 1000)
  /\ P < P + 4 < P + 1000 /\ Z.land (P + 4) 3 = 0.
Proof. vm_compute. repeat split; congruence. Qed.

End UtilsFacts.

Module MediaFacts.
Import Media.

Lemma divideLoop_length n start per rem :
  length (divideLoop n start per rem) = n.
Proof.
  revert start rem. induction n as [|n IH]; intros; simpl; [reflexivity|].
  by rewrite IH.
Qed.

(** Without overflow the loop lays the ranges end to end: the [i]-th one
    starts [i] full shares and [min i rem] extra parts after [start]. *)
Lemma divideLoop_closed_form n start per rem :
  0 <= start -> 0 <= per -> 0 <= rem ->
  start + Z.of_nat n * per + rem <= Int32.max_int ->
  divideLoop n start per rem =
  map (fun i : nat =>
         (start + Z.of_nat i * per + Z.min (Z.of_nat i) rem,
          start + (Z.of_nat i + 1) * per + Z.min (Z.of_nat i + 1) rem))
      (seq 0 n).
Proof.
  revert start rem. induction n as [|n IH]; intros start rem Hs Hp Hr Hmax; [reflexivity|].
  assert (Hmax' : Int32.max_int = 2 ^ 31 - 1) by reflexivity.
  cbn [divideLoop seq map].
  unfold Int32.add, Int32.sub.
  rewrite (Int32Facts.wrap32_id (start + per))
    by (unfold Int32.in_range, Int32.min_int; nia).
  destruct (Z.ltb_spec 0 rem) as [Hpos|Hzero].
  - rewrite (Int32Facts.wrap32_id (start + per + 1))
      by (unfold Int32.in_range, Int32.min_int; nia).
    rewrite (Int32Facts.wrap32_id (rem - 1))
      by (unfold Int32.in_range, Int32.min_int; nia).
    rewrite IH by nia. rewrite <- seq_shift, map_map.
    f_equal; [f_equal; lia|].
    apply map_ext. intros i. f_equal; lia.
  - rewrite IH by nia. rewrite <- seq_shift, map_map.
    f_equal; [f_equal; lia|].
    apply map_ext. intros i. f_equal; lia.
Qed.


Lemma spec_lo_0 N W : 0 <= N -> 0 < W -> spec_lo N W 0 = 0.
Proof.
  intros HN HW. unfold spec_lo.
  pose proof (Z.mod_pos_bound N W HW). lia.
Qed.

Lemma spec_lo_last N W : 0 <= N -> 0 < W -> spec_lo N W W = N.
Proof.
  intros HN HW. unfold spec_lo.
  pose proof (Z.mod_pos_bound N W HW). pose proof (Z.div_mod N W ltac:(lia)). lia.
Qed.

(** Worker [i] receives [N / W] parts, and one more when [i < N mod W]. *)
Lemma spec_lo_step N W i :
  0 <= N -> 0 < W -> 0 <= i ->
  spec_lo N W (i + 1) = spec_lo N W i + N / W + (if i <? N mod W then 1 else 0).
Proof.
  intros HN HW Hi. unfold spec_lo.
  pose proof (Z.mod_pos_bound N W HW).
  destruct (Z.ltb_spec i (N mod W)); lia.
Qed.

Lemma spec_lo_mono N W i j :
  0 <= N -> 0 < W -> 0 <= i <= j -> spec_lo N W i <= spec_lo N W j.
Proof.
  intros HN HW Hij. unfold spec_lo.
  pose proof (Z.div_pos N W HN HW). nia.
Qed.

(** Every part below [N] lies in the range of some worker: a discrete
    intermediate-value argument along the cut points [spec_lo]. *)
Lemma spec_lo_covers N W p (k : nat) :
  0 <= N -> 0 < W -> 0 <= p < spec_lo N W (Z.of_nat k) ->
  exists i : nat, (i < k)%nat
    /\ spec_lo N W (Z.of_nat i) <= p < spec_lo N W (Z.of_nat i + 1).
Proof.
  intros HN HW. induction k as [|k IH]; intros Hp.
  - change (Z.of_nat 0) with 0 in Hp. rewrite spec_lo_0 in Hp by lia. lia.
  - destruct (Z_lt_le_dec p (spec_lo N W (Z.of_nat k))) as [Hlt|Hge].
    + destruct IH as (i & Hi & Hr); [lia|]. exists i. split; [lia|exact Hr].
    + exists k. split; [lia|]. replace (Z.of_nat k + 1) with (Z.of_nat (S k)) by lia. lia.
Qed.

Lemma spec_ranges_length N W : length (spec_ranges N W) = Z.to_nat W.
Proof. unfold spec_ranges. by rewrite length_map, length_seq. Qed.

Lemma spec_ranges_lookup N W (i : nat) :
  (i < Z.to_nat W)%nat ->
  spec_ranges N W !! i
  = Some (spec_lo N W (Z.of_nat i), spec_lo N W (Z.of_nat i + 1)).
Proof.
  intros Hi. unfold spec_ranges.
  rewrite list_lookup_fmap, lookup_seq_lt by exact Hi. reflexivity.
Qed.

(** The ranges of the specification partition [[0, N)]: they are laid end
    to end from [0] to [N], each has the size the specification gives,
    and every part belongs to exactly one of them. *)
Lemma spec_ranges_partition N W :
  0 <= N -> 0 < W ->
  length (spec_ranges N W) = Z.to_nat W
  /\ (forall (i : nat) lo hi, spec_ranges N W !! i = Some (lo, hi) ->
        lo = (if i is O then 0 else spec_lo N W (Z.of_nat i))
        /\ hi = lo + N / W + (if Z.of_nat i <? N mod W then 1 else 0)
        /\ (spec_ranges N W !! S i = None -> hi = N)
        /\ (forall lo' hi', spec_ranges N W !! S i = Some (lo', hi') -> lo' = hi))
  /\ (forall p, 0 <= p < N ->
        exists i lo hi, spec_ranges N W !! i = Some (lo, hi) /\ lo <= p < hi
          /\ forall j lo' hi', spec_ranges N W !! j = Some (lo', hi') ->
               lo' <= p < hi' -> j = i).
Proof.
  intros HN HW. split; [apply spec_ranges_length|]. split.
  - intros i lo hi Hi.
    assert (Hlt : (i < Z.to_nat W)%nat).
    { apply lookup_lt_Some in Hi. by rewrite spec_ranges_length in Hi. }
    rewrite spec_ranges_lookup in Hi by exact Hlt. injection Hi as <- <-.
    split; [destruct i; [by rewrite spec_lo_0|reflexivity]|].
    split; [destruct i; rewrite spec_lo_step by lia;
            [change (Z.of_nat 0) with 0; rewrite spec_lo_0 by lia|]; lia|].
    split.
    + intros Hnone. apply lookup_ge_None in Hnone. rewrite spec_ranges_length in Hnone.
      replace (Z.of_nat i + 1) with W by lia. by apply spec_lo_last.
    + intros lo' hi' Hnext.
      assert (Hlt' : (S i < Z.to_nat W)%nat).
      { apply lookup_lt_Some in Hnext. by rewrite spec_ranges_length in Hnext. }
      rewrite spec_ranges_lookup in Hnext by exact Hlt'. injection Hnext as <- <-.
      f_equal. lia.
  - intros p Hp.
    destruct (spec_lo_covers N W p (Z.to_nat W) HN HW) as (i & Hi & Hr).
    { rewrite Z2Nat.id by lia. rewrite spec_lo_last by lia. lia. }
    exists i, (spec_lo N W (Z.of_nat i)), (spec_lo N W (Z.of_nat i + 1)).
    split; [by apply spec_ranges_lookup|]. split; [exact Hr|].
    intros j lo' hi' Hj Hin.
    assert (Hlt : (j < Z.to_nat W)%nat).
    { apply lookup_lt_Some in Hj. by rewrite spec_ranges_length in Hj. }
    rewrite spec_ranges_lookup in Hj by exact Hlt. injection Hj as <- <-.
    destruct (Nat.lt_trichotomy j i) as [Hji|[->|Hij]]; [|reflexivity|].
    + pose proof (spec_lo_mono N W (Z.of_nat j + 1) (Z.of_nat i) HN HW ltac:(lia)). lia.
    + pose proof (spec_lo_mono N W (Z.of_nat i + 1) (Z.of_nat j) HN HW ltac:(lia)). lia.
Qed.

(** Once the worker count [W] is settled with [1 <= W <= N'] for an
    [int32] number of parts, the code computes the ranges of the
    specification. *)
Lemma divideWith_spec N W :
  0 <= N <= Int32.max_int -> 1 <= W <= Int32.max_int ->
  divideWith N W = Some (W, spec_ranges N W).
Proof.
  intros HN HW. unfold divideWith.
  assert (Hmax : Int32.max_int = 2 ^ 31 - 1) by reflexivity.
  rewrite (Int32Facts.wrap32_id W) by (unfold Int32.in_range, Int32.min_int; lia).
  destruct (Z.eqb_spec W 0); [lia|].
  destruct (Z.ltb_spec W 0); [lia|].
  unfold Int32.quot, Int32.rem.
  rewrite Z.quot_div_nonneg, Z.rem_mod_nonneg by lia.
  pose proof (Z.mod_pos_bound N W ltac:(lia)).
  pose proof (Z.div_mod N W ltac:(lia)).
  assert (0 <= N / W <= N).
  { split; [apply Z.div_pos; lia|]. apply Z.div_le_upper_bound; nia. }
  rewrite Int32Facts.wrap32_id by (unfold Int32.in_range, Int32.min_int; lia).
  rewrite divideLoop_closed_form by (rewrite ?Z2Nat.id; nia).
  do 2 f_equal.
Qed.

(** The uploader's partitioner, for every [int32] number of parts
    [N >= 0] and every worker count [1 <= W] in the [int32] range: the
    worker count becomes [N] when [W > N > 0] and [1] when [N = 0], and
    the ranges are those of the specification. *)
Lemma Uploader_dividePartsToWorkers_spec N W :
  0 <= N <= Int32.max_int -> 1 <= W <= Int32.max_int ->
  Uploader.dividePartsToWorkers N W =
  let W' := if N =? 0 then 1 else Z.min W N in Some (W', spec_ranges N W').
Proof.
  intros HN HW. unfold Uploader.dividePartsToWorkers.
  assert (Hmax : Int32.max_int = 2 ^ 31 - 1) by reflexivity.
  rewrite (Int32Facts.wrap32_id W) by (unfold Int32.in_range, Int32.min_int; lia).
  cbv zeta.
  destruct (Z.ltb_spec N W) as [Hlt|Hge].
  - rewrite (Int32Facts.wrap32_id N) by (unfold Int32.in_range, Int32.min_int; lia).
    destruct (Z.eqb_spec N 0) as [->|Hne].
    + by rewrite divideWith_spec by lia.
    + replace (Z.min W N) with N by lia. by rewrite divideWith_spec by lia.
  - rewrite (Int32Facts.wrap32_id W) by (unfold Int32.in_range, Int32.min_int; lia).
    destruct (Z.eqb_spec W 0); [lia|]. destruct (Z.eqb_spec N 0); [lia|].
    replace (Z.min W N) with W by lia. by rewrite divideWith_spec by lia.
Qed.

(** The downloader's partitioner agrees with the uploader's as soon as
    there is at least one part. *)
Lemma Downloader_DividePartsToWorkers_spec N W :
  1 <= N <= Int32.max_int -> 1 <= W <= Int32.max_int ->
  Downloader.DividePartsToWorkers N W = Some (Z.min W N, spec_ranges N (Z.min W N)).
Proof.
  intros HN HW. unfold Downloader.DividePartsToWorkers.
  assert (Hmax : Int32.max_int = 2 ^ 31 - 1) by reflexivity.
  rewrite (Int32Facts.wrap32_id W) by (unfold Int32.in_range, Int32.min_int; lia).
  cbv zeta.
  destruct (Z.ltb_spec N W).
  - replace (Z.min W N) with N by lia. by rewrite divideWith_spec by lia.
  - replace (Z.min W N) with W by lia. by rewrite divideWith_spec by lia.
Qed.

(** With no parts the downloader's partitioner divides by zero, for every
    worker count in the [int32] range. *)
Lemma Downloader_DividePartsToWorkers_no_parts W :
  1 <= W <= Int32.max_int -> Downloader.DividePartsToWorkers 0 W = None.
Proof.
  intros HW. unfold Downloader.DividePartsToWorkers.
  assert (Hmax : Int32.max_int = 2 ^ 31 - 1) by reflexivity.
  rewrite (Int32Facts.wrap32_id W) by (unfold Int32.in_range, Int32.min_int; lia).
  destruct (Z.ltb_spec 0 W); [reflexivity|lia].
Qed.

(** C4.  On a downloader with [Parts = 0] and the default four workers,
    [DividePartsToWorkers] shrinks [worker] to [0] and panics on
    [parts / int32(worker)]; the uploader's function, which resets a zero
    worker count to [1], returns the single empty range [[0, 0)] on the
    same input. *)
Theorem DividePartsToWorkers_zero_parts :
  Downloader.DividePartsToWorkers 0 4 = None
  /\ Uploader.dividePartsToWorkers 0 4 = Some (1, [(0, 0)]).
Proof. split; reflexivity. Qed.

End MediaFacts.

Module ModeFacts.
Import Mode.

Lemma New_nil_stream v : New v None = Returns (None, ErrInterfaceIsNil, None).
Proof. reflexivity. Qed.

Lemma New_unknown_variant v c :
  0 <= v < 256 -> 4 <= v ->
  New v (Some c) = Returns (None, ErrModeNotSupported, Some c).
Proof.
  intros Hv H4. unfold New, initMode, PaddedIntermediate, Abridged, Intermediate, Full.
  destruct (Z.eqb_spec v 2); [lia|]. destruct (Z.eqb_spec v 0); [lia|].
  destruct (Z.eqb_spec v 1); [lia|]. destruct (Z.eqb_spec v 3); [lia|]. reflexivity.
Qed.

Lemma New_PaddedIntermediate c :
  New PaddedIntermediate (Some c) = Panics "not supported yet".
Proof. reflexivity. Qed.

(** C8 (as amended).  For every [uint8] variant [v]: a nil stream makes
    [New] return [ErrInterfaceIsNil], and there is no stream anything
    could have been written to; on a stream [c], a variant other than the
    four declared ones makes it return [ErrModeNotSupported] with [c]
    untouched, and [PaddedIntermediate] makes it panic with "not supported
    yet" instead of returning an error. *)
Theorem New_configuration_errors (v : Variant) (c : Stream) :
  0 <= v < 256 ->
  New v None = Returns (None, ErrInterfaceIsNil, None)
  /\ (4 <= v -> New v (Some c) = Returns (None, ErrModeNotSupported, Some c))
  /\ (v = PaddedIntermediate -> New v (Some c) = Panics "not supported yet").
Proof.
  intros Hv. split; [reflexivity|]. split.
  - intros H4. by apply New_unknown_variant.
  - intros ->. reflexivity.
Qed.

Lemma New_configuration_errors_witness :
  New 7 None = Returns (None, ErrInterfaceIsNil, None)
  /\ (4 <= 7 -> New 7 (Some (mkStream [] false))
                = Returns (None, ErrModeNotSupported, Some (mkStream [] false)))
  /\ (7 = PaddedIntermediate ->
      New 7 (Some (mkStream [] false)) = Panics "not supported yet").
Proof. apply (New_configuration_errors 7 (mkStream [] false)). lia. Defined.

(** C8 (as stated) fails: asked for [PaddedIntermediate] on a healthy
    stream, [New] does not return [ErrModeNotSupported], it panics. *)
Lemma New_PaddedIntermediate_panics :
  New PaddedIntermediate (Some (mkStream [] false)) = Panics "not supported yet"
  /\ New PaddedIntermediate (Some (mkStream [] false))
     <> Returns (None, ErrModeNotSupported, Some (mkStream [] false)).
Proof. split; [reflexivity|discriminate]. Qed.

(** The supported variants announce themselves on the stream. *)
Lemma New_supported_announces :
  New Abridged (Some (mkStream [] false))
  = Returns (Some (abridged (mkStream [0xEF] false)), Nil, Some (mkStream [0xEF] false))
  /\ New Intermediate (Some (mkStream [] false))
     = Returns (Some (intermediate (mkStream [0xEE; 0xEE; 0xEE; 0xEE] false)), Nil,
                Some (mkStream [0xEE; 0xEE; 0xEE; 0xEE] false))
  /\ New Full (Some (mkStream [] false))
     = Returns (Some (full (mkStream [] false)), Nil, Some (mkStream [] false)).
Proof. repeat split. Qed.

End ModeFacts.

Module TelegramFacts.
Import Telegram.

Lemma numbered_cons i s rest :
  numbered i (s :: rest) = (i, s) :: numbered (S i) rest.
Proof. reflexivity. Qed.

(** The loop invariant: the first [k] cells hold the senders kept so
    far, and the cells from [i] on are still those of the original
    cache. *)
Lemma cleanLoop_invariant now rest :
  forall i k arr terminated,
    (k <= i)%nat -> drop i arr = rest ->
    cleanLoop now (length rest) i k arr terminated =
    (take k arr ++ map snd (List.filter (fun p => negb (expired now p)) (numbered i rest)),
     terminated ++ map (fun p => client p.2) (List.filter (expired now) (numbered i rest))).
Proof.
  induction rest as [|s rest IH]; intros i k arr terminated Hk Hdrop.
  - simpl. by rewrite !app_nil_r.
  - assert (Hi : arr !! i = Some s).
    { rewrite <- (Nat.add_0_r i), <- lookup_drop, Hdrop. reflexivity. }
    assert (Hrest : drop (S i) arr = rest).
    { rewrite (drop_S _ _ _ Hi) in Hdrop. by injection Hdrop. }
    pose proof (lookup_lt_Some _ _ _ Hi) as Hlen.
    assert (He : expired now (i, s) = (DisconnectExportedAfter <? now i - added s))
      by reflexivity.
    rewrite numbered_cons. cbn [length cleanLoop List.filter]. rewrite Hi, !He.
    destruct (DisconnectExportedAfter <? now i - added s).
    + cbn [negb map]. rewrite IH by (done || lia).
      by rewrite <- app_assoc.
    + cbn [negb map]. rewrite IH.
      * f_equal.
        assert (Hk' : <[k:=s]> arr !! k = Some s)
          by (apply list_lookup_insert_eq; lia).
        rewrite (take_S_r _ _ _ Hk'), take_insert_ge by lia.
        by rewrite <- app_assoc.
      * lia.
      * rewrite drop_insert_lt by lia. exact Hrest.
Qed.

(** One cycle keeps, in order, the senders that are not expired when
    examined, and terminates the others. *)
Lemma cleanSendersCycle_spec now senders :
  cleanSendersCycle now senders =
  (map snd (List.filter (fun p => negb (expired now p)) (numbered 0 senders)),
   map (fun p => client p.2) (List.filter (expired now) (numbered 0 senders))).
Proof.
  unfold cleanSendersCycle. by rewrite cleanLoop_invariant.
Qed.

Lemma numbered_lookup (i : nat) senders (j : nat) s :
  senders !! j = Some s -> ((i + j)%nat, s) ∈ numbered i senders.
Proof.
  revert i j. induction senders as [|s' senders IH]; intros i j Hj; [done|].
  rewrite numbered_cons. destruct j as [|j]; simpl in Hj.
  - injection Hj as ->. rewrite Nat.add_0_r. by left.
  - right. replace (i + S j)%nat with (S i + j)%nat by lia. by apply IH.
Qed.

Lemma numbered_elem (i : nat) senders p :
  p ∈ numbered i senders -> senders !! (p.1 - i)%nat = Some p.2 /\ (i <= p.1)%nat.
Proof.
  revert i. induction senders as [|s senders IH]; intros i Hp.
  - by apply elem_of_nil in Hp.
  - rewrite numbered_cons in Hp. apply elem_of_cons in Hp as [->|Hp].
    + simpl. by rewrite Nat.sub_diag.
    + destruct (IH _ Hp) as [Hl Hle]. split; [|lia].
      replace (p.1 - i)%nat with (S (p.1 - S i)) by lia. exact Hl.
Qed.

(** C9.  Run one cleaner cycle on the cache [senders], the clock reading
    [now j] at the moment the sender at position [j] is examined.  The
    cache it leaves ([kept]) consists, in their original order, of
    exactly the senders whose age [now j - added] is at most
    [DisconnectExportedAfter], fifteen minutes, each unchanged; and
    [Terminate] was called ([terminated]) on exactly the clients of the
    senders whose age exceeds fifteen minutes.  So a sender in position
    [j] with age above fifteen minutes is terminated and is not among
    the survivors, and one with age at most fifteen minutes survives and
    is not terminated. *)
Theorem cleanSendersRoutine_cycle (now : nat -> Z) (senders : list exportedSender) :
  let '(kept, terminated) := cleanSendersCycle now senders in
  let survivors := List.filter (fun p => negb (expired now p)) (numbered 0 senders) in
  let victims := List.filter (expired now) (numbered 0 senders) in
  kept = map snd survivors
  /\ terminated = map (fun p => client p.2) victims
  /\ (forall j s, senders !! j = Some s ->
        if 15 * Minute <? now j - added s
        then (j, s) ∈ victims /\ (j, s) ∉ survivors
        else (j, s) ∈ survivors /\ (j, s) ∉ victims)
  /\ (forall p, p ∈ survivors -> senders !! p.1 = Some p.2)
  /\ (forall p, p ∈ victims -> senders !! p.1 = Some p.2).
Proof.
  rewrite cleanSendersCycle_spec. cbv zeta.
  split; [reflexivity|]. split; [reflexivity|]. split; [|split].
  - intros j s Hj. pose proof (numbered_lookup 0 senders j s Hj) as Hin.
    rewrite Nat.add_0_l in Hin. apply list_elem_of_In in Hin.
    assert (He : expired now (j, s) = (15 * Minute <? now j - added s))
      by reflexivity.
    destruct (15 * Minute <? now j - added s); split.
    + apply list_elem_of_In, filter_In. by split.
    + intros H%list_elem_of_In%filter_In. destruct H as [_ H].
      by rewrite He in H.
    + apply list_elem_of_In, filter_In. split; [done|]. by rewrite He.
    + intros H%list_elem_of_In%filter_In. destruct H as [_ H].
      by rewrite He in H.
  - intros p Hp. rewrite list_elem_of_In, filter_In, <- list_elem_of_In in Hp.
    destruct Hp as [Hp _]. apply numbered_elem in Hp as [Hp _].
    by rewrite Nat.sub_0_r in Hp.
  - intros p Hp. rewrite list_elem_of_In, filter_In, <- list_elem_of_In in Hp.
    destruct Hp as [Hp _]. apply numbered_elem in Hp as [Hp _].
    by rewrite Nat.sub_0_r in Hp.
Qed.

(** A cycle at minute 100 over three senders added at minutes 84, 85
    and 90: ages of 16, 15 and 10 minutes; only the first is terminated. *)
Example cleanSendersCycle_example :
  cleanSendersCycle (fun _ => 100 * Minute)
    [mkExportedSender 1 2 (84 * Minute); mkExportedSender 2 2 (85 * Minute);
     mkExportedSender 3 4 (90 * Minute)]
  = ([mkExportedSender 2 2 (85 * Minute); mkExportedSender 3 4 (90 * Minute)], [1%nat]).
Proof. reflexivity. Qed.

End TelegramFacts.

Module GogramFacts.
Import Gogram Session.

(** *** Reconnect *)

Lemma Disconnect_connected m :
  stopRoutines m = true ->
  Disconnect m = Returns (with_tcpActive false (emit StopRoutinesCalled m), Nil).
Proof. intros H. unfold Disconnect. by rewrite H. Qed.

Lemma Disconnect_never_connected m :
  stopRoutines m = false ->
  Disconnect m = Panics "invalid memory address or nil pointer dereference".
Proof. intros H. unfold Disconnect. by rewrite H. Qed.

Lemma Reconnect_unfold env WithLogs m :
  stopRoutines m = true ->
  Reconnect env WithLogs m =
  let r := CreateConnection env WithLogs
             (with_tcpActive false (emit StopRoutinesCalled m)) in
  Returns (Ping r.1, Errorf "recreating connection: %w" r.2).
Proof.
  intros H. unfold Reconnect. rewrite (Disconnect_connected m H).
  cbn [is_nil negb]. by destruct (CreateConnection _ _ _).
Qed.

Lemma Reconnect_never_connected env WithLogs m :
  stopRoutines m = false ->
  Reconnect env WithLogs m
  = Panics "invalid memory address or nil pointer dereference".
Proof. intros H. unfold Reconnect. by rewrite (Disconnect_never_connected m H). Qed.

(** [CreateConnection] stores the cancel function whatever happens
    next, and touches neither the watchdog record nor the pending
    acknowledgements. *)
Lemma CreateConnection_frame env withLog m :
  let m' := (CreateConnection env withLog m).1 in
  stopRoutines m' = true
  /\ authKey404 m' = authKey404 m
  /\ pendingAcks m' = pendingAcks m
  /\ memorySession m' = memorySession m
  /\ timeOffset m' = timeOffset m
  /\ encrypted m' = encrypted m
  /\ serverRequestHandlers m' = serverRequestHandlers m.
Proof.
  cbv zeta. unfold CreateConnection.
  destruct (is_nil (connect _ _)); cbn [negb fst]; [|by repeat split].
  cbn [encrypted emit with_tcpActive with_stopRoutines].
  destruct (encrypted m) eqn:He; cbn [negb fst]; [by repeat split|].
  destruct (is_nil (makeAuthKey _ _)); by repeat split.
Qed.

(** When the transport connects and the key exchange, if one is needed,
    succeeds, [CreateConnection] returns nil with the connection up. *)
Lemma CreateConnection_success env withLog m :
  connect env (with_stopRoutines true m) = Nil ->
  (encrypted m = false ->
   makeAuthKey env
     (emit PingerStarted
        (emit ReaderStarted
           (with_tcpActive true (emit ConnectCalled (with_stopRoutines true m)))))
   = Nil) ->
  (CreateConnection env withLog m).2 = Nil
  /\ tcpActive (CreateConnection env withLog m).1 = true.
Proof.
  intros Hc Hk. unfold CreateConnection. rewrite Hc. cbn [is_nil negb].
  cbn [encrypted emit with_tcpActive with_stopRoutines].
  destruct (encrypted m) eqn:He; cbn [negb]; [done|].
  rewrite Hk by reflexivity. done.
Qed.

(** C7 (as amended).  On a session whose [stopRoutines] is set, and
    [CreateConnection] sets it on every session it is called on,
    [Reconnect] returns whatever the flag and the outcome of the network
    calls: disconnecting returns nil, and the error returned is
    [fmt.Errorf("recreating connection: %w", err)] around the result
    [err] of [CreateConnection], hence never nil, also when
    disconnecting and re-creating the connection both succeed, where
    [err] is nil and the connection is left as [CreateConnection] set it
    up.  [stopRoutines] is still set afterwards. *)
Theorem Reconnect_never_returns_nil (env : Env) (WithLogs : bool) (m : MTProto) :
  stopRoutines m = true ->
  let stopped := with_tcpActive false (emit StopRoutinesCalled m) in
  let created := CreateConnection env WithLogs stopped in
  Disconnect m = Returns (stopped, Nil)
  /\ (exists m' err,
        Reconnect env WithLogs m = Returns (m', err)
        /\ err = Errorf "recreating connection: %w" created.2
        /\ err <> Nil
        /\ is_nil err = false
        /\ m' = Ping created.1
        /\ tcpActive m' = tcpActive created.1
        /\ stopRoutines m' = true)
  /\ (forall withLog m0, stopRoutines (CreateConnection env withLog m0).1 = true).
Proof.
  intros Hset. cbv zeta. split; [by apply Disconnect_connected|]. split.
  - eexists _, _. split; [by apply Reconnect_unfold|]. cbv zeta. cbn [fst snd].
    split; [reflexivity|]. split; [discriminate|]. split; [reflexivity|].
    split; [reflexivity|]. split; [reflexivity|].
    apply (CreateConnection_frame env WithLogs
             (with_tcpActive false (emit StopRoutinesCalled m))).
  - intros withLog m0. apply (CreateConnection_frame env withLog m0).
Qed.

Lemma Reconnect_never_returns_nil_witness :
  let stopped := with_tcpActive false (emit StopRoutinesCalled idle) in
  let created := CreateConnection calm false stopped in
  Disconnect idle = Returns (stopped, Nil)
  /\ (exists m' err,
        Reconnect calm false idle = Returns (m', err)
        /\ err = Errorf "recreating connection: %w" created.2
        /\ err <> Nil
        /\ is_nil err = false
        /\ m' = Ping created.1
        /\ tcpActive m' = tcpActive created.1
        /\ stopRoutines m' = true)
  /\ (forall withLog m0, stopRoutines (CreateConnection calm withLog m0).1 = true).
Proof.
  apply (Reconnect_never_returns_nil calm false idle). reflexivity.
Defined.

(** In a world where every call succeeds the connection is re-created
    and an error is returned all the same. *)
Example Reconnect_success_is_an_error :
  match Reconnect calm false idle with
  | Returns (m, err) =>
      err = Errorf "recreating connection: %w" Nil
      /\ tcpActive m = true
      /\ trace m
         = [StopRoutinesCalled; ConnectCalled; ReaderStarted; PingerStarted; PingSent]
  | Panics _ => False
  end.
Proof. vm_compute. repeat split. Qed.

(** C7 (as stated) fails.  The struct that [NewMTProto] returns has not
    been connected: its [stopRoutines] is nil.  [Reconnect] on it, as
    [ImportRawAuth] calls it, does not return an error: the call of the
    nil func field in [Disconnect] panics. *)
Lemma Reconnect_never_connected_panics :
  NewMTProto calm (mkConfig false "") = Ready fresh
  /\ stopRoutines fresh = false
  /\ Reconnect calm false fresh
     = Panics "invalid memory address or nil pointer dereference"
  /\ ImportRawAuth calm fresh
     = Panics "invalid memory address or nil pointer dereference".
Proof. repeat split. Qed.

(** *** The -404 watchdog *)

Lemma Reconnect_returns env WithLogs m m' err :
  Reconnect env WithLogs m = Returns (m', err) ->
  stopRoutines m = true
  /\ stopRoutines m' = true
  /\ authKey404 m' = authKey404 m.
Proof.
  destruct (stopRoutines m) eqn:Hs.
  - rewrite Reconnect_unfold by exact Hs. cbv zeta. intros [= <- _].
    split; [done|].
    destruct (CreateConnection_frame env WithLogs
                (with_tcpActive false (emit StopRoutinesCalled m)))
      as (H1 & H2 & _).
    split; [exact H1|exact H2].
  - by rewrite Reconnect_never_connected.
Qed.

Lemma handle404Error_first env now later m :
  authKey404 m = [] ->
  handle404Error env now later m = Returns (with_authKey404 [1; now] m).
Proof. intros H. unfold handle404Error. rewrite H. reflexivity. Qed.

(** On the records the code builds, and with clock readings whose
    difference is an [int64], the call is the step of the specification:
    count, stamp, then reconnect at 4 or abort above 8. *)
Lemma handle404Error_step env now later m :
  watchdog_ok (authKey404 m) ->
  (forall count last_unix, authKey404 m = [count; last_unix] ->
     Int64.in_range (now - last_unix)) ->
  handle404Error env now later m =
  let count' := watchdog_count (authKey404 m) now in
  let stamp := if authKey404 m is [] then now else later in
  let m1 := with_authKey404 [count'; stamp] m in
  if count' =? 4 then
    match Reconnect env false m1 with
    | Panics msg => Panics msg
    | Returns (m', _) => Returns m'
    end
  else if 8 <? count' then Panics "[AUTH_KEY_INVALID] (code -404)"
  else Returns m1.
Proof.
  intros [Hempty|(count & last & Hrec & Hcount)] Hrange.
  - rewrite Hempty, (handle404Error_first _ _ _ _ Hempty). reflexivity.
  - specialize (Hrange _ _ Hrec). rewrite Hrec. unfold handle404Error. rewrite Hrec.
    cbn [watchdog_count]. unfold Int64.sub, Int64.add.
    rewrite (Int64Facts.wrap64_id (now - last)) by exact Hrange.
    rewrite (Int64Facts.wrap64_id (count + 1))
      by (unfold Int64.in_range, Int64.min_int, Int64.max_int; lia).
    reflexivity.
Qed.

Lemma watchdog_count_bounds record now :
  watchdog_ok record -> 1 <= watchdog_count record now <= 9.
Proof.
  intros [->|(count & last & -> & Hcount)]; cbn [watchdog_count]; [lia|].
  destruct (now - last <? 30); lia.
Qed.

(** C5.  Let the watchdog record of the session be absent or
    [{count, last_unix}] with [1 <= count <= 8], and let a -404 arrive
    at [now] (the difference to [last_unix] an [int64]).  The new count
    is [count + 1] when [now - last_unix < 30] and [1] otherwise (also
    on the first error).  If it exceeds 8 the call panics with
    "[AUTH_KEY_INVALID] (code -404)".  Otherwise the record holds the
    new count and the time stamp just read (so the next error finds a
    record of the same kind), and the session is otherwise untouched
    unless the new count is 4, in which case it is what
    [Reconnect(false)] makes of it: on a session that has been
    connected [Reconnect] returns and so does the call; on one that has
    not, the nil [stopRoutines] makes both panic. *)
Theorem handle404Error_watchdog (env : Env) (now later : Z) (m : MTProto) :
  watchdog_ok (authKey404 m) ->
  (forall count last_unix, authKey404 m = [count; last_unix] ->
     Int64.in_range (now - last_unix)) ->
  let count' := watchdog_count (authKey404 m) now in
  let stamp := if authKey404 m is [] then now else later in
  let m1 := with_authKey404 [count'; stamp] m in
  1 <= count' <= 9
  /\ match handle404Error env now later m with
     | Panics msg =>
         (8 < count' /\ msg = "[AUTH_KEY_INVALID] (code -404)")
         \/ (count' = 4 /\ stopRoutines m = false
             /\ msg = "invalid memory address or nil pointer dereference")
     | Returns m' =>
         count' <= 8
         /\ authKey404 m' = [count'; stamp]
         /\ watchdog_ok (authKey404 m')
         /\ (count' = 4 ->
             stopRoutines m = true
             /\ exists err, Reconnect env false m1 = Returns (m', err))
         /\ (count' <> 4 -> m' = m1)
     end.
Proof.
  intros Hok Hrange. rewrite (handle404Error_step env now later m Hok Hrange).
  cbv zeta. pose proof (watchdog_count_bounds _ now Hok) as Hb.
  set (count' := watchdog_count (authKey404 m) now) in *.
  set (stamp := if authKey404 m is [] then now else later).
  set (m1 := with_authKey404 [count'; stamp] m).
  split; [exact Hb|].
  assert (Hrec : forall c, 1 <= c <= 8 -> watchdog_ok [c; stamp]).
  { intros c Hc. right. exists c, stamp. by split. }
  destruct (Z.eqb_spec count' 4) as [H4|H4].
  - destruct (Reconnect env false m1) as [[m' err]|msg] eqn:Hre.
    + destruct (Reconnect_returns _ _ _ _ _ Hre) as (Hs & _ & Ha).
      rewrite Ha. cbn [authKey404 with_authKey404 m1].
      split; [lia|]. split; [done|]. split; [apply Hrec; lia|].
      split; [|done]. intros _. split; [exact Hs|]. by exists err.
    + right. split; [done|].
      destruct (stopRoutines m) eqn:Hs.
      * rewrite Reconnect_unfold in Hre by exact Hs. discriminate.
      * rewrite Reconnect_never_connected in Hre by exact Hs.
        injection Hre as <-. done.
  - destruct (Z.ltb_spec 8 count') as [H8|H8]; [left; by split|].
    cbn [authKey404 with_authKey404 m1].
    split; [lia|]. split; [done|]. split; [apply Hrec; lia|]. by split.
Qed.

Lemma handle404Error_watchdog_witness :
  let m := with_authKey404 [3; 1700000000] idle in
  let count' := watchdog_count (authKey404 m) 1700000010 in
  let stamp := if authKey404 m is [] then 1700000010 else 1700000011 in
  let m1 := with_authKey404 [count'; stamp] m in
  1 <= count' <= 9
  /\ match handle404Error calm 1700000010 1700000011 m with
     | Panics msg =>
         (8 < count' /\ msg = "[AUTH_KEY_INVALID] (code -404)")
         \/ (count' = 4 /\ stopRoutines m = false
             /\ msg = "invalid memory address or nil pointer dereference")
     | Returns m' =>
         count' <= 8
         /\ authKey404 m' = [count'; stamp]
         /\ watchdog_ok (authKey404 m')
         /\ (count' = 4 ->
             stopRoutines m = true
             /\ exists err, Reconnect calm false m1 = Returns (m', err))
         /\ (count' <> 4 -> m' = m1)
     end.
Proof.
  apply (handle404Error_watchdog calm 1700000010 1700000011
           (with_authKey404 [3; 1700000000] idle)).
  - right. exists 3, 1700000000. split; [reflexivity|lia].
  - intros count last [= <- <-]. vm_compute. split; discriminate.
Defined.

(** Along any sequence of -404 errors with clock readings between the
    epoch and [2^62], on a session that has been connected, the watchdog
    either aborts with its one message or leaves a record of the kind it
    started from: the counter never passes 8 in a session that is still
    running. *)
Lemma handle404Errors_invariant env arrivals :
  Forall (fun a : Z * Z => 0 <= a.1 <= 2 ^ 62 /\ 0 <= a.2 <= 2 ^ 62) arrivals ->
  forall m,
    stopRoutines m = true ->
    watchdog_ok (authKey404 m) ->
    (forall count last_unix, authKey404 m = [count; last_unix] ->
       0 <= last_unix <= 2 ^ 62) ->
    match handle404Errors env arrivals m with
    | Panics msg => msg = "[AUTH_KEY_INVALID] (code -404)"
    | Returns m' => watchdog_ok (authKey404 m') /\ stopRoutines m' = true
    end.
Proof.
  induction 1 as [|[now later] arrivals [Hnow Hlater] _ IH]; intros m Hset Hok Hstamp;
    [by split|].
  cbn [handle404Errors fst snd] in *.
  assert (Hrange : forall count last_unix, authKey404 m = [count; last_unix] ->
                     Int64.in_range (now - last_unix)).
  { intros c l Hrec. specialize (Hstamp c l Hrec).
    unfold Int64.in_range, Int64.min_int, Int64.max_int. lia. }
  rewrite (handle404Error_step env now later m Hok Hrange). cbv zeta.
  pose proof (watchdog_count_bounds _ now Hok) as Hb.
  set (count' := watchdog_count (authKey404 m) now) in *.
  set (stamp := if authKey404 m is [] then now else later).
  assert (Hs : 0 <= stamp <= 2 ^ 62) by (subst stamp; destruct (authKey404 m); lia).
  destruct (Z.eqb_spec count' 4) as [H4|H4].
  - rewrite Reconnect_unfold by exact Hset. cbv zeta.
    destruct (CreateConnection_frame env false
                (with_tcpActive false
                   (emit StopRoutinesCalled (with_authKey404 [count'; stamp] m))))
      as (H1 & H2 & _).
    apply IH.
    + exact H1.
    + cbn [Ping emit authKey404]. rewrite H2. right. exists count', stamp.
      split; [done|lia].
    + cbn [Ping emit authKey404]. rewrite H2. by intros c l [= <- <-].
  - destruct (Z.ltb_spec 8 count') as [H8|H8]; [reflexivity|].
    apply IH; cbn [authKey404 with_authKey404 stopRoutines]; [done| |].
    + right. exists count', stamp. split; [done|lia].
    + by intros c l [= <- <-].
Qed.

(** Nine errors one second apart: the fourth forces a reconnect, the
    ninth aborts.  Eight of them, then a pause of 30 seconds: the
    counter starts again at 1. *)
Example handle404Errors_burst :
  let burst n :=
    map (fun i : nat => (1700000000 + Z.of_nat i, 1700000000 + Z.of_nat i)) (seq 0 n) in
  handle404Errors calm (burst 9%nat) idle = Panics "[AUTH_KEY_INVALID] (code -404)"
  /\ match handle404Errors calm (burst 4%nat) idle with
     | Returns m =>
         authKey404 m = [4; 1700000003]
         /\ trace m = [StopRoutinesCalled; ConnectCalled; ReaderStarted;
                       PingerStarted; PingSent]
     | Panics _ => False
     end
  /\ match handle404Errors calm (burst 8%nat ++ [(1700000037, 1700000037)]) idle with
     | Returns m => authKey404 m = [1; 1700000037]
     | Panics _ => False
     end.
Proof. vm_compute. repeat split. Qed.

(** *** Reading the trace *)

Lemma grows_refl P m : grows P m m.
Proof. exists []. by rewrite app_nil_r. Qed.

Lemma grows_trans P m1 m2 m3 : grows P m1 m2 -> grows P m2 m3 -> grows P m1 m3.
Proof.
  intros (n1 & H1 & F1) (n2 & H2 & F2). exists (n1 ++ n2).
  rewrite H2, H1, app_assoc. split; [done|]. by apply Forall_app.
Qed.





Lemma emit_emits e m : emit e m = emits [e] m.
Proof. reflexivity. Qed.

Lemma emits_emits es es' m : emits es' (emits es m) = emits (es ++ es') m.
Proof. unfold emits. cbn. by rewrite app_assoc. Qed.

Lemma emits_nil m : emits [] m = m.
Proof. destruct m. unfold emits. cbn. by rewrite app_nil_r. Qed.

(** *** Duplicate suppression *)

Lemma processResponse_unfold env msg m :
  processResponse env msg m =
  let contentBearing := negb (Z.land (GetSeqNo msg) 1 =? 0) in
  if contentBearing && bool_decide (GetMsgID msg ∈ pendingAcks m) then Done m Nil
  else decodeAndDispatch env msg
         (if contentBearing
          then with_pendingAcks ({[GetMsgID msg]} ∪ pendingAcks m) m else m).
Proof. destruct msg as [msgID seqNo [data|]]; reflexivity. Qed.


(** C10.  For a message with an odd sequence number: when its id is
    already in the pending-ack set, [processResponse] returns nil and
    the session is exactly as before (nothing decoded, nothing
    dispatched, no event); otherwise the id is put in the set, and
    decoding and dispatching run on the session that already holds
    it. *)
Theorem processResponse_duplicate_suppression
  (env : Env) (msg : Message) (m : MTProto) :
  Z.land (GetSeqNo msg) 1 <> 0 ->
  (GetMsgID msg ∈ pendingAcks m -> processResponse env msg m = Done m Nil)
  /\ (GetMsgID msg ∉ pendingAcks m ->
      let m1 := with_pendingAcks ({[GetMsgID msg]} ∪ pendingAcks m) m in
      GetMsgID msg ∈ pendingAcks m1
      /\ processResponse env msg m = decodeAndDispatch env msg m1).
Proof.
  intros Hodd. rewrite processResponse_unfold. cbv zeta.
  destruct (Z.eqb_spec (Z.land (GetSeqNo msg) 1) 0) as [|_]; [done|].
  cbn [negb andb]. split; intros Hin.
  - by rewrite bool_decide_eq_true_2.
  - rewrite bool_decide_eq_false_2 by done. split; [|reflexivity].
    cbn [pendingAcks with_pendingAcks]. set_solver.
Qed.

Lemma processResponse_duplicate_suppression_witness :
  let msg := mkMessage 5 1 (Some Pong) in
  let m := with_pendingAcks {[5]} idle in
  (GetMsgID msg ∈ pendingAcks m -> processResponse calm msg m = Done m Nil)
  /\ (GetMsgID msg ∉ pendingAcks m ->
      let m1 := with_pendingAcks ({[GetMsgID msg]} ∪ pendingAcks m) m in
      GetMsgID msg ∈ pendingAcks m1
      /\ processResponse calm msg m = decodeAndDispatch calm msg m1).
Proof.
  apply (processResponse_duplicate_suppression calm (mkMessage 5 1 (Some Pong))
           (with_pendingAcks {[5]} idle)).
  vm_compute. discriminate.
Defined.

(** A message with an even sequence number goes straight to decoding. *)
Lemma processResponse_not_content_bearing env msg m :
  Z.land (GetSeqNo msg) 1 = 0 ->
  processResponse env msg m = decodeAndDispatch env msg m.
Proof. intros H. rewrite processResponse_unfold, H. reflexivity. Qed.

(** *** Bad server salt *)

Lemma foldl_signal env waiters m :
  foldl (signal env) m waiters = emits (map (signalEvent env) waiters) m.
Proof.
  revert m. induction waiters as [|w waiters IH]; intros m; cbn [foldl map].
  - by rewrite emits_nil.
  - rewrite IH. unfold signal, signalEvent.
    destruct (receiving env w.2); by rewrite emit_emits, emits_emits.
Qed.

(** C3 (as amended).  On a [BadServerSalt] the server salt is replaced
    by the new one.  Unless the session is a memory session it is then
    saved; when saving fails the switch returns the wrapped error with
    the waiter map as it was and no waiter signalled.  Otherwise the
    waiter map is replaced by an empty one and every waiter of the
    snapshot is offered the session-configs-changed sentinel once: a
    waiter that takes it within the millisecond receives it, one that
    does not is passed over.  A sender that receives the sentinel sends
    its request again. *)
Theorem BadServerSalt_rotation (env : Env) (NewSalt : Z) (m : MTProto) :
  let salted := with_serverSalt NewSalt m in
  let saved :=
    if memorySession m then salted
    else emit (SaveSessionCalled NewSalt) salted in
  (memorySession m = false /\ SaveSession env salted <> Nil /\
   typeSwitch env (BadServerSalt NewSalt) m
   = Return saved (Errorf "saving session: %w" (SaveSession env salted))
   /\ responseChannels saved = responseChannels m
   /\ serverSalt saved = NewSalt)
  \/ ((memorySession m = true \/ SaveSession env salted = Nil) /\
      exists m',
        typeSwitch env (BadServerSalt NewSalt) m = FallsThrough m'
        /\ serverSalt m' = NewSalt
        /\ responseChannels m' = ∅
        /\ trace m' = trace saved
                      ++ map (signalEvent env) (map_to_list (responseChannels m))
        /\ (forall id ch, responseChannels m !! id = Some ch ->
              if receiving env ch
              then Received ch errorSessionConfigsChanged ∈ trace m'
              else SendTimedOut ch ∈ trace m')
        /\ forall floodHandler,
             makeRequest_received floodHandler errorSessionConfigsChanged = Resends).
Proof.
  cbv zeta. cbn [typeSwitch]. unfold onBadServerSalt.
  cbn [memorySession with_serverSalt serverSalt].
  destruct (memorySession m) eqn:Hmem; cbn [negb is_nil].
  - right. split; [by left|]. eexists. split; [reflexivity|].
    rewrite foldl_signal. cbn [serverSalt responseChannels trace emits with_responseChannels with_serverSalt].
    split; [done|]. split; [done|]. split; [done|]. split; [|done].
    intros id ch Hid. apply elem_of_map_to_list in Hid.
    pose proof (list_elem_of_fmap_2 (signalEvent env) _ _ Hid) as Hev.
    unfold signalEvent in Hev at 1. cbn [snd] in Hev.
    destruct (receiving env ch); apply elem_of_app; by right.
  - destruct (SaveSession env (with_serverSalt NewSalt m)) eqn:Hsave; cbn [negb is_nil];
      try (left; by repeat split).
    right. split; [by right|]. eexists. split; [reflexivity|].
    rewrite foldl_signal. cbn [serverSalt responseChannels trace emits emit with_responseChannels with_serverSalt].
    split; [done|]. split; [done|]. split; [done|]. split; [|done].
    intros id ch Hid. apply elem_of_map_to_list in Hid.
    pose proof (list_elem_of_fmap_2 (signalEvent env) _ _ Hid) as Hev.
    unfold signalEvent in Hev at 1. cbn [snd] in Hev.
    destruct (receiving env ch); apply elem_of_app; by right.
Qed.

(** C3 (as stated) fails.  A session that saves to disk has one request
    in flight, id 100 on channel 7, when a [BadServerSalt] with new salt
    [0xDEADBEEF] arrives.  On a full disk the salt is replaced but the
    switch returns the error of the save: the waiter map still holds
    the waiter and nothing was sent to it.  With the disk in order but
    the waiter not yet listening, the map is emptied and the offer times
    out: the waiter never receives the sentinel. *)
Lemma BadServerSalt_waiter_not_signalled :
  let m := with_responseChannels {[100 := 7%nat]} idle in
  (exists m',
     typeSwitch diskFull (BadServerSalt 0xDEADBEEF) m
     = Return m' (Errorf "saving session: %w" (ErrorString "no space left on device"))
     /\ serverSalt m' = 0xDEADBEEF
     /\ responseChannels m' = {[100 := 7%nat]}
     /\ trace m' = [SaveSessionCalled 0xDEADBEEF])
  /\ (exists m',
        typeSwitch nobodyListening (BadServerSalt 0xDEADBEEF) m = FallsThrough m'
        /\ responseChannels m' = ∅
        /\ trace m' = [SaveSessionCalled 0xDEADBEEF; SendTimedOut 7%nat]).
Proof.
  split; eexists; (split; [vm_compute; reflexivity|]); repeat split.
Qed.

(** *** The send path *)

Local Ltac solve_grows :=
  eexists; split;
  [cbn [trace emit emits with_tcpActive with_stopRoutines with_pendingAcks
        with_authKey404 with_serverSalt with_responseChannels with_timeOffset
        with_encrypted Ping];
   rewrite <- ?app_assoc; reflexivity
  |cbn [app]; repeat (apply List.Forall_cons; [cbn; auto|]); apply List.Forall_nil].

Lemma sends_refl data m : sends data m m.
Proof. repeat split. apply grows_refl. Qed.

Lemma sends_trans data m1 m2 m3 :
  sends data m1 m2 -> sends data m2 m3 -> sends data m1 m3.
Proof.
  intros (A1 & A2 & A3 & A4) (B1 & B2 & B3 & B4).
  split; [congruence|]. split; [congruence|]. split; [congruence|].
  eapply grows_trans; [exact A4|exact B4].
Qed.

Lemma CreateConnection_sends env withLog data m :
  sends data m (CreateConnection env withLog m).1.
Proof.
  unfold CreateConnection.
  destruct (is_nil (connect _ _)); cbn [negb fst];
    [|split; [done|]; split; [done|]; split; [done|]; solve_grows].
  cbn [encrypted emit with_tcpActive with_stopRoutines].
  destruct (encrypted m) eqn:He; cbn [negb fst];
    [split; [done|]; split; [done|]; split; [done|]; solve_grows|].
  destruct (is_nil (makeAuthKey _ _)); cbn [negb fst];
    (split; [done|]; split; [done|]; split; [done|]; solve_grows).
Qed.

Lemma CreateConnection_connects env withLog m :
  grows connection_event m (CreateConnection env withLog m).1.
Proof.
  unfold CreateConnection.
  destruct (is_nil (connect _ _)); cbn [negb fst]; [|solve_grows].
  cbn [encrypted emit with_tcpActive with_stopRoutines].
  destruct (encrypted m) eqn:He; cbn [negb fst]; [solve_grows|].
  destruct (is_nil (makeAuthKey _ _)); cbn [negb fst]; solve_grows.
Qed.

Lemma Reconnect_sends env WithLogs data m m' err :
  Reconnect env WithLogs m = Returns (m', err) -> sends data m m'.
Proof.
  intros Hre. destruct (Reconnect_returns _ _ _ _ _ Hre) as (Hs & _ & _).
  rewrite Reconnect_unfold in Hre by exact Hs. cbv zeta in Hre.
  injection Hre as <- _.
  set (stopped := with_tcpActive false (emit StopRoutinesCalled m)).
  apply (sends_trans data m stopped).
  { split; [done|]. split; [done|]. split; [done|]. solve_grows. }
  apply (sends_trans data stopped (CreateConnection env WithLogs stopped).1).
  { apply CreateConnection_sends. }
  split; [done|]. split; [done|]. split; [done|]. solve_grows.
Qed.

Lemma sends_packet data m m0 :
  sends data m m0 -> sends data m (emit (SendPacketCalled data) m0).
Proof.
  intros H. apply (sends_trans data m m0); [exact H|].
  split; [done|]. split; [done|]. split; [done|]. solve_grows.
Qed.

Lemma makeRequest_sends env attempts data :
  forall m, sends data m (run_state (makeRequest env attempts data m)).
Proof.
  induction attempts as [|attempt later IH]; intros m.
  - cbn [makeRequest run_state]. apply sends_packet.
    destruct (negb (tcpActive m)); [apply CreateConnection_sends|apply sends_refl].
  - cbn [makeRequest].
    set (m0 := if negb (tcpActive m) then (CreateConnection env false m).1 else m).
    assert (H0 : sends data m (emit (SendPacketCalled data) m0)).
    { apply sends_packet. subst m0. destruct (negb (tcpActive m));
        [apply CreateConnection_sends|apply sends_refl]. }
    destruct attempt as [text|response].
    + destruct (_ || _); [|exact H0].
      destruct (Reconnect env false (emit (SendPacketCalled data) m0))
        as [[m1 err]|msg] eqn:Hre; [|exact H0].
      pose proof (Reconnect_sends _ _ data _ _ _ Hre) as H1.
      destruct (is_nil err); cbn [negb].
      * eapply sends_trans; [exact H0|]. eapply sends_trans; [exact H1|]. apply IH.
      * eapply sends_trans; [exact H0|exact H1].
    + destruct (makeRequest_received _ _); cbn [run_state]; try exact H0.
      eapply sends_trans; [exact H0|apply IH].
Qed.

(** What the block that ends [processResponse] leaves when it sends:
    the trace has gained the one call of [MakeRequest] and what the
    send path did for it, and the pending ids are either all there or
    all gone. *)
Lemma flushAcks_reached_effect env m :
  (acksThreshold <= size (pendingAcks m))%nat ->
  let request := MsgsAck (elements (pendingAcks m)) in
  let m' := run_state (flushAcks env m) in
  memorySession m' = memorySession m
  /\ timeOffset m' = timeOffset m
  /\ (pendingAcks m' = pendingAcks m \/ pendingAcks m' = ∅)
  /\ exists rest,
       trace m' = trace m ++ MakeRequestCalled request :: rest
       /\ Forall (fun e => e = SendPacketCalled request \/ connection_event e) rest.
Proof.
  intros Hsize. cbv zeta. unfold flushAcks. case_decide; [|lia]. cbv zeta.
  unfold MakeRequest.
  set (request := MsgsAck (elements (pendingAcks m))).
  set (called := emit (MakeRequestCalled request) m).
  pose proof (makeRequest_sends env (sendPacket env called request) request called)
    as (H1 & H2 & H3 & rest & Ht & HF).
  assert (Hrest : trace (run_state (makeRequest env (sendPacket env called request)
                                      request called))
                  = trace m ++ MakeRequestCalled request :: rest).
  { rewrite Ht. subst called. cbn [trace emit]. by rewrite <- app_assoc. }
  destruct (makeRequest env (sendPacket env called request) request called)
    as [sent [response err]|sent msg|sent]; cbn [run_state] in *.
  - destruct (is_nil err); cbn [negb run_state];
      (split; [done|]; split; [done|]); (split; [|by exists rest]).
    + by right.
    + by left.
  - split; [done|]. split; [done|]. split; [by left|by exists rest].
  - split; [done|]. split; [done|]. split; [by left|by exists rest].
Qed.

Lemma flushAcks_below env m :
  (size (pendingAcks m) < acksThreshold)%nat -> flushAcks env m = Done m Nil.
Proof. intros H. unfold flushAcks. case_decide; [lia|reflexivity]. Qed.

(** The handlers change nothing in the session but its trace. *)
Lemma offer_effect handlers o :
  forall i m,
    let m' := offer handlers i o m in
    tcpActive m' = tcpActive m /\ stopRoutines m' = stopRoutines m
    /\ encrypted m' = encrypted m /\ memorySession m' = memorySession m
    /\ timeOffset m' = timeOffset m /\ pendingAcks m' = pendingAcks m
    /\ authKey404 m' = authKey404 m
    /\ serverRequestHandlers m' = serverRequestHandlers m
    /\ grows (fun e => match e with HandlerCalled _ _ _ => True | _ => False end) m m'.
Proof.
  induction handlers as [|f rest IH]; intros i m; cbn [offer].
  - repeat split. apply grows_refl.
  - destruct (f o).
    + repeat split. solve_grows.
    + destruct (IH (S i) (emit (HandlerCalled i o false) m))
        as (H1 & H2 & H3 & H4 & H5 & H6 & H7 & H8 & H9).
      repeat split; try done.
      eapply grows_trans; [|exact H9]. solve_grows.
Qed.

(** *** What a dispatch leaves alone *)

Local Ltac solve_link := repeat split; cbn; congruence.

Lemma step_intro m m' es :
  same_link m m' -> timeOffset m' = timeOffset m ->
  trace m' = trace m ++ es ->
  (memorySession m = true -> Forall not_a_save es) -> step_ok m m'.
Proof.
  intros Hl Ho Ht Hs. split; [apply Hl|]. exists es.
  split; [exact Ht|]. split; [exact Hs|]. split; [by intros _|by intros _].
Qed.

Lemma step_quiet m m' :
  same_link m m' -> timeOffset m' = timeOffset m -> trace m' = trace m ->
  step_ok m m'.
Proof.
  intros Hl Ho Ht.
  apply (step_intro m m' []); [done|done|by rewrite app_nil_r|by constructor].
Qed.

Lemma step_refl m : step_ok m m.
Proof. by apply step_quiet. Qed.

Lemma same_link_trans m1 m2 m3 :
  same_link m1 m2 -> same_link m2 m3 -> same_link m1 m3.
Proof.
  intros (A1 & A2 & A3 & A4 & A5 & A6) (B1 & B2 & B3 & B4 & B5 & B6).
  repeat split; congruence.
Qed.

Lemma step_trans m1 m2 m3 : step_ok m1 m2 -> step_ok m2 m3 -> step_ok m1 m3.
Proof.
  intros [M1 (n1 & T1 & S1 & O1 & L1)] [M2 (n2 & T2 & S2 & O2 & L2)].
  split; [congruence|].
  exists (n1 ++ n2). split; [by rewrite T2, T1, app_assoc|]. split; [|split].
  - intros Hmem. apply Forall_app. split; [by apply S1|]. apply S2. congruence.
  - intros Hq. rewrite O2, O1; [done| |]; intros Hin; apply Hq, elem_of_app; auto.
  - intros Hown. apply Forall_app in Hown as [H1 H2].
    apply (same_link_trans m1 m2 m3); auto.
Qed.

(** [offsetTime] asks the time source, logs, and at most moves the clock
    offset. *)
Lemma offsetTime_step env m : step_ok m (offsetTime env m).
Proof.
  unfold offsetTime. destruct (timeSource env m) as [local reply].
  split; [by destruct reply as [|err|t]; cbn [offsetTimeWith]; try destruct (_ || _)|].
  destruct reply as [|err|t]; cbn [offsetTimeWith]; [| |destruct (_ || _)].
  - exists [TimeSourceQueried]. split; [done|]. split; [by repeat constructor|].
    split; [|intros _; solve_link]. intros H. exfalso. apply H. by left.
  - eexists [TimeSourceQueried; _]. split; [cbn; by rewrite <- app_assoc|].
    split; [by repeat constructor|].
    split; [|intros _; solve_link]. intros H. exfalso. apply H. by left.
  - exists [TimeSourceQueried]. split; [done|]. split; [by repeat constructor|].
    split; [|intros _; solve_link]. intros H. exfalso. apply H. by left.
  - eexists [TimeSourceQueried; _]. split; [cbn; by rewrite <- app_assoc|].
    split; [by repeat constructor|].
    split; [|intros _; solve_link]. intros H. exfalso. apply H. by left.
Qed.

Lemma flushAcks_step env m : step_ok m (run_state (flushAcks env m)).
Proof.
  destruct (decide (acksThreshold <= size (pendingAcks m))%nat) as [Hge|Hlt].
  - destruct (flushAcks_reached_effect env m Hge) as (H1 & H2 & _ & rest & Ht & HF).
    split; [exact H1|]. eexists. split; [exact Ht|]. split; [|split].
    + intros _. constructor; [done|]. eapply Forall_impl; [exact HF|].
      intros e [->|He]; [done|]. by destruct e.
    + intros _. exact H2.
    + intros Hown. by apply Forall_cons in Hown as [[] _].
  - rewrite flushAcks_below by lia. apply step_refl.
Qed.

Lemma signalEvents_not_saves env waiters :
  Forall not_a_save (map (signalEvent env) waiters).
Proof.
  induction waiters as [|w ws IH]; constructor; [|done].
  unfold signalEvent. by destruct (receiving env w.2).
Qed.

Lemma onBadServerSalt_step env NewSalt m :
  step_ok m (flow_state (onBadServerSalt env NewSalt m)).
Proof.
  unfold onBadServerSalt. cbn [memorySession with_serverSalt].
  destruct (memorySession m) eqn:Hmem; cbn [negb is_nil flow_state].
  - rewrite foldl_signal.
    apply (step_intro _ _ (map (signalEvent env) (map_to_list (responseChannels m))));
      [solve_link|done|done|]. intros _. apply signalEvents_not_saves.
  - destruct (is_nil (SaveSession env _)); cbn [negb flow_state].
    + rewrite foldl_signal.
      apply (step_intro _ _ (SaveSessionCalled NewSalt
                             :: map (signalEvent env) (map_to_list (responseChannels m))));
        [solve_link|done| |by rewrite Hmem].
      cbn [trace emits emit with_responseChannels with_serverSalt responseChannels].
      by rewrite <- app_assoc.
    + apply (step_intro _ _ [SaveSessionCalled NewSalt]);
        [solve_link|done|done|by rewrite Hmem].
Qed.

Lemma onNewSessionCreated_step ServerSalt m :
  step_ok m (flow_state (onNewSessionCreated ServerSalt m)).
Proof.
  unfold onNewSessionCreated. cbn [memorySession with_serverSalt flow_state].
  destruct (memorySession m) eqn:Hmem; cbn [negb].
  - apply step_quiet; [solve_link|done|done].
  - apply (step_intro _ _ [SaveSessionCalled ServerSalt]);
      [solve_link|done|done|by rewrite Hmem].
Qed.

Lemma onRpcResult_step ReqMsgID Obj m :
  step_ok m (flow_state (onRpcResult ReqMsgID Obj m)).
Proof.
  unfold onRpcResult, writeRPCResponse.
  destruct (responseChannels m !! ReqMsgID) as [ch|]; cbn [flow_state];
    [|apply step_refl].
  eapply step_intro; [solve_link|done|reflexivity|]. intros; by repeat constructor.
Qed.

Lemma onOther_step o m : step_ok m (flow_state (onOther o m)).
Proof.
  unfold onOther. cbn [flow_state].
  destruct (offer_effect (serverRequestHandlers m) o 0%nat m)
    as (H1 & H2 & H3 & H4 & H5 & H6 & H7 & H8 & new & Ht & HF).
  apply (step_intro _ _ new); [by repeat split|done|done|].
  intros _. eapply Forall_impl; [exact HF|]. by intros [].
Qed.

(** Every dispatch, however nested and however it ends, is a step. *)
Lemma processResponse_step env :
  forall msg m, step_ok m (run_state (processResponse env msg m))
with typeSwitch_step env :
  forall data m, step_ok m (flow_state (typeSwitch env data m)).
Proof.
  - intros [msgID seqNo body] m. rewrite processResponse_unfold.
    cbn [GetSeqNo GetMsgID]. cbv zeta.
    destruct (_ && _); [apply step_refl|].
    set (m1 := if negb _ then _ else m).
    assert (H1 : step_ok m m1).
    { subst m1. destruct (negb _); [by apply step_quiet|apply step_refl]. }
    eapply step_trans; [exact H1|].
    unfold decodeAndDispatch. cbn [GetMsg].
    destruct body as [data|]; [|apply step_refl].
    pose proof (typeSwitch_step env data m1) as H2.
    destruct (typeSwitch env data m1) as [m2|m2 err|m2 msg|m2];
      cbn [flow_state run_state] in *; try exact H2.
    eapply step_trans; [exact H2|]. apply flushAcks_step.
  - intros data m. destruct data; cbn [typeSwitch];
      try (apply step_refl); try (by apply step_quiet);
      try (apply onOther_step).
    + revert m. induction items as [|v items IH]; intros m; [apply step_refl|].
      pose proof (processResponse_step env v m) as Hv.
      destruct (processResponse env v m) as [m' err|m' msg|m'];
        cbn [run_state] in Hv; try exact Hv.
      destruct (is_nil err); cbn [negb flow_state]; [|exact Hv].
      eapply step_trans; [exact Hv|]. apply IH.
    + apply onBadServerSalt_step.
    + apply onNewSessionCreated_step.
    + unfold onBadMsgNotification. cbn [flow_state].
      destruct (_ || _); [apply offsetTime_step|apply step_refl].
    + apply onRpcResult_step.
    + apply typeSwitch_step.
Qed.

(** *** Clock-skew correction *)

Lemma with_timeOffset_same m : with_timeOffset (timeOffset m) m = m.
Proof. by destruct m. Qed.

(** The rule of [offsetTime], for a local clock not before 1970 and an
    answer that is an [int64]. *)
Lemma offsetTime_rule env m local reply :
  timeSource env m = (local, reply) ->
  0 <= local ->
  (forall t, reply = Unixtime t -> t <= Int64.max_int) ->
  offsetTime env m
  = with_timeOffset
      (match reply with
       | Unixtime t => if 60 <=? t - local then t - local else timeOffset m
       | _ => timeOffset m
       end)
      (emits (TimeSourceQueried :: offsetTime_log local reply) m).
Proof.
  intros Hsrc Hlocal Hreply. unfold offsetTime. rewrite Hsrc.
  destruct reply as [|err|t]; cbn [offsetTimeWith offsetTime_log].
  - by destruct m.
  - unfold with_timeOffset, emit, emits. cbn. by rewrite <- app_assoc.
  - specialize (Hreply t eq_refl).
    destruct (Z.leb_spec t local) as [Hle|Hgt]; cbn [orb].
    + destruct (Z.leb_spec 60 (t - local)); [lia|]. by destruct m.
    + unfold Int64.sub.
      rewrite Int64Facts.wrap64_id
        by (unfold Int64.in_range, Int64.min_int, Int64.max_int in *; lia).
      destruct (Z.ltb_spec (Z.abs (t - local)) 60), (Z.leb_spec 60 (t - local));
        try lia; [by destruct m|].
      unfold with_timeOffset, emit, emits. cbn. by rewrite <- app_assoc.
Qed.

(** Generating an id with an offset is generating it without one on a
    clock that is ahead by the offset. *)
Lemma GenerateMessageId_advance clock prevID offset :
  Utils.GenerateMessageId clock prevID offset
  = Utils.GenerateMessageId (map (advance offset) clock) prevID 0.
Proof.
  induction clock as [|now later IH]; [reflexivity|].
  cbn [Utils.GenerateMessageId map].
  change (advance offset now)
    with (Int64.add now (Int64.mul offset Utils.billion)).
  rewrite <- (UtilsFacts.newID_offset now offset). by rewrite IH.
Qed.

(** [loadAuth] neither asks the time source nor moves the clock
    offset. *)
Lemma loadAuth_effect env stringSession sess m :
  timeOffset (loadAuth env stringSession sess m).1 = timeOffset m
  /\ exists rest,
       trace (loadAuth env stringSession sess m).1 = trace m ++ rest
       /\ TimeSourceQueried ∉ rest.
Proof.
  unfold loadAuth, ImportAuth, _loadSession.
  assert (Hnone : forall m0 : MTProto,
            timeOffset m0 = timeOffset m -> trace m0 = trace m ->
            timeOffset m0 = timeOffset m
            /\ exists rest, trace m0 = trace m ++ rest /\ TimeSourceQueried ∉ rest).
  { intros m0 Ho Ht. split; [done|]. exists []. rewrite app_nil_r.
    split; [done|apply not_elem_of_nil]. }
  destruct (negb (String.eqb stringSession "")).
  - destruct (is_nil (Decode env stringSession)) eqn:Hd; cbn [negb].
    + destruct (negb (memorySession m)).
      * assert (Hsave : forall (err : error) (b : bool),
                  let m0 := emit (SaveSessionCalled (serverSalt m)) m in
                  timeOffset m0 = timeOffset m
                  /\ exists rest, trace m0 = trace m ++ rest
                                  /\ TimeSourceQueried ∉ rest).
        { intros _ _. cbv zeta. split; [done|]. eexists [_]. split; [done|].
          by intros [[=]|?%elem_of_nil]%elem_of_cons. }
        destruct (is_nil (SaveSession env m)); cbn [negb is_nil fst];
          by apply (Hsave Nil true).
      * cbn [negb is_nil fst]. by apply Hnone.
    + rewrite Hd. cbn [negb fst]. by apply Hnone.
  - destruct sess; cbn [fst]; by apply Hnone.
Qed.

(** C6 (as amended).  One query of the time source by a session [m],
    the local clock reading [local] (not before 1970) and the answer
    [reply] (an [int64] when it is a time).  [time_offset] becomes
    [server_time - local_time] exactly when the source answers with a
    time that is at least 60 seconds ahead of the local clock; when the
    server time is behind the local clock, level with it or less than 60
    seconds ahead, and when the source cannot be reached or its answer
    cannot be decoded, [time_offset] keeps its value.  Nothing else in
    the session changes and nothing is returned or raised; an
    unreachable source leaves no trace but the query, an answer that
    cannot be decoded is logged as an error, a recorded offset as
    information.  The query is made on a [BadMsgNotification] exactly
    when its code is 16 or 17, and once by [NewMTProto], on the struct
    it has just built, unless loading the stored session has failed
    before; the session it returns carries the offset of that query.
    Every id generated afterwards is the id of a clock ahead by the
    stored offset, and a dispatch that neither asks the time source nor
    makes a request nor calls a handler leaves the offset alone. *)
Theorem offsetTime_forward_skew_only
  (env : Env) (m : MTProto) (local : Z) (reply : TimeReply) :
  timeSource env m = (local, reply) ->
  0 <= local ->
  (forall t, reply = Unixtime t -> t <= Int64.max_int) ->
  let m' := offsetTime env m in
  timeOffset m'
  = match reply with
    | Unixtime t => if 60 <=? t - local then t - local else timeOffset m
    | _ => timeOffset m
    end
  /\ m' = with_timeOffset (timeOffset m')
            (emits (TimeSourceQueried :: offsetTime_log local reply) m)
  /\ (forall Code,
        typeSwitch env (BadMsgNotification Code) m
        = Return (if (Code =? 16) || (Code =? 17) then m' else m)
                 (BadMsgError Code))
  /\ (forall c, m = blank c ->
        match NewMTProto env c with
        | LoadFailed _ =>
            (Load env c).2 <> Nil /\ notFound env (Load env c).2 = false
        | AuthFailed m1 _ =>
            timeOffset m1 = timeOffset m'
            /\ exists rest, trace m1 = trace m' ++ rest /\ TimeSourceQueried ∉ rest
        | Ready m1 =>
            timeOffset m1 = timeOffset m'
            /\ exists rest, trace m1 = trace m' ++ rest /\ TimeSourceQueried ∉ rest
        end)
  /\ (forall later clock prevID,
        timeOffset later = timeOffset m' ->
        nextMsgID clock prevID later
        = Utils.GenerateMessageId (map (advance (timeOffset m')) clock) prevID 0)
  /\ (forall msg later new,
        trace (run_state (processResponse env msg later)) = trace later ++ new ->
        TimeSourceQueried ∉ new ->
        Forall own_event new ->
        timeOffset (run_state (processResponse env msg later)) = timeOffset later).
Proof.
  intros Hsrc Hlocal Hreply. cbv zeta.
  rewrite (offsetTime_rule env m local reply Hsrc Hlocal Hreply).
  set (offset := match reply with
                 | Unixtime t => if 60 <=? t - local then t - local else timeOffset m
                 | _ => timeOffset m
                 end).
  set (m' := with_timeOffset offset _).
  split; [reflexivity|]. split; [reflexivity|]. split; [|split; [|split]].
  - intros Code. cbn [typeSwitch]. unfold onBadMsgNotification.
    by rewrite (offsetTime_rule env m local reply Hsrc Hlocal Hreply).
  - intros c ->. unfold NewMTProto.
    destruct (Load env c) as [loaded err] eqn:HL. cbn [snd].
    destruct (is_nil err) eqn:Hnil; cbn [negb andb].
    + rewrite (offsetTime_rule env (blank c) local reply Hsrc Hlocal Hreply).
      fold offset. fold m'.
      set (m0 := if _ || _ then with_encrypted true m' else m').
      pose proof (loadAuth_effect env (StringSession c) loaded m0) as (Ho & rest & Ht & Hq).
      assert (H0 : timeOffset m0 = timeOffset m' /\ trace m0 = trace m')
        by (subst m0; by destruct (_ || _)).
      destruct H0 as [Ho0 Ht0].
      destruct (loadAuth env (StringSession c) loaded m0) as [m1 e1].
      cbn [fst] in *. destruct (is_nil e1); cbn [negb];
        (split; [congruence|]; exists rest; split; [congruence|exact Hq]).
    + destruct (notFound env err) eqn:Hnf; cbn [negb].
      * rewrite (offsetTime_rule env (blank c) local reply Hsrc Hlocal Hreply).
        fold offset. fold m'.
        set (m0 := if _ || _ then with_encrypted true m' else m').
        pose proof (loadAuth_effect env (StringSession c) loaded m0)
          as (Ho & rest & Ht & Hq).
        assert (H0 : timeOffset m0 = timeOffset m' /\ trace m0 = trace m')
          by (subst m0; by destruct (_ || _)).
        destruct H0 as [Ho0 Ht0].
        destruct (loadAuth env (StringSession c) loaded m0) as [m1 e1].
        cbn [fst] in *. destruct (is_nil e1); cbn [negb];
          (split; [congruence|]; exists rest; split; [congruence|exact Hq]).
      * destruct (is_nil (openDir env c)); cbn [negb];
          (split; [by destruct err|done]).
  - intros later clock prevID Hsame. unfold nextMsgID. rewrite Hsame.
    apply GenerateMessageId_advance.
  - intros msg later new Ht Hq _.
    destruct (processResponse_step env msg later) as [_ (new' & Ht' & _ & Ho & _)].
    apply Ho. rewrite Ht in Ht'. by apply app_inv_head in Ht' as <-.
Qed.

Lemma offsetTime_forward_skew_only_witness :
  let env := withTime 1700000000 (Unixtime 1700000100) in
  let m := blank (mkConfig false "") in
  timeOffset (offsetTime env m)
  = (if 60 <=? 1700000100 - 1700000000 then 1700000100 - 1700000000
     else timeOffset m)
  /\ offsetTime env m
     = with_timeOffset (timeOffset (offsetTime env m))
         (emits (TimeSourceQueried
                 :: offsetTime_log 1700000000 (Unixtime 1700000100)) m)
  /\ match NewMTProto env (mkConfig false "") with
     | Ready m1 => timeOffset m1 = timeOffset (offsetTime env m)
     | _ => False
     end.
Proof.
  cbv zeta.
  assert (Hreply : forall t, Unixtime 1700000100 = Unixtime t -> t <= Int64.max_int).
  { intros t [= <-]. vm_compute. discriminate. }
  assert (Hlocal : 0 <= 1700000000) by lia.
  destruct (offsetTime_forward_skew_only
              (withTime 1700000000 (Unixtime 1700000100))
              (blank (mkConfig false "")) 1700000000 (Unixtime 1700000100)
              eq_refl Hlocal Hreply) as (H1 & H2 & _ & H4 & _).
  split; [exact H1|]. split; [exact H2|].
  specialize (H4 (mkConfig false "") eq_refl).
  destruct (NewMTProto (withTime 1700000000 (Unixtime 1700000100))
              (mkConfig false "")) as [err|m1 err|m1] eqn:Hnew.
  - discriminate Hnew.
  - discriminate Hnew.
  - exact (proj1 H4).
Defined.

(** C6 (as stated) fails.  With the server clock 100 seconds behind the
    local one the delta exceeds 60 seconds and [time_offset] is left at
    0; with the server clock exactly 60 seconds ahead, a delta that does
    not exceed 60 seconds, [time_offset] is set to 60; and an answer
    that cannot be decoded is not passed over in silence: the error is
    logged. *)
Lemma offsetTime_backward_skew_ignored :
  timeOffset idle = 0
  /\ timeOffset (offsetTime (withTime 1700000000 (Unixtime 1699999900)) idle) = 0
  /\ timeOffset (offsetTime (withTime 1700000000 (Unixtime 1700000060)) idle) = 60
  /\ trace (offsetTime
              (withTime 1700000000
                 (Undecodable (ErrorString "unexpected end of JSON input"))) idle)
     = [TimeSourceQueried;
        LoggerError (Errorf "off-setting time: %w"
                       (ErrorString "unexpected end of JSON input"))].
Proof. repeat split. Qed.

(** *** Acknowledgements *)
















(** The tenth content-bearing message on a healthy connection: one
    [msgs_ack] with the ten ids, sent in one packet, and nothing left
    pending. *)
Example processResponse_tenth_message :
  match processResponse calm (mkMessage 10 1 (Some Pong)) ninePending with
  | Done m' err =>
      err = Nil
      /\ pendingAcks m' = ∅
      /\ exists ids,
           trace m' = [MakeRequestCalled (MsgsAck ids); SendPacketCalled (MsgsAck ids)]
           /\ ids ≡ₚ [1; 2; 3; 4; 5; 6; 7; 8; 9; 10]
  | _ => False
  end.
Proof.
  vm_compute. split; [reflexivity|]. split; [reflexivity|].
  eexists. split; [reflexivity|].
  apply (bool_decide_unpack _). vm_compute. reflexivity.
Qed.


End GogramFacts.

Module TransferFacts.
Import Media Transfer.

(** X1.  The uploader's partitioner, for every [int32] number of parts
    [N >= 0] and worker count [W >= 1]: it returns, and uses [W] workers
    shrunk to [N] (or a single one when there is no part); the ranges
    start at [0], each starts where the previous one ended, the last
    ends at [N], each holds [N / W'] parts or one more, and every part
    below [N] lies in exactly one range. *)
Theorem Uploader_partition_total (N W : Z) :
  0 <= N <= Int32.max_int -> 1 <= W <= Int32.max_int ->
  exists W' ranges,
    Uploader.dividePartsToWorkers N W = Some (W', ranges)
    /\ W' = (if N =? 0 then 1 else Z.min W N)
    /\ length ranges = Z.to_nat W'
    /\ (forall (i : nat) lo hi, ranges !! i = Some (lo, hi) ->
          (i = 0%nat -> lo = 0)
          /\ 0 <= lo <= hi /\ hi <= N
          /\ N / W' <= hi - lo <= N / W' + 1
          /\ (ranges !! S i = None -> hi = N)
          /\ (forall lo' hi', ranges !! S i = Some (lo', hi') -> lo' = hi))
    /\ (forall p, 0 <= p < N ->
          exists i lo hi, ranges !! i = Some (lo, hi) /\ lo <= p < hi
            /\ forall j lo' hi', ranges !! j = Some (lo', hi') ->
                 lo' <= p < hi' -> j = i).
Proof.
  intros HN HW. rewrite MediaFacts.Uploader_dividePartsToWorkers_spec by done.
  cbv zeta. set (W' := if N =? 0 then 1 else Z.min W N).
  assert (HW' : 0 < W') by (subst W'; destruct (Z.eqb_spec N 0); lia).
  exists W', (spec_ranges N W').
  destruct (MediaFacts.spec_ranges_partition N W' ltac:(lia) HW') as (Hlen & Hshape & Hcover).
  split; [done|]. split; [done|]. split; [done|]. split; [|exact Hcover].
  intros i lo hi Hi. destruct (Hshape i lo hi Hi) as (Hlo & Hhi & Hlast & Hnext).
  assert (Hi' : (i < Z.to_nat W')%nat).
  { apply lookup_lt_Some in Hi. by rewrite Hlen in Hi. }
  assert (Hlo' : lo = spec_lo N W' (Z.of_nat i)).
  { destruct i; [|done]. rewrite Hlo. symmetry.
    apply MediaFacts.spec_lo_0; lia. }
  pose proof (MediaFacts.spec_lo_mono N W' 0 (Z.of_nat i) ltac:(lia) HW' ltac:(lia)) as H0.
  rewrite MediaFacts.spec_lo_0 in H0 by lia.
  pose proof (MediaFacts.spec_lo_mono N W' (Z.of_nat i + 1) W' ltac:(lia) HW' ltac:(lia)) as H1.
  rewrite MediaFacts.spec_lo_last in H1 by lia.
  pose proof (MediaFacts.spec_lo_step N W' (Z.of_nat i) ltac:(lia) HW' ltac:(lia)) as Hs.
  pose proof (Z.div_pos N W' ltac:(lia) HW').
  split; [intros ->; by rewrite Hlo|].
  assert (hi = spec_lo N W' (Z.of_nat i + 1)) as Hhi'.
  { rewrite Hs, Hhi, Hlo'. lia. }
  destruct (Z.of_nat i <? N mod W'); repeat split; try done; lia.
Qed.

Lemma Uploader_partition_total_witness :
  exists W' ranges,
    Uploader.dividePartsToWorkers 10 4 = Some (W', ranges)
    /\ W' = (if 10 =? 0 then 1 else Z.min 4 10)
    /\ length ranges = Z.to_nat W'
    /\ (forall (i : nat) lo hi, ranges !! i = Some (lo, hi) ->
          (i = 0%nat -> lo = 0)
          /\ 0 <= lo <= hi /\ hi <= 10
          /\ 10 / W' <= hi - lo <= 10 / W' + 1
          /\ (ranges !! S i = None -> hi = 10)
          /\ (forall lo' hi', ranges !! S i = Some (lo', hi') -> lo' = hi))
    /\ (forall p, 0 <= p < 10 ->
          exists i lo hi, ranges !! i = Some (lo, hi) /\ lo <= p < hi
            /\ forall j lo' hi', ranges !! j = Some (lo', hi') ->
                 lo' <= p < hi' -> j = i).
Proof.
  apply (Uploader_partition_total 10 4); vm_compute; split; discriminate.
Defined.

Lemma Downloader_Init_bounds d :
  dParts d = 0 -> 0 <= dSize d <= Int32.max_int -> 0 <= dWorker d ->
  dParts (Downloader_Init d) = Z.max 1 (dSize d / DEFAULT_PARTS)
  /\ 1 <= dParts (Downloader_Init d) <= 4095
  /\ 1 <= dWorker (Downloader_Init d) <= dParts (Downloader_Init d).
Proof.
  intros HP HS HW. unfold Downloader_Init. rewrite HP. cbn [dParts dWorker].
  change (0 =? 0) with true. cbv iota.
  assert (Hmax : Int32.max_int = 2 ^ 31 - 1) by reflexivity.
  assert (Hq : Int32.quot (dSize d) DEFAULT_PARTS = dSize d / DEFAULT_PARTS).
  { unfold Int32.quot, DEFAULT_PARTS. rewrite Z.quot_div_nonneg by lia.
    apply Int32Facts.wrap32_id. unfold Int32.in_range, Int32.min_int.
    pose proof (Z.div_pos (dSize d) (512 * 1024) ltac:(lia) ltac:(lia)).
    assert (dSize d / (512 * 1024) <= dSize d) by (apply Z.div_le_upper_bound; lia).
    lia. }
  rewrite Hq.
  assert (Hb : 0 <= dSize d / DEFAULT_PARTS <= 4095).
  { unfold DEFAULT_PARTS. split; [apply Z.div_pos; lia|].
    apply Z.lt_succ_r, Z.div_lt_upper_bound; lia. }
  unfold DEFAULT_WORKERS.
  destruct (Z.eqb_spec (dSize d / DEFAULT_PARTS) 0) as [H0|H0];
    destruct (Z.eqb_spec (dWorker d) 0) as [Hw|Hw];
    repeat match goal with |- context [?a <? ?b] => destruct (Z.ltb_spec a b) end;
    lia.
Qed.

(** X2.  On the download path the partitioner cannot divide by zero.
    [Init] on a downloader whose part count is unset, for a file size
    that is a non-negative [int32] and a non-negative worker count,
    leaves at least one part and between one and [Parts] workers, and
    [DividePartsToWorkers] then returns one range per worker; the ranges
    are those of the even split and every part lies in exactly one. *)
Theorem Downloader_Init_then_divide (d : Downloader) :
  dParts d = 0 -> 0 <= dSize d <= Int32.max_int -> 0 <= dWorker d ->
  let d' := Downloader_Init d in
  1 <= dParts d'
  /\ 1 <= dWorker d' <= dParts d'
  /\ exists ranges,
       Downloader.DividePartsToWorkers (dParts d') (dWorker d')
       = Some (dWorker d', ranges)
       /\ ranges = spec_ranges (dParts d') (dWorker d')
       /\ length ranges = Z.to_nat (dWorker d')
       /\ forall p, 0 <= p < dParts d' ->
            exists i lo hi, ranges !! i = Some (lo, hi) /\ lo <= p < hi
              /\ forall j lo' hi', ranges !! j = Some (lo', hi') ->
                   lo' <= p < hi' -> j = i.
Proof.
  intros HP HS HW. cbv zeta.
  destruct (Downloader_Init_bounds d HP HS HW) as (_ & Hparts & Hworker).
  assert (Hmax : Int32.max_int = 2 ^ 31 - 1) by reflexivity.
  split; [lia|]. split; [lia|].
  exists (spec_ranges (dParts (Downloader_Init d)) (dWorker (Downloader_Init d))).
  rewrite MediaFacts.Downloader_DividePartsToWorkers_spec by lia.
  replace (Z.min _ _) with (dWorker (Downloader_Init d)) by lia.
  split; [done|]. split; [done|].
  destruct (MediaFacts.spec_ranges_partition (dParts (Downloader_Init d))
              (dWorker (Downloader_Init d)) ltac:(lia) ltac:(lia)) as (Hlen & _ & Hcover).
  by split.
Qed.

Lemma Downloader_Init_then_divide_witness :
  let d' := Downloader_Init (mkDownloader 0 0 0 3000000) in
  1 <= dParts d'
  /\ 1 <= dWorker d' <= dParts d'
  /\ exists ranges,
       Downloader.DividePartsToWorkers (dParts d') (dWorker d')
       = Some (dWorker d', ranges)
       /\ ranges = spec_ranges (dParts d') (dWorker d')
       /\ length ranges = Z.to_nat (dWorker d')
       /\ forall p, 0 <= p < dParts d' ->
            exists i lo hi, ranges !! i = Some (lo, hi) /\ lo <= p < hi
              /\ forall j lo' hi', ranges !! j = Some (lo', hi') ->
                   lo' <= p < hi' -> j = i.
Proof.
  apply (Downloader_Init_then_divide (mkDownloader 0 0 0 3000000)).
  - reflexivity.
  - vm_compute. split; discriminate.
  - vm_compute. discriminate.
Defined.

(** X3.  With the default chunk size, the offsets of a download are
    exact and stay inside the file.  After [Init] on a downloader with
    part count and chunk size unset and a non-negative [int32] file
    size, [calcOffset] of every part below [Parts] is
    [part * 524288] without [int32] wrap-around; a file shorter than one
    chunk is one part; for a longer file every part ends at or before
    the end of the file, and what lies beyond the last part is shorter
    than one chunk. *)
Theorem Downloader_offsets_exact (d : Downloader) (part : Z) :
  dParts d = 0 -> dChunkSize d = 0 -> 0 <= dSize d <= Int32.max_int ->
  let d' := Downloader_Init d in
  0 <= part < dParts d' ->
  dChunkSize d' = DEFAULT_PARTS
  /\ calcOffset d' part = part * DEFAULT_PARTS
  /\ (dSize d < DEFAULT_PARTS -> dParts d' = 1)
  /\ (DEFAULT_PARTS <= dSize d ->
      calcOffset d' part + dChunkSize d' <= dSize d
      /\ dSize d - dParts d' * dChunkSize d' < dChunkSize d').
Proof.
  intros HP HC HS. cbv zeta. intros Hpart.
  assert (Hparts : dParts (Downloader_Init d) = Z.max 1 (dSize d / DEFAULT_PARTS)
                   /\ 1 <= dParts (Downloader_Init d) <= 4095).
  { unfold Downloader_Init. rewrite HP. cbn [dParts]. change (0 =? 0) with true. cbv iota.
    assert (Hmax : Int32.max_int = 2 ^ 31 - 1) by reflexivity.
    assert (Hq : Int32.quot (dSize d) DEFAULT_PARTS = dSize d / DEFAULT_PARTS).
    { unfold Int32.quot, DEFAULT_PARTS. rewrite Z.quot_div_nonneg by lia.
      apply Int32Facts.wrap32_id. unfold Int32.in_range, Int32.min_int.
      pose proof (Z.div_pos (dSize d) (512 * 1024) ltac:(lia) ltac:(lia)).
      assert (dSize d / (512 * 1024) <= dSize d) by (apply Z.div_le_upper_bound; lia).
      lia. }
    rewrite Hq.
    assert (Hb : 0 <= dSize d / DEFAULT_PARTS <= 4095).
    { unfold DEFAULT_PARTS. split; [apply Z.div_pos; lia|].
      apply Z.lt_succ_r, Z.div_lt_upper_bound; lia. }
    destruct (Z.eqb_spec (dSize d / DEFAULT_PARTS) 0); lia. }
  destruct Hparts as [Hparts Hbound].
  assert (Hchunk : dChunkSize (Downloader_Init d) = DEFAULT_PARTS).
  { unfold Downloader_Init. cbn [dChunkSize]. by rewrite HC. }
  pose proof (Z.div_mod (dSize d) DEFAULT_PARTS ltac:(unfold DEFAULT_PARTS; lia)) as Hdm.
  pose proof (Z.mod_pos_bound (dSize d) DEFAULT_PARTS ltac:(unfold DEFAULT_PARTS; lia)) as Hm.
  split; [exact Hchunk|]. split.
  - unfold calcOffset. rewrite Hchunk. apply Int32Facts.wrap32_id.
    unfold Int32.in_range, Int32.min_int, Int32.max_int, DEFAULT_PARTS. lia.
  - split.
    + intros Hsmall. rewrite Hparts, Z.div_small by lia. reflexivity.
    + intros Hlarge.
      assert (1 <= dSize d / DEFAULT_PARTS).
      { apply Z.div_le_lower_bound; unfold DEFAULT_PARTS in *; lia. }
      unfold calcOffset. rewrite Hchunk.
      rewrite Int32Facts.wrap32_id
        by (unfold Int32.in_range, Int32.min_int, Int32.max_int, DEFAULT_PARTS; lia).
      rewrite Hparts in *. unfold DEFAULT_PARTS in *. lia.
Qed.

Lemma Downloader_offsets_exact_witness :
  let d' := Downloader_Init (mkDownloader 0 0 0 3000000) in
  dChunkSize d' = DEFAULT_PARTS
  /\ calcOffset d' 4 = 4 * DEFAULT_PARTS
  /\ (3000000 < DEFAULT_PARTS -> dParts d' = 1)
  /\ (DEFAULT_PARTS <= 3000000 ->
      calcOffset d' 4 + dChunkSize d' <= 3000000
      /\ 3000000 - dParts d' * dChunkSize d' < dChunkSize d').
Proof.
  apply (Downloader_offsets_exact (mkDownloader 0 0 0 3000000) 4).
  - reflexivity.
  - reflexivity.
  - vm_compute. split; discriminate.
  - vm_compute. split; [discriminate|reflexivity].
Defined.

(** X5.  A negative part count makes both partitioners panic: the
    worker count is shrunk to it and [make] is asked for a slice of
    negative length. *)
Theorem partitioners_negative_parts (N W : Z) :
  Int32.min_int <= N < 0 -> 1 <= W <= Int32.max_int ->
  Uploader.dividePartsToWorkers N W = None
  /\ Downloader.DividePartsToWorkers N W = None.
Proof.
  intros HN HW.
  assert (Hmax : Int32.max_int = 2 ^ 31 - 1) by reflexivity.
  assert (Hmin : Int32.min_int = - 2 ^ 31) by reflexivity.
  unfold Uploader.dividePartsToWorkers, Downloader.DividePartsToWorkers.
  rewrite (Int32Facts.wrap32_id W) by (unfold Int32.in_range; lia).
  destruct (Z.ltb_spec N W); [|lia].
  cbv zeta. rewrite (Int32Facts.wrap32_id N) by (unfold Int32.in_range; lia).
  destruct (Z.eqb_spec N 0); [lia|].
  unfold divideWith. rewrite (Int32Facts.wrap32_id N) by (unfold Int32.in_range; lia).
  destruct (Z.eqb_spec N 0); [lia|]. destruct (Z.ltb_spec N 0); [done|lia].
Qed.

Lemma partitioners_negative_parts_witness :
  Uploader.dividePartsToWorkers (-3) 4 = None
  /\ Downloader.DividePartsToWorkers (-3) 4 = None.
Proof.
  apply (partitioners_negative_parts (-3) 4);
    unfold Int32.min_int, Int32.max_int; lia.
Defined.

(** X4.  [Init] sizes an upload so that the parts cover the file
    exactly.  Take a file of at least one byte, a chunk size that is
    unset (then 512 KiB) or a positive [int32], and a part count that is
    unset and will fit an [int32] (the file size divided by the
    requested chunk size is below [2^31 - 1]).  Afterwards the chunk size is the
    smaller of the requested one and the file size, there is at least
    one part, all parts but the last are full and the last is not empty
    ([(Parts - 1) * ChunkSize < FileSize <= Parts * ChunkSize]), a file
    shorter than the requested chunk gets one worker before [getInt]
    supplies the default, and the file counts as big exactly when it
    was already so marked or has at least ten mebibytes. *)
Theorem Uploader_Init_covers_file (getInt : Z -> Z -> Z) (u : Uploader) :
  let requested := if uChunkSize u =? 0 then DEFAULT_PARTS else uChunkSize u in
  uParts u = 0 ->
  1 <= uFileSize u <= Int64.max_int ->
  0 <= uChunkSize u <= Int32.max_int ->
  uFileSize u / requested < Int32.max_int ->
  exists u',
    Uploader_Init getInt u = Some u'
    /\ uFileSize u' = uFileSize u
    /\ uChunkSize u' = Z.min requested (uFileSize u)
    /\ 1 <= uParts u'
    /\ (uParts u' - 1) * uChunkSize u' < uFileSize u <= uParts u' * uChunkSize u'
    /\ uIsBig u' = uIsBig u || (10 * 1024 * 1024 <=? uFileSize u)
    /\ uWorker u'
       = getInt (if uFileSize u <? requested then 1 else uWorker u) DEFAULT_WORKERS.
Proof.
  intros cs HP HF HC Hfit. unfold Uploader_Init. rewrite HP. fold cs.
  assert (Hmax : Int32.max_int = 2 ^ 31 - 1) by reflexivity.
  assert (Hmax64 : Int64.max_int = 2 ^ 63 - 1) by reflexivity.
  assert (Hcs : 1 <= cs <= Int32.max_int).
  { subst cs. unfold DEFAULT_PARTS. destruct (Z.eqb_spec (uChunkSize u) 0); lia. }
  assert (Hbig : (if uFileSize u <? 10 * 1024 * 1024 then uIsBig u else true)
                 = uIsBig u || (10 * 1024 * 1024 <=? uFileSize u)).
  { destruct (Z.ltb_spec (uFileSize u) (10 * 1024 * 1024)),
             (Z.leb_spec (10 * 1024 * 1024) (uFileSize u)); try lia;
      by destruct (uIsBig u). }
  rewrite Hbig.
  destruct (Z.ltb_spec (uFileSize u) cs) as [Hsmall|Hlarge].
  - change (1 =? 0) with false. cbv iota.
    rewrite (Int32Facts.wrap32_id (uFileSize u))
      by (unfold Int32.in_range, Int32.min_int; lia).
    eexists. split; [reflexivity|]. cbn [uFileSize uChunkSize uParts uIsBig uWorker].
    repeat split; lia.
  - change (0 =? 0) with true. cbv iota.
    destruct (Z.eqb_spec cs 0); [lia|].
    unfold Int64.quot, Int64.rem, Int32.add.
    rewrite Z.quot_div_nonneg, Z.rem_mod_nonneg by lia.
    pose proof (Z.div_mod (uFileSize u) cs ltac:(lia)) as Hdm.
    pose proof (Z.mod_pos_bound (uFileSize u) cs ltac:(lia)) as Hm.
    assert (1 <= uFileSize u / cs) by (apply Z.div_le_lower_bound; lia).
    rewrite (Int64Facts.wrap64_id (uFileSize u / cs))
      by (unfold Int64.in_range, Int64.min_int; lia).
    rewrite (Int32Facts.wrap32_id (uFileSize u / cs))
      by (unfold Int32.in_range, Int32.min_int; lia).
    rewrite (Int32Facts.wrap32_id (uFileSize u / cs + 1))
      by (unfold Int32.in_range, Int32.min_int; lia).
    eexists. split; [reflexivity|]. cbn [uFileSize uChunkSize uParts uIsBig uWorker].
    destruct (Z.eqb_spec (uFileSize u mod cs) 0);
      (split; [done|]); (split; [lia|]); (split; [lia|]); (split; [nia|]); done.
Qed.

Lemma Uploader_Init_covers_file_witness :
  let getInt := fun a b : Z => if a =? 0 then b else a in
  let u := mkUploader 0 0 0 1300000 false in
  let requested := if uChunkSize u =? 0 then DEFAULT_PARTS else uChunkSize u in
  exists u',
    Uploader_Init getInt u = Some u'
    /\ uFileSize u' = uFileSize u
    /\ uChunkSize u' = Z.min requested (uFileSize u)
    /\ 1 <= uParts u'
    /\ (uParts u' - 1) * uChunkSize u' < uFileSize u <= uParts u' * uChunkSize u'
    /\ uIsBig u' = uIsBig u || (10 * 1024 * 1024 <=? uFileSize u)
    /\ uWorker u'
       = getInt (if uFileSize u <? requested then 1 else uWorker u) DEFAULT_WORKERS.
Proof.
  apply (Uploader_Init_covers_file (fun a b : Z => if a =? 0 then b else a)
           (mkUploader 0 0 0 1300000 false)).
  - reflexivity.
  - vm_compute. split; discriminate.
  - vm_compute. split; discriminate.
  - vm_compute. reflexivity.
Defined.

End TransferFacts.

Module ButtonsFacts.
Import Buttons.

Section KeyboardFacts.

Context {Button : Type}.
Implicit Types (buttons : list Button) (rows : @Rows Button).

Lemma slice_in_bounds buttons (lo hi : Z) :
  0 <= lo <= hi -> hi <= Z.of_nat (length buttons) ->
  slice buttons lo hi
  = Returns (take (Z.to_nat (hi - lo)) (drop (Z.to_nat lo) buttons)).
Proof.
  intros H1 H2. unfold slice.
  destruct (Z.leb_spec 0 lo); [|lia]. destruct (Z.leb_spec lo hi); [|lia].
  destruct (Z.leb_spec hi (Z.of_nat (length buttons))); [|lia]. reflexivity.
Qed.

Lemma int64_add_small (a b : Z) :
  - 2 ^ 62 <= a <= 2 ^ 62 -> - 2 ^ 62 <= b <= 2 ^ 62 - 1 -> Int64.add a b = a + b.
Proof.
  intros Ha Hb. apply Int64Facts.wrap64_id.
  unfold Int64.in_range, Int64.min_int, Int64.max_int. lia.
Qed.

(** The loop of [NewColumn] from position [i] on. *)
Lemma columnLoop_chunks x buttons :
  1 <= x <= 2 ^ 62 - 1 -> Z.of_nat (length buttons) <= 2 ^ 62 ->
  forall fuel (i : nat) rows,
    (length buttons <= fuel + i)%nat -> (i <= length buttons)%nat ->
    exists new,
      columnLoop fuel x buttons (Z.of_nat i) rows = Some (Returns (rows ++ new))
      /\ concat new = drop i buttons
      /\ Forall (fun r => 1 <= Z.of_nat (length r) <= x) new
      /\ forall (k : nat) r, new !! k = Some r -> (S k < length new)%nat ->
           Z.of_nat (length r) = x.
Proof.
  intros Hx Hlen. induction fuel as [|fuel IH]; intros i rows Hfuel Hi.
  - exists []. cbn [columnLoop]. destruct (Z.ltb_spec (Z.of_nat i) (Z.of_nat (length buttons))); [lia|].
    rewrite app_nil_r, drop_ge by lia. repeat split; [constructor|]. intros k r Hk. done.
  - cbn [columnLoop].
    destruct (Z.ltb_spec (Z.of_nat i) (Z.of_nat (length buttons))) as [Hlt|Hge]; last first.
    { exists []. rewrite app_nil_r, drop_ge by lia.
      repeat split; [constructor|]. intros k r Hk. done. }
    rewrite int64_add_small by lia.
    destruct (Z.ltb_spec (Z.of_nat (length buttons)) (Z.of_nat i + x)) as [Hlast|Hfull].
    + rewrite slice_in_bounds by lia. rewrite Nat2Z.id.
      replace (Z.to_nat (Z.of_nat (length buttons) - Z.of_nat i))
        with (length buttons - i)%nat by lia.
      rewrite take_ge by (rewrite length_drop; lia).
      exists [drop i buttons].
      assert (Hend : columnLoop fuel x buttons (Z.of_nat i + x)
                       (AddRow rows (drop i buttons))
                     = Some (Returns (AddRow rows (drop i buttons)))).
      { destruct fuel; cbn [columnLoop];
          (destruct (Z.ltb_spec (Z.of_nat i + x) (Z.of_nat (length buttons))); [lia|done]). }
      rewrite Hend. split; [done|]. split; [cbn; by rewrite app_nil_r|]. split.
      * constructor; [|constructor]. rewrite length_drop. lia.
      * intros k r Hk Hlt'. cbn in Hlt'. lia.
    + rewrite slice_in_bounds by lia. rewrite Nat2Z.id.
      replace (Z.of_nat i + x - Z.of_nat i) with x by lia.
      replace (Z.of_nat i + x) with (Z.of_nat (i + Z.to_nat x)) by lia.
      destruct (IH (i + Z.to_nat x)%nat (AddRow rows (take (Z.to_nat x) (drop i buttons))))
        as (new & Hrun & Hcat & Hall & Hfullrows); [lia|lia|].
      exists (take (Z.to_nat x) (drop i buttons) :: new).
      rewrite Hrun. unfold AddRow. rewrite <- app_assoc. split; [done|]. split.
      * cbn [concat]. rewrite Hcat, <- drop_drop. apply take_drop.
      * assert (Hrow : Z.of_nat (length (take (Z.to_nat x) (drop i buttons))) = x).
        { rewrite length_take, length_drop. lia. }
        split; [constructor; [lia|done]|].
        intros [|k] r Hk Hlt'; cbn in Hk, Hlt'.
        -- injection Hk as <-. exact Hrow.
        -- apply (Hfullrows k r Hk). lia.
Qed.

(** X6.  [NewColumn] with a positive width cuts the buttons into rows
    of that width.  For [1 <= x < 2^62] and at most [2^62] buttons (so
    that [i + x] cannot wrap) the loop ends within [len(buttons)]
    turns and appends rows to the keyboard that, read one after the
    other, are the buttons in their order; no row is empty or longer
    than [x], and every row but the last holds exactly [x] buttons.  The
    rows already in the keyboard are kept. *)
Theorem NewColumn_chunks (fuel : nat) rows (x : Z) buttons :
  1 <= x <= 2 ^ 62 - 1 -> Z.of_nat (length buttons) <= 2 ^ 62 ->
  (length buttons <= fuel)%nat ->
  exists new,
    NewColumn fuel rows x buttons = Some (Returns (rows ++ new))
    /\ concat new = buttons
    /\ Forall (fun r => 1 <= Z.of_nat (length r) <= x) new
    /\ forall (k : nat) r, new !! k = Some r -> (S k < length new)%nat ->
         Z.of_nat (length r) = x.
Proof.
  intros Hx Hlen Hfuel.
  destruct (columnLoop_chunks x buttons Hx Hlen fuel 0%nat rows) as (new & H);
    [lia|lia|].
  exists new. exact H.
Qed.

(** X7.  [NewColumn] needs a positive width.  On a non-empty list of
    buttons a width of zero keeps the loop turning for ever, adding an
    empty row each time, and a negative width panics in the first turn
    on the slice bounds. *)
Theorem NewColumn_bad_width (fuel : nat) rows (x : Z) buttons :
  buttons <> [] -> - 2 ^ 62 <= x <= 0 ->
  (x = 0 -> NewColumn fuel rows x buttons = None)
  /\ (x < 0 ->
      NewColumn (S fuel) rows x buttons = Some (Panics "slice bounds out of range")).
Proof.
  intros Hne Hx.
  assert (Hlen : 0 < Z.of_nat (length buttons)) by (destruct buttons; [done|cbn; lia]).
  split.
  - intros ->. unfold NewColumn. revert rows.
    induction fuel as [|fuel IH]; intros rows; cbn [columnLoop];
      destruct (Z.ltb_spec 0 (Z.of_nat (length buttons))); try lia; [done|].
    change (Int64.add 0 0) with 0.
    destruct (Z.ltb_spec (Z.of_nat (length buttons)) 0); [lia|].
    rewrite slice_in_bounds by lia. apply IH.
  - intros Hneg. unfold NewColumn. cbn [columnLoop].
    destruct (Z.ltb_spec 0 (Z.of_nat (length buttons))); [|lia].
    rewrite int64_add_small by lia. rewrite Z.add_0_l.
    destruct (Z.ltb_spec (Z.of_nat (length buttons)) x); [lia|].
    unfold slice. destruct (Z.leb_spec 0 x); [lia|]. reflexivity.
Qed.

Lemma seg_app (a b c : nat) buttons :
  (a <= b)%nat -> (b <= c)%nat ->
  take (b - a) (drop a buttons) ++ take (c - b) (drop b buttons)
  = take (c - a) (drop a buttons).
Proof.
  intros Hab Hbc.
  replace (drop b buttons) with (drop (b - a) (drop a buttons))
    by (rewrite drop_drop; f_equal; lia).
  rewrite take_take_drop. f_equal. lia.
Qed.

Lemma int64_mul_small (a b : Z) :
  0 <= a <= 2 ^ 31 -> 0 <= b <= 2 ^ 31 -> Int64.mul a b = a * b.
Proof.
  intros Ha Hb. apply Int64Facts.wrap64_id.
  unfold Int64.in_range, Int64.min_int, Int64.max_int. nia.
Qed.

(** The loop of [NewGrid] from row [i] on, with [n] rows still allowed:
    it lays out the buttons from position [min (i * y) total] up to
    position [min ((i + n) * y) total]. *)
Lemma gridLoop_rows (y : nat) buttons :
  Z.of_nat y <= 2 ^ 31 -> Z.of_nat (length buttons) <= 2 ^ 62 ->
  forall (n i : nat) rows,
    Z.of_nat (i + n) <= 2 ^ 31 ->
    exists new,
      gridLoop n (Z.of_nat y) buttons (Z.of_nat i) rows = Returns (rows ++ new)
      /\ concat new
         = take (Nat.min ((i + n) * y) (length buttons) - Nat.min (i * y) (length buttons))
                (drop (Nat.min (i * y) (length buttons)) buttons)
      /\ (length new <= n)%nat
      /\ Forall (fun r => (length r <= y)%nat) new.
Proof.
  intros Hy Hlen. induction n as [|n IH]; intros i rows Hin.
  - exists []. cbn [gridLoop]. rewrite app_nil_r, Nat.add_0_r, Nat.sub_diag.
    repeat split; [cbn; lia|constructor].
  - cbn [gridLoop]. rewrite int64_add_small by lia. rewrite !int64_mul_small by lia.
    replace (Z.of_nat i * Z.of_nat y) with (Z.of_nat (i * y)) by lia.
    replace ((Z.of_nat i + 1) * Z.of_nat y) with (Z.of_nat (S i * y)) by lia.
    replace (Z.of_nat i + 1) with (Z.of_nat (S i)) by lia.
    destruct (Z.ltb_spec (Z.of_nat (i * y)) (Z.of_nat (length buttons))) as [Hlt|Hge].
    + set (e := if Z.of_nat (length buttons) <? Z.of_nat (S i * y)
                then Z.of_nat (length buttons) else Z.of_nat (S i * y)).
      assert (He : e = Z.of_nat (Nat.min (S i * y) (length buttons))).
      { subst e. destruct (Z.ltb_spec (Z.of_nat (length buttons)) (Z.of_nat (S i * y))); lia. }
      rewrite He. rewrite slice_in_bounds by lia.
      destruct (IH (S i) (AddRow rows
                  (take (Z.to_nat (Z.of_nat (Nat.min (S i * y) (length buttons))
                                   - Z.of_nat (i * y)))
                        (drop (Z.to_nat (Z.of_nat (i * y))) buttons))))
        as (new & Hrun & Hcat & Hcount & Hall); [lia|].
      eexists (_ :: new). rewrite Hrun. unfold AddRow. rewrite <- app_assoc.
      split; [reflexivity|]. split; [|split].
      * cbn [concat]. rewrite Hcat, Nat2Z.id.
        replace (Z.to_nat (Z.of_nat (Nat.min (S i * y) (length buttons)) - Z.of_nat (i * y)))
          with (Nat.min (S i * y) (length buttons) - i * y)%nat by lia.
        replace (Nat.min (i * y) (length buttons)) with (i * y)%nat by lia.
        replace (i + S n)%nat with (S i + n)%nat by lia.
        apply seg_app; nia.
      * cbn [length]. lia.
      * constructor; [|done]. rewrite length_take, length_drop. nia.
    + exists []. rewrite app_nil_r.
      replace (Nat.min (i * y) (length buttons)) with (length buttons) by lia.
      replace (Nat.min ((i + S n) * y) (length buttons)) with (length buttons) by nia.
      rewrite Nat.sub_diag. repeat split; [cbn; lia|constructor].
Qed.

(** X8.  [NewGrid] loses no button and adds none.  For [x] rows of [y]
    columns, [0 <= x < 2^31] and [0 <= y <= 2^31] (so that [x * y]
    cannot wrap), and at most [2^62] buttons, the call returns, keeps
    the rows the keyboard had and appends at most [x + 1] rows that,
    read one after the other, are the buttons in their order.  When the buttons fit
    the grid ([len(buttons) <= x * y]) it appends at most [x] rows and
    none is longer than [y]; the buttons beyond [x * y] otherwise go
    into one last row of their own. *)
Theorem NewGrid_keeps_every_button rows (x y : Z) buttons :
  0 <= x <= 2 ^ 31 - 1 -> 0 <= y <= 2 ^ 31 ->
  Z.of_nat (length buttons) <= 2 ^ 62 ->
  exists new,
    NewGrid rows x y buttons = Returns (rows ++ new)
    /\ concat new = buttons
    /\ Z.of_nat (length new) <= x + 1
    /\ (Z.of_nat (length buttons) <= x * y ->
        Z.of_nat (length new) <= x
        /\ Forall (fun r => Z.of_nat (length r) <= y) new)
    /\ (x * y < Z.of_nat (length buttons) ->
        last new = Some (drop (Z.to_nat (x * y)) buttons)).
Proof.
  intros Hx Hy Hlen. unfold NewGrid.
  destruct (gridLoop_rows (Z.to_nat y) buttons ltac:(lia) Hlen (Z.to_nat x) 0%nat rows)
    as (new & Hrun & Hcat & Hcount & Hall); [lia|].
  rewrite Z2Nat.id in Hrun by lia. change (Z.of_nat 0) with 0 in Hrun. rewrite Hrun.
  rewrite int64_mul_small by lia.
  cbn [Nat.add Nat.mul Nat.min] in Hcat. rewrite Nat.sub_0_r in Hcat. cbn [drop] in Hcat.
  assert (Hall' : Forall (fun r : list Button => Z.of_nat (length r) <= y) new).
  { eapply Forall_impl; [exact Hall|]. cbn. intros r Hr. lia. }
  destruct (Z.ltb_spec (x * y) (Z.of_nat (length buttons))) as [Hmore|Hfit].
  - rewrite slice_in_bounds by nia.
    replace (Z.to_nat (Z.of_nat (length buttons) - x * y))
      with (length buttons - Z.to_nat (x * y))%nat by lia.
    rewrite (take_ge (drop _ _)) by (rewrite length_drop; lia).
    exists (new ++ [drop (Z.to_nat (x * y)) buttons]).
    unfold AddRow. rewrite <- app_assoc. split; [done|]. split; [|split; [|split]].
    + rewrite concat_app, Hcat. cbn [concat]. rewrite app_nil_r.
      replace (Nat.min (Z.to_nat x * Z.to_nat y) (length buttons))
        with (Z.to_nat (x * y)) by nia.
      apply take_drop.
    + rewrite length_app. cbn [length]. lia.
    + lia.
    + intros _. apply last_snoc.
  - exists new. split; [done|]. split; [|split; [lia|split; [by split; [lia|]|lia]]].
    rewrite Hcat. apply take_ge. nia.
Qed.

(** The inner loop of [NewRow] with enough fuel picks every [y]-th
    button from position [j] on. *)
Lemma strideLoop_picks (y : nat) buttons :
  (1 <= y)%nat -> Z.of_nat y <= 2 ^ 62 - 1 -> Z.of_nat (length buttons) <= 2 ^ 62 ->
  forall (fuel j : nat) acc,
    (length buttons <= j + fuel * y)%nat ->
    exists picks,
      strideLoop fuel (Z.of_nat y) buttons (Z.of_nat j) acc = acc ++ picks
      /\ forall k : nat, picks !! k = buttons !! (j + k * y)%nat.
Proof.
  intros Hy Hy' Hlen. induction fuel as [|fuel IH]; intros j acc Hfuel.
  - exists []. cbn [strideLoop]. rewrite app_nil_r. split; [done|].
    intros k. symmetry. apply lookup_ge_None. lia.
  - cbn [strideLoop].
    destruct (Z.ltb_spec (Z.of_nat j) (Z.of_nat (length buttons))) as [Hlt|Hge].
    + rewrite Nat2Z.id.
      destruct (lookup_lt_is_Some_2 buttons j ltac:(lia)) as [b Hb]. rewrite Hb.
      rewrite int64_add_small by lia.
      replace (Z.of_nat j + Z.of_nat y) with (Z.of_nat (j + y)) by lia.
      destruct (IH (j + y)%nat (acc ++ [b])) as (picks & Hrun & Hpicks); [lia|].
      exists (b :: picks). rewrite Hrun, <- app_assoc. split; [done|].
      intros [|k]; cbn [lookup list_lookup].
      * by rewrite Nat.add_0_r.
      * rewrite Hpicks. f_equal. lia.
    + exists []. rewrite app_nil_r. split; [done|].
      intros k. symmetry. apply lookup_ge_None. lia.
Qed.

Lemma rowLoop_rows (y : nat) buttons :
  (1 <= y)%nat -> Z.of_nat y <= 2 ^ 62 - 1 -> Z.of_nat (length buttons) <= 2 ^ 62 ->
  forall (n i : nat) rows,
    (i + n <= y)%nat ->
    exists new,
      rowLoop n (Z.of_nat y) buttons (Z.of_nat i) rows = rows ++ new
      /\ length new = n
      /\ forall r k : nat, (r < n)%nat ->
           new !! r ≫= (.!! k) = buttons !! (i + r + k * y)%nat.
Proof.
  intros Hy Hy' Hlen. induction n as [|n IH]; intros i rows Hin.
  - exists []. cbn [rowLoop]. rewrite app_nil_r. repeat split. intros r k Hr. lia.
  - cbn [rowLoop].
    destruct (strideLoop_picks y buttons Hy Hy' Hlen (length buttons) i [])
      as (picks & Hrow & Hpicks); [nia|].
    rewrite Hrow. cbn [app]. rewrite int64_add_small by lia.
    replace (Z.of_nat i + 1) with (Z.of_nat (S i)) by lia.
    destruct (IH (S i) (AddRow rows picks)) as (new & Hrun & Hcount & Hnew); [lia|].
    exists (picks :: new). rewrite Hrun. unfold AddRow. rewrite <- app_assoc.
    split; [done|]. split; [cbn; lia|].
    intros [|r] k Hr.
    + change ((picks :: new) !! 0%nat) with (Some picks). cbn [mbind option_bind].
      rewrite Hpicks. f_equal. lia.
    + change ((picks :: new) !! S r) with (new !! r).
      rewrite (Hnew r k) by lia. f_equal. lia.
Qed.

(** X9.  [NewRow] deals the buttons out over [y] rows.  For
    [1 <= y < 2^62] and at most [2^62] buttons (so that [j + y] cannot
    wrap) it keeps the rows the keyboard had and appends exactly [y]
    rows;
    the button at position [k] of appended row [r] is the button at
    position [r + k * y] of the argument, so every button lands in
    exactly one place: button [n] at position [n / y] of row
    [n mod y]. *)
Theorem NewRow_deals rows (y : Z) buttons :
  1 <= y <= 2 ^ 62 - 1 -> Z.of_nat (length buttons) <= 2 ^ 62 ->
  exists new,
    NewRow rows y buttons = rows ++ new
    /\ Z.of_nat (length new) = y
    /\ (forall r k : nat, Z.of_nat r < y ->
          new !! r ≫= (.!! k) = buttons !! (r + k * Z.to_nat y)%nat)
    /\ (forall (n : nat) b, buttons !! n = Some b ->
          new !! (n mod Z.to_nat y)%nat ≫= (.!! (n / Z.to_nat y)%nat) = Some b).
Proof.
  intros Hy Hlen. unfold NewRow.
  destruct (rowLoop_rows (Z.to_nat y) buttons ltac:(lia) ltac:(lia) Hlen
              (Z.to_nat y) 0%nat rows) as (new & Hrun & Hcount & Hnew); [lia|].
  rewrite Z2Nat.id in Hrun by lia. change (Z.of_nat 0) with 0 in Hrun.
  exists new. split; [exact Hrun|]. split; [lia|]. split.
  - intros r k Hr. rewrite Hnew by lia. f_equal.
  - intros n b Hb. rewrite Hnew.
    + rewrite <- Hb. f_equal. cbn [Nat.add].
      pose proof (Nat.div_mod n (Z.to_nat y) ltac:(lia)). lia.
    + apply Nat.mod_upper_bound. lia.
Qed.

End KeyboardFacts.

Lemma NewColumn_chunks_witness :
  exists new,
    NewColumn 5 [[7%nat]] 2 [1; 2; 3; 4; 5]%nat = Some (Returns ([[7%nat]] ++ new))
    /\ concat new = [1; 2; 3; 4; 5]%nat
    /\ Forall (fun r => 1 <= Z.of_nat (length r) <= 2) new
    /\ forall (k : nat) r, new !! k = Some r -> (S k < length new)%nat ->
         Z.of_nat (length r) = 2.
Proof.
  apply (NewColumn_chunks 5 [[7%nat]] 2 [1; 2; 3; 4; 5]%nat).
  - lia.
  - vm_compute. discriminate.
  - simpl. lia.
Defined.

Lemma NewColumn_bad_width_witness :
  (0 = 0 -> NewColumn 3 [] 0 [1%nat] = None)
  /\ (0 < 0 ->
      NewColumn 4 [] 0 [1%nat] = Some (Panics "slice bounds out of range")).
Proof.
  apply (NewColumn_bad_width 3 [] 0 [1%nat]).
  - discriminate.
  - lia.
Defined.

Lemma NewGrid_keeps_every_button_witness :
  exists new,
    NewGrid [] 2 2 [1; 2; 3; 4; 5]%nat = Returns ([] ++ new)
    /\ concat new = [1; 2; 3; 4; 5]%nat
    /\ Z.of_nat (length new) <= 2 + 1
    /\ (Z.of_nat (length [1; 2; 3; 4; 5]%nat) <= 2 * 2 ->
        Z.of_nat (length new) <= 2
        /\ Forall (fun r => Z.of_nat (length r) <= 2) new)
    /\ (2 * 2 < Z.of_nat (length [1; 2; 3; 4; 5]%nat) ->
        last new = Some (drop (Z.to_nat (2 * 2)) [1; 2; 3; 4; 5]%nat)).
Proof.
  apply (NewGrid_keeps_every_button [] 2 2 [1; 2; 3; 4; 5]%nat).
  - lia.
  - lia.
  - vm_compute. discriminate.
Defined.

Lemma NewRow_deals_witness :
  exists new,
    NewRow [] 2 [1; 2; 3; 4; 5]%nat = [] ++ new
    /\ Z.of_nat (length new) = 2
    /\ (forall r k : nat, Z.of_nat r < 2 ->
          new !! r ≫= (.!! k) = [1; 2; 3; 4; 5]%nat !! (r + k * Z.to_nat 2)%nat)
    /\ (forall (n : nat) b, [1; 2; 3; 4; 5]%nat !! n = Some b ->
          new !! (n mod Z.to_nat 2)%nat ≫= (.!! (n / Z.to_nat 2)%nat) = Some b).
Proof.
  apply (NewRow_deals [] 2 [1; 2; 3; 4; 5]%nat).
  - lia.
  - vm_compute. discriminate.
Defined.

End ButtonsFacts.

Module FramingFacts.
Import Mode Framing.

Lemma parseTransportMode_cases sMode :
  parseTransportMode sMode = Abridged
  \/ parseTransportMode sMode = Intermediate
  \/ parseTransportMode sMode = Full.
Proof.
  unfold parseTransportMode.
  destruct (String.eqb sMode "modeAbridged"); [by left|].
  destruct (String.eqb sMode "modeFull"); [by right; right|].
  destruct (String.eqb sMode "modeIntermediate"); [by right; left|by left].
Qed.

(** X10.  A transport mode given as a configuration string always
    yields a working framing.  Whatever the string, [parseTransportMode]
    never chooses [PaddedIntermediate]; on a stream that accepts writes
    [New] then neither panics nor fails: it returns a mode of the parsed
    variant ([GetVariant] gives it back) and the stream has gained
    exactly that mode's announcement.  On a stream whose write fails it
    returns the write error wrapped in "can't setup connection" and no
    mode. *)
Theorem New_of_parsed_mode (sMode : string) (c : Stream) :
  parseTransportMode sMode <> PaddedIntermediate
  /\ (writeFails c = false ->
      exists m c',
        New (parseTransportMode sMode) (Some c) = Returns (Some m, Nil, Some c')
        /\ written c' = written c ++ getModeAnnouncement m
        /\ writeFails c' = false
        /\ GetVariant m = (parseTransportMode sMode, Nil))
  /\ (writeFails c = true ->
      New (parseTransportMode sMode) (Some c)
      = Returns (None, Errorf "can't setup connection: %w" (ErrorString "write failed"),
                 Some c)).
Proof.
  destruct c as [w f]. cbn [writeFails written].
  destruct (parseTransportMode_cases sMode) as [-> | [-> | ->]];
    (split; [discriminate|]); split; intros ->;
    try reflexivity; eexists; eexists; repeat split.
Qed.

(** X11.  [Detect] recognises what [New] announces.  Let [New] set up
    an Abridged or Intermediate mode on a stream that accepts writes,
    and let the bytes it wrote reach the other side in one chunk,
    followed or not by payload.  Then [Detect] on that side returns a
    mode of the same variant without error, having consumed the
    announcement and nothing else. *)
Theorem Detect_after_New (v : Variant) (c peer : Stream)
    (payload : list Z) (later : list (list Z)) :
  v = Abridged \/ v = Intermediate ->
  writeFails c = false -> written c = [] ->
  exists m c',
    New v (Some c) = Returns (Some m, Nil, Some c')
    /\ Detect (Some peer) ((written c' ++ payload) :: later)
       = (Returns (Some (setConn m peer), Nil),
          match payload with [] => later | _ => payload :: later end)
    /\ GetVariant (setConn m peer) = (v, Nil).
Proof.
  intros Hv Hw Hnew. destruct c as [w f]. cbn in Hw, Hnew. subst w f.
  destruct Hv as [Hv|Hv]; subst v; eexists; eexists; (split; [reflexivity|]);
    split; try reflexivity; by destruct payload.
Qed.

Lemma Detect_after_New_witness :
  exists m c',
    New Intermediate (Some (mkStream [] false)) = Returns (Some m, Nil, Some c')
    /\ Detect (Some (mkStream [] false)) ((written c' ++ [1; 2; 3]) :: [])
       = (Returns (Some (setConn m (mkStream [] false)), Nil),
          match [1; 2; 3] with [] => [] | _ => [1; 2; 3] :: [] end)
    /\ GetVariant (setConn m (mkStream [] false)) = (Intermediate, Nil).
Proof.
  apply (Detect_after_New Intermediate (mkStream [] false) (mkStream [] false)
           [1; 2; 3] []).
  - by right.
  - reflexivity.
  - reflexivity.
Defined.

(** X12.  [Detect] never panics and never sets up a Full or padded
    mode: whatever the stream holds it returns, and what it returns is
    an Abridged or an Intermediate mode on the given stream without
    error, or no mode with one of [ErrInterfaceIsNil] (nil stream), the
    end-of-stream error, [ErrModeNotSupported] or
    [ErrAmbiguousModeAnnounce]. *)
Theorem Detect_outcomes (conn : option Stream) (inbound : list (list Z)) :
  exists r rest,
    Detect conn inbound = (Returns r, rest)
    /\ ((exists c, conn = Some c /\ (r = (Some (abridged c), Nil)
                                     \/ r = (Some (intermediate c), Nil)))
        \/ (r.1 = None
            /\ (r.2 = ErrInterfaceIsNil /\ conn = None
                \/ r.2 = io_EOF \/ r.2 = ErrModeNotSupported
                \/ r.2 = ErrAmbiguousModeAnnounce))).
Proof.
  destruct conn as [c|]; [|eexists; eexists; split; [reflexivity|]; right; cbn; by eauto].
  unfold Detect. destruct inbound as [|chunk inbound]; cbn [Read is_nil negb].
  { eexists; eexists; split; [reflexivity|]. right. cbn. by eauto. }
  destruct (_ =? _).
  { eexists; eexists; split; [reflexivity|]. left. by eauto. }
  destruct (_ =? _); last first.
  { eexists; eexists; split; [reflexivity|]. right. cbn. by eauto 6. }
  destruct (match drop 1 chunk with [] => inbound | pending => pending :: inbound end)
    as [|chunk' inbound']; cbn [Read is_nil negb].
  { eexists; eexists; split; [reflexivity|]. right. cbn. by eauto. }
  case_bool_decide.
  { eexists; eexists; split; [reflexivity|]. left. by eauto. }
  eexists; eexists; split; [reflexivity|]. right. cbn. by eauto 6.
Qed.

(** X13.  An Intermediate announcement that arrives in pieces is
    rejected.  When the first read delivers the byte [0xEE] and the
    next chunk of the stream holds fewer than three bytes, whatever
    they are and whatever follows, [Detect] compares a buffer still
    padded with zeros and returns [ErrAmbiguousModeAnnounce]. *)
Theorem Detect_short_read (c : Stream) (piece : list Z) (later : list (list Z)) :
  (length piece < 3)%nat ->
  Detect (Some c) ([0xEE] :: piece :: later)
  = (Returns (None, ErrAmbiguousModeAnnounce), later).
Proof.
  intros Hpiece.
  destruct piece as [|p1 [|p2 [|p3 piece]]]; cbn in Hpiece; try lia;
    unfold Detect; cbn [Read is_nil negb take drop filled app length hd];
    change (0xEE =? hd 0 transportModeAbridged) with false;
    change (0xEE =? hd 0 transportModeIntermediate) with true; cbv iota;
    (rewrite bool_decide_eq_false_2; [reflexivity|]);
    unfold transportModeIntermediate; intros [=].
Qed.

Lemma Detect_short_read_witness :
  Detect (Some (mkStream [] false)) ([0xEE] :: [0xEE; 0xEE] :: [[0xEE]])
  = (Returns (None, ErrAmbiguousModeAnnounce), [[0xEE]]).
Proof.
  apply (Detect_short_read (mkStream [] false) [0xEE; 0xEE] [[0xEE]]). simpl. lia.
Defined.

End FramingFacts.

Module NetFacts.
Import Net.

Lemma searchEntries_found entries addr dc :
  searchEntries entries addr = Some dc ->
  exists addrs, (dc, addrs) ∈ entries /\ addr ∈ addrs.
Proof.
  induction entries as [|[dc' addrs'] entries IH]; cbn [searchEntries]; [done|].
  destruct (existsb _ addrs') eqn:Hex.
  - intros [= <-]. exists addrs'. split; [by left|].
    apply existsb_exists in Hex as (a & Ha & Heq).
    apply String.eqb_eq in Heq as ->. by apply list_elem_of_In.
  - intros H. destruct (IH H) as (addrs & Hin & Ha). exists addrs. split; [by right|done].
Qed.

Lemma searchEntries_none entries addr :
  searchEntries entries addr = None ->
  forall dc addrs, (dc, addrs) ∈ entries -> addr ∉ addrs.
Proof.
  induction entries as [|[dc' addrs'] entries IH]; cbn [searchEntries].
  - intros _ dc addrs Hin. by apply elem_of_nil in Hin.
  - destruct (existsb _ addrs') eqn:Hex; [done|]. intros H dc addrs Hin.
    apply elem_of_cons in Hin as [[= -> ->]|Hin]; [|by eapply IH].
    intros Ha. apply not_true_iff_false in Hex. apply Hex, existsb_exists.
    exists addr. split; [by apply list_elem_of_In|apply String.eqb_refl].
Qed.

(** X14.  [SearchAddr] finds the data center of an address, in whatever
    order the table is visited.  If [addr] is listed under [dc] and
    under no other id, the result is [dc]; in particular it undoes
    [GetAddr] for every id whose first address is listed nowhere else.
    If [addr] is listed nowhere, the result is 5 when the address
    contains "91.108.56" and 4 otherwise. *)
Theorem SearchAddr_finds (DCS : gmap Z (list string))
    (entries : list (Z * list string)) (addr : string) :
  entries ≡ₚ map_to_list DCS ->
  (forall dc addrs,
     DCS !! dc = Some addrs -> addr ∈ addrs ->
     (forall dc' addrs', DCS !! dc' = Some addrs' -> addr ∈ addrs' -> dc' = dc) ->
     SearchAddr entries addr = dc)
  /\ (forall dc,
        GetAddr DCS dc = Returns addr -> addr <> "" ->
        (forall dc' addrs', DCS !! dc' = Some addrs' -> addr ∈ addrs' -> dc' = dc) ->
        SearchAddr entries addr = dc)
  /\ ((forall dc addrs, DCS !! dc = Some addrs -> addr ∉ addrs) ->
      SearchAddr entries addr = if Gogram.contains addr "91.108.56" then 5 else 4).
Proof.
  intros Hperm.
  assert (Hin : forall dc addrs, (dc, addrs) ∈ entries <-> DCS !! dc = Some addrs).
  { intros dc addrs. rewrite Hperm. apply elem_of_map_to_list. }
  assert (Hfound : forall dc addrs,
            DCS !! dc = Some addrs -> addr ∈ addrs ->
            (forall dc' addrs', DCS !! dc' = Some addrs' -> addr ∈ addrs' -> dc' = dc) ->
            SearchAddr entries addr = dc).
  { intros dc addrs Hdc Ha Huniq. unfold SearchAddr.
    destruct (searchEntries entries addr) as [dc'|] eqn:Hs.
    - apply searchEntries_found in Hs as (addrs' & Hin' & Ha').
      apply (Huniq dc' addrs'); [by apply Hin|done].
    - exfalso. eapply searchEntries_none; [exact Hs| |exact Ha]. by apply Hin. }
  split; [exact Hfound|]. split.
  - intros dc Hget Hne Huniq. unfold GetAddr in Hget.
    destruct (DCS !! dc) as [[|a addrs]|] eqn:Hdc; try done.
    + injection Hget as ->. eapply Hfound; [exact Hdc|by left|done].
    + by injection Hget as <-.
  - intros Hnone. unfold SearchAddr.
    destruct (searchEntries entries addr) as [dc'|] eqn:Hs; [|done].
    apply searchEntries_found in Hs as (addrs' & Hin' & Ha').
    exfalso. eapply Hnone; [by apply Hin|done].
Qed.

Lemma SearchAddr_finds_witness :
  (forall dc addrs,
     DcList !! dc = Some addrs -> "91.108.56.151:443" ∈ addrs ->
     (forall dc' addrs', DcList !! dc' = Some addrs' ->
        "91.108.56.151:443" ∈ addrs' -> dc' = dc) ->
     SearchAddr (map_to_list DcList) "91.108.56.151:443" = dc)
  /\ (forall dc,
        GetAddr DcList dc = Returns "91.108.56.151:443" ->
        "91.108.56.151:443" <> "" ->
        (forall dc' addrs', DcList !! dc' = Some addrs' ->
           "91.108.56.151:443" ∈ addrs' -> dc' = dc) ->
        SearchAddr (map_to_list DcList) "91.108.56.151:443" = dc)
  /\ ((forall dc addrs, DcList !! dc = Some addrs -> "91.108.56.151:443" ∉ addrs) ->
      SearchAddr (map_to_list DcList) "91.108.56.151:443"
      = if Gogram.contains "91.108.56.151:443" "91.108.56" then 5 else 4).
Proof.
  apply (SearchAddr_finds DcList (map_to_list DcList) "91.108.56.151:443").
  reflexivity.
Defined.

(** The start-up table: every id gives back its address and every
    address its id; an address that is not listed goes to 4, or to 5
    when it contains "91.108.56". *)
Example DcList_round_trip :
  Forall (fun dc => match GetAddr DcList dc with
                    | Returns a => SearchAddr (map_to_list DcList) a = dc
                    | Panics _ => False
                    end) [1; 2; 3; 4; 5]
  /\ GetAddr DcList 9 = Returns ""
  /\ SearchAddr (map_to_list DcList) "91.108.56.200:443" = 5
  /\ SearchAddr (map_to_list DcList) "10.0.0.1:443" = 4.
Proof. vm_compute. repeat constructor. Qed.

Lemma Xor_length dst src : length (Xor dst src).1 = length dst.
Proof.
  revert src. induction dst as [|d dst IH]; intros [|s src]; cbn [Xor]; try done.
  specialize (IH src). destruct (Xor dst src). cbn in *. by rewrite IH.
Qed.

(** X15.  [Xor] is its own inverse.  When [src] has at least as many
    bytes as [dst], the call does not panic, leaves [dst] with its
    length, its bytes still bytes and byte [i] equal to
    [dst[i] xor src[i]], and a second call with the same [src] restores
    the original [dst]. *)
Theorem Xor_involutive (dst src : list Z) :
  (length dst <= length src)%nat ->
  Forall is_byte dst -> Forall is_byte src ->
  (Xor dst src).2 = false
  /\ length (Xor dst src).1 = length dst
  /\ Forall is_byte (Xor dst src).1
  /\ (forall (i : nat) d s, dst !! i = Some d -> src !! i = Some s ->
        (Xor dst src).1 !! i = Some (Z.lxor d s))
  /\ Xor (Xor dst src).1 src = (dst, false).
Proof.
  revert src. induction dst as [|d dst IH]; intros [|s src] Hlen Hd Hs;
    cbn [Xor length] in *; try lia.
  - repeat split; try done.
  - repeat split; try done.
  - apply Forall_cons in Hd as [Hd0 Hd]. apply Forall_cons in Hs as [Hs0 Hs].
    destruct (IH src ltac:(lia) Hd Hs) as (Hp & Hl & Hb & Hi & Hinv).
    destruct (Xor dst src) as [rest panicked] eqn:Hx. cbn [fst snd] in *.
    subst panicked. cbn [Xor]. rewrite Hinv.
    split; [done|]. split; [cbn; by rewrite Hl|]. split; [|split].
    + constructor; [|done]. unfold is_byte in *.
      assert (0 <= Z.lxor d s) by (apply Z.lxor_nonneg; lia).
      assert (Z.lxor d s < 2 ^ 8); [|lia].
      destruct (Z.eq_dec (Z.lxor d s) 0) as [->|Hnz]; [lia|].
      apply Z.log2_lt_pow2; [lia|].
      eapply Z.le_lt_trans; [apply Z.log2_lxor; lia|].
      apply Z.max_lub_lt.
      * destruct (Z.eq_dec d 0) as [->|]; [done|]. apply Z.log2_lt_pow2; lia.
      * destruct (Z.eq_dec s 0) as [->|]; [done|]. apply Z.log2_lt_pow2; lia.
    + intros [|i] d' s' Hd' Hs'; cbn in Hd', Hs' |- *.
      * by injection Hd' as <-; injection Hs' as <-.
      * by apply Hi.
    + by rewrite Z.lxor_assoc, Z.lxor_nilpotent, Z.lxor_0_r.
Qed.

Lemma Xor_involutive_witness :
  (Xor [1; 2; 255] [7; 7; 7; 9]).2 = false
  /\ length (Xor [1; 2; 255] [7; 7; 7; 9]).1 = length [1; 2; 255]
  /\ Forall is_byte (Xor [1; 2; 255] [7; 7; 7; 9]).1
  /\ (forall (i : nat) d s, [1; 2; 255] !! i = Some d -> [7; 7; 7; 9] !! i = Some s ->
        (Xor [1; 2; 255] [7; 7; 7; 9]).1 !! i = Some (Z.lxor d s))
  /\ Xor (Xor [1; 2; 255] [7; 7; 7; 9]).1 [7; 7; 7; 9] = ([1; 2; 255], false).
Proof.
  apply (Xor_involutive [1; 2; 255] [7; 7; 7; 9]).
  - simpl. lia.
  - repeat constructor; unfold is_byte; lia.
  - repeat constructor; unfold is_byte; lia.
Defined.

(** X16.  [Xor] with a shorter [src] panics half-way.  When [src] has
    fewer bytes than [dst] the call panics, and by then it has xored
    the first [len(src)] bytes of [dst] in place and left the others as
    they were. *)
Theorem Xor_short_src (dst src : list Z) :
  (length src < length dst)%nat ->
  (Xor dst src).2 = true
  /\ (Xor dst src).1
     = (Xor (take (length src) dst) src).1 ++ drop (length src) dst
  /\ (Xor (take (length src) dst) src).2 = false.
Proof.
  revert src. induction dst as [|d dst IH]; intros [|s src] Hlen;
    cbn [Xor length take drop] in *; try lia.
  - done.
  - destruct (IH src ltac:(lia)) as (Hp & Hrest & Hq).
    destruct (Xor dst src) as [rest panicked]. cbn [fst snd] in *.
    destruct (Xor (take (length src) dst) src) as [rest' panicked']. cbn [fst snd] in *.
    subst. done.
Qed.

Lemma Xor_short_src_witness :
  (Xor [1; 2; 3] [7]).2 = true
  /\ (Xor [1; 2; 3] [7]).1
     = (Xor (take (length [7]) [1; 2; 3]) [7]).1 ++ drop (length [7]) [1; 2; 3]
  /\ (Xor (take (length [7]) [1; 2; 3]) [7]).2 = false.
Proof. apply (Xor_short_src [1; 2; 3] [7]). simpl. lia. Defined.

End NetFacts.

Module MessageIdFacts.
Import Utils.

Lemma land_clear_low_bits n : Z.land n (-4) = 4 * (n / 4).
Proof.
  change (-4) with (Z.lnot (Z.ones 2)).
  rewrite <- Z.ldiff_land, Z.ldiff_ones_r by lia.
  rewrite Z.shiftr_div_pow2, Z.shiftl_mul_pow2 by lia. change (2 ^ 2) with 4. lia.
Qed.

Lemma lor_high_low s m :
  0 <= m < 2 ^ 32 -> Z.lor (s * 2 ^ 32) m = s * 2 ^ 32 + m.
Proof.
  intros Hm. rewrite <- Z.add_lor_land.
  assert (H0 : Z.land (s * 2 ^ 32) m = 0); [|lia].
  apply Z.bits_inj'. intros i Hi. rewrite Z.land_spec, Z.bits_0.
  destruct (Z.ltb_spec i 32) as [Hlow|Hhigh].
  - rewrite <- Z.shiftl_mul_pow2 by lia. rewrite Z.shiftl_spec_low by lia. reflexivity.
  - destruct (Z.eq_dec m 0) as [->|Hnz]; [by rewrite Z.bits_0, andb_false_r|].
    rewrite (Z.bits_above_log2 m i), andb_false_r; [done|lia|].
    assert (Z.log2 m < 32) by (apply Z.log2_lt_pow2; lia). lia.
Qed.

(** The layout of an id for a clock between 1970 and 2038: the seconds
    in the upper 32 bits, the nanoseconds with their two low bits
    cleared in the lower 32. *)
Lemma newID_layout now offset :
  Int64.in_range (offset * billion) ->
  0 <= now + offset * billion < 2 ^ 31 * billion ->
  newID now offset
  = (now + offset * billion) / billion * 2 ^ 32
    + 4 * ((now + offset * billion) mod billion / 4).
Proof.
  intros Hoff Ht. unfold newID. cbv zeta. unfold Int64.mul, Int64.add.
  rewrite (Int64Facts.wrap64_id (offset * billion)) by exact Hoff.
  set (t := now + offset * billion) in *.
  assert (Hb : billion = 1000000000) by reflexivity.
  rewrite (Int64Facts.wrap64_id t)
    by (unfold Int64.in_range, Int64.min_int, Int64.max_int; lia).
  unfold Int64.quot, Int64.rem, Int64.shl.
  rewrite Z.quot_div_nonneg, Z.rem_mod_nonneg by lia.
  pose proof (Z.mod_pos_bound t billion ltac:(lia)) as Hm.
  assert (Hs : 0 <= t / billion < 2 ^ 31).
  { split; [apply Z.div_pos; lia|]. apply Z.div_lt_upper_bound; lia. }
  rewrite (Int64Facts.wrap64_id (t / billion))
    by (unfold Int64.in_range, Int64.min_int, Int64.max_int; lia).
  rewrite Z.shiftl_mul_pow2 by lia.
  rewrite (Int64Facts.wrap64_id (t / billion * 2 ^ 32))
    by (unfold Int64.in_range, Int64.min_int, Int64.max_int; lia).
  rewrite land_clear_low_bits. apply lor_high_low.
  pose proof (Z.div_pos (t mod billion) 4 ltac:(lia) ltac:(lia)).
  assert (t mod billion / 4 <= t mod billion) by (apply Z.div_le_upper_bound; lia).
  lia.
Qed.

(** X17.  Ids follow the clock.  For two clock readings between 1970
    and 2038 (the offset applied), the id of the later reading is never
    below the id of the earlier one, and it is strictly above as soon
    as the readings are at least four nanoseconds apart: the retry of
    [GenerateMessageId] ends once the clock has moved four nanoseconds
    past the reading that gave the previous id. *)
Theorem newID_follows_clock (t1 t2 offset : Z) :
  Int64.in_range (offset * billion) ->
  0 <= t1 + offset * billion ->
  t1 <= t2 ->
  t2 + offset * billion < 2 ^ 31 * billion ->
  newID t1 offset <= newID t2 offset
  /\ (t1 + 4 <= t2 -> newID t1 offset < newID t2 offset)
  /\ (t1 + 4 <= t2 ->
      GenerateMessageId [t1; t2] (newID t1 offset) offset = Some (newID t2 offset)).
Proof.
  intros Hoff H1 H12 H2.
  assert (Hb : billion = 1000000000) by reflexivity.
  assert (Hmono : newID t1 offset <= newID t2 offset
                  /\ (t1 + 4 <= t2 -> newID t1 offset < newID t2 offset)).
  { rewrite !newID_layout by (done || lia).
    set (a := t1 + offset * billion) in *. set (b := t2 + offset * billion) in *.
    assert (Hab : a <= b) by (subst a b; lia).
    pose proof (Z.div_mod a billion ltac:(lia)) as Ha.
    pose proof (Z.div_mod b billion ltac:(lia)) as Hb'.
    pose proof (Z.mod_pos_bound a billion ltac:(lia)) as Hma.
    pose proof (Z.mod_pos_bound b billion ltac:(lia)) as Hmb.
    pose proof (Z.div_le_mono a b billion ltac:(lia) Hab) as Hdiv.
    pose proof (Z.div_mod (a mod billion) 4 ltac:(lia)) as Ha4.
    pose proof (Z.div_mod (b mod billion) 4 ltac:(lia)) as Hb4.
    pose proof (Z.mod_pos_bound (a mod billion) 4 ltac:(lia)).
    pose proof (Z.mod_pos_bound (b mod billion) 4 ltac:(lia)).
    assert (Hcase : a / billion = b / billion \/ a / billion + 1 <= b / billion) by lia.
    destruct Hcase as [Heq|Hlt].
    - rewrite Heq in *. split; [|intros H4; assert (a + 4 <= b) by (subst a b; lia)]; lia.
    - split; [|intros _]; nia. }
  destruct Hmono as [Hle Hlt]. split; [exact Hle|]. split; [exact Hlt|].
  intros H4. specialize (Hlt H4). cbn [GenerateMessageId].
  destruct (Z.leb_spec (newID t1 offset) (newID t1 offset)); [|lia].
  destruct (Z.leb_spec (newID t2 offset) (newID t1 offset)); [lia|done].
Qed.

Lemma newID_follows_clock_witness :
  newID 1700000000000000100 0 <= newID 1700000000000000104 0
  /\ (1700000000000000100 + 4 <= 1700000000000000104 ->
      newID 1700000000000000100 0 < newID 1700000000000000104 0)
  /\ (1700000000000000100 + 4 <= 1700000000000000104 ->
      GenerateMessageId [1700000000000000100; 1700000000000000104]
        (newID 1700000000000000100 0) 0
      = Some (newID 1700000000000000104 0)).
Proof.
  apply (newID_follows_clock 1700000000000000100 1700000000000000104 0).
  - vm_compute. split; discriminate.
  - vm_compute. discriminate.
  - lia.
  - vm_compute. reflexivity.
Defined.

End MessageIdFacts.

Module SessionFacts.
Import Gogram Session.

(** *** Containers *)

Lemma typeSwitch_container env items m :
  typeSwitch env (MessageContainer items) m =
  match processItems env items m with
  | Done m' err =>
      if negb (is_nil err)
      then Return m' (Errorf "processing item in container: %w" err)
      else FallsThrough m'
  | Panicked m' msg => Panicking m' msg
  | Blocked m' => Blocking m'
  end.
Proof.
  revert m. induction items as [|v items IH]; intros m; [reflexivity|].
  cbn [typeSwitch processItems] in *.
  destruct (processResponse env v m) as [m' err|m' msg|m']; [|done|done].
  destruct (is_nil err) eqn:Herr; cbn [negb]; [apply IH|].
  by rewrite Herr.
Qed.

Lemma processItems_app env before after m :
  processItems env (before ++ after) m =
  match processItems env before m with
  | Done m' err =>
      if negb (is_nil err) then Done m' err else processItems env after m'
  | Panicked m' msg => Panicked m' msg
  | Blocked m' => Blocked m'
  end.
Proof.
  revert m. induction before as [|v before IH]; intros m; [reflexivity|].
  cbn [app processItems].
  destruct (processResponse env v m) as [m' err|m' msg|m']; [|done|done].
  destruct (is_nil err) eqn:Herr; cbn [negb]; [apply IH|].
  by rewrite Herr.
Qed.

(** X18.  A container is abandoned at its first failing item.  If the
    items [before] are dispatched without error and the next item [v]
    returns an error, the switch returns that error wrapped in
    "processing item in container", with the session as [v] left it:
    the items after [v] are not dispatched, whatever they are, and for
    a container with an even sequence number [processResponse] returns
    the same, without the acknowledgement check. *)
Theorem container_stops_at_first_error (env : Env)
    (before after : list Message) (v : Message) (m m1 m2 : MTProto) (err : error)
    (msgID seqNo : Z) :
  processItems env before m = Done m1 Nil ->
  processResponse env v m1 = Done m2 err ->
  err <> Nil ->
  typeSwitch env (MessageContainer (before ++ v :: after)) m
  = Return m2 (Errorf "processing item in container: %w" err)
  /\ (Z.land seqNo 1 = 0 ->
      processResponse env
        (mkMessage msgID seqNo (Some (MessageContainer (before ++ v :: after)))) m
      = Done m2 (Errorf "processing item in container: %w" err)).
Proof.
  intros Hbefore Hv Herr.
  assert (Hnil : is_nil err = false) by (by destruct err).
  assert (Hswitch : typeSwitch env (MessageContainer (before ++ v :: after)) m
                    = Return m2 (Errorf "processing item in container: %w" err)).
  { rewrite typeSwitch_container, processItems_app, Hbefore.
    cbn [is_nil negb processItems]. rewrite Hv, Hnil. cbn [negb].
    by rewrite Hnil. }
  split; [exact Hswitch|]. intros Heven.
  rewrite GogramFacts.processResponse_not_content_bearing by exact Heven.
  unfold decodeAndDispatch. cbn [GetMsg]. by rewrite Hswitch.
Qed.

Lemma container_stops_at_first_error_witness :
  typeSwitch calm
    (MessageContainer ([mkMessage 1 1 (Some Pong)]
                       ++ mkMessage 2 1 (Some (BadMsgNotification 48))
                       :: [mkMessage 3 1 (Some (NewSessionCreated 77))])) idle
  = Return (with_pendingAcks {[2; 1]} idle)
      (Errorf "processing item in container: %w" (BadMsgError 48))
  /\ (Z.land 0 1 = 0 ->
      processResponse calm
        (mkMessage 9 0
           (Some (MessageContainer
                    ([mkMessage 1 1 (Some Pong)]
                     ++ mkMessage 2 1 (Some (BadMsgNotification 48))
                     :: [mkMessage 3 1 (Some (NewSessionCreated 77))])))) idle
      = Done (with_pendingAcks {[2; 1]} idle)
          (Errorf "processing item in container: %w" (BadMsgError 48))).
Proof.
  apply (container_stops_at_first_error calm
           [mkMessage 1 1 (Some Pong)] [mkMessage 3 1 (Some (NewSessionCreated 77))]
           (mkMessage 2 1 (Some (BadMsgNotification 48)))
           idle (with_pendingAcks {[1]} idle) (with_pendingAcks {[2; 1]} idle)
           (BadMsgError 48) 9 0).
  - reflexivity.
  - reflexivity.
  - discriminate.
Defined.

(** *** What a dispatch leaves alone *)



(** The flush of the acknowledgements on a session whose connection is
    down: the send path connects before it sends. *)
Example flush_connects :
  match processResponse calm (mkMessage 10 1 (Some Pong))
          (with_tcpActive false ninePending) with
  | Done m' err =>
      err = Nil /\ tcpActive m' = true
      /\ exists ids,
           trace m' = [MakeRequestCalled (MsgsAck ids); ConnectCalled; ReaderStarted;
                       PingerStarted; SendPacketCalled (MsgsAck ids)]
  | _ => False
  end.
Proof. vm_compute. split; [reflexivity|]. split; [reflexivity|]. by eexists. Qed.

(** X20.  A memory session is never saved by the dispatch: for a
    session with [memorySession] set, whatever message is dispatched
    (salt rotations and new-session notices included, at any depth) and
    however the dispatch ends, the trace only grows and none of the
    events it gains is a call of [SaveSession]: the dispatch makes none,
    and neither does the send path of the flush as far as the sources
    show it. *)
Theorem memory_session_never_saved (env : Env) (msg : Message) (m : MTProto) :
  memorySession m = true ->
  exists new,
    trace (run_state (processResponse env msg m)) = trace m ++ new
    /\ forall salt, SaveSessionCalled salt ∉ new.
Proof.
  intros Hmem.
  destruct (GogramFacts.processResponse_step env msg m) as [_ (new & Ht & Hs & _)].
  exists new. split; [exact Ht|]. intros salt Hin.
  specialize (Hs Hmem). rewrite Forall_forall in Hs. exact (Hs _ Hin).
Qed.

Lemma memory_session_never_saved_witness :
  exists new,
    trace (run_state
             (processResponse calm
                (mkMessage 9 0 (Some (MessageContainer
                                        [mkMessage 1 1 (Some (BadServerSalt 5));
                                         mkMessage 2 1 (Some (NewSessionCreated 6))])))
                memoryIdle))
    = trace memoryIdle ++ new
    /\ forall salt, SaveSessionCalled salt ∉ new.
Proof.
  apply (memory_session_never_saved calm
           (mkMessage 9 0 (Some (MessageContainer
                                   [mkMessage 1 1 (Some (BadServerSalt 5));
                                    mkMessage 2 1 (Some (NewSessionCreated 6))])))
           memoryIdle).
  reflexivity.
Defined.

(** *** The send path and the error of [Reconnect] *)

(** X28.  A request that meets a closed connection is not sent again.
    When [sendPacket] fails with "use of closed network connection" or
    "transport is closed", on a session that is down or has been
    connected before, [makeRequest] reconnects and returns
    "reconnecting: recreating connection: ..." with no response, also
    when the reconnect has succeeded: the error of [Reconnect] is never
    nil, so the branch that sends the request again is never taken.  One
    packet has been sent, between the events of connecting and
    reconnecting, and what later attempts would have met plays no
    part. *)
Theorem makeRequest_closed_connection (env : Env) (text : string)
    (later : list Attempt) (data : Object) (m : MTProto) :
  contains text "use of closed network connection"
  || contains text "transport is closed" = true ->
  tcpActive m = false \/ stopRoutines m = true ->
  exists m' cause,
    makeRequest env (SendFails text :: later) data m
    = Done m' (None, Errorf "reconnecting: %w"
                       (Errorf "recreating connection: %w" cause))
    /\ stopRoutines m' = true
    /\ (exists before after,
          trace m' = trace m ++ before ++ SendPacketCalled data :: after
          /\ Forall connection_event before /\ Forall connection_event after)
    /\ forall later',
         makeRequest env (SendFails text :: later') data m
         = makeRequest env (SendFails text :: later) data m.
Proof.
  intros Hclosed Hlink. cbn [makeRequest]. rewrite Hclosed.
  set (m0 := if negb (tcpActive m) then (CreateConnection env false m).1 else m).
  assert (H0 : stopRoutines m0 = true /\ grows connection_event m m0).
  { subst m0. destruct (tcpActive m) eqn:Ha; cbn [negb].
    - split; [by destruct Hlink|apply GogramFacts.grows_refl].
    - split; [apply (GogramFacts.CreateConnection_frame env false m)|].
      apply GogramFacts.CreateConnection_connects. }
  destruct H0 as [Hset (before & Hbefore & Fbefore)].
  set (sent := emit (SendPacketCalled data) m0).
  rewrite (GogramFacts.Reconnect_unfold env false sent) by exact Hset.
  cbv zeta. cbn [is_nil negb].
  set (stopped := with_tcpActive false (emit StopRoutinesCalled sent)).
  destruct (GogramFacts.CreateConnection_connects env false stopped)
    as (created & Hcreated & Fcreated).
  eexists _, _. split; [reflexivity|]. split; [|split; [|reflexivity]].
  - cbn [Ping emit stopRoutines].
    apply (GogramFacts.CreateConnection_frame env false stopped).
  - exists before, (StopRoutinesCalled :: created ++ [PingSent]).
    split; [|split; [exact Fbefore|]].
    + cbn [Ping emit trace]. rewrite Hcreated. subst stopped sent.
      cbn [trace emit with_tcpActive]. rewrite Hbefore.
      rewrite <- !app_assoc. reflexivity.
    + constructor; [done|]. apply Forall_app. split; [exact Fcreated|].
      by repeat constructor.
Qed.

Lemma makeRequest_closed_connection_witness :
  exists m' cause,
    makeRequest calm (SendFails "transport is closed" :: [Replied Null]) Pong idle
    = Done m' (None, Errorf "reconnecting: %w"
                       (Errorf "recreating connection: %w" cause))
    /\ stopRoutines m' = true
    /\ (exists before after,
          trace m' = trace idle ++ before ++ SendPacketCalled Pong :: after
          /\ Forall connection_event before /\ Forall connection_event after)
    /\ forall later',
         makeRequest calm (SendFails "transport is closed" :: later') Pong idle
         = makeRequest calm (SendFails "transport is closed" :: [Replied Null]) Pong idle.
Proof.
  apply (makeRequest_closed_connection calm "transport is closed" [Replied Null]
           Pong idle).
  - reflexivity.
  - by right.
Defined.

(** X29.  [ImportRawAuth] never reports success.  Whatever the session
    and the outcome of the save and of the network calls: when it
    returns, it returns false with an error, that of the save or the
    one that [Reconnect] returns also on success; and on a session that
    has never been connected it panics in [Reconnect] unless the save
    has failed before. *)
Theorem ImportRawAuth_never_reports_success (env : Env) (m : MTProto) :
  match ImportRawAuth env m with
  | Returns (m', (ok, err)) =>
      ok = false
      /\ ((exists cause, err = Errorf "saving session: %w" cause /\ cause <> Nil
                         /\ memorySession m = false)
          \/ (exists cause,
                err = Errorf "reconnecting: %w"
                        (Errorf "recreating connection: %w" cause)
                /\ stopRoutines m = true /\ stopRoutines m' = true))
  | Panics msg =>
      stopRoutines m = false
      /\ msg = "invalid memory address or nil pointer dereference"
  end.
Proof.
  unfold ImportRawAuth.
  assert (Hre : forall m0 : MTProto, stopRoutines m0 = stopRoutines m ->
            match
              match Reconnect env false m0 with
              | Panics msg => Panics msg
              | Returns (m1, err) =>
                  if negb (is_nil err)
                  then Returns (m1, (false, Errorf "reconnecting: %w" err))
                  else Returns (m1, (true, Nil))
              end
            with
            | Returns (m', (ok, err)) =>
                ok = false
                /\ ((exists cause, err = Errorf "saving session: %w" cause
                                   /\ cause <> Nil /\ memorySession m = false)
                    \/ (exists cause,
                          err = Errorf "reconnecting: %w"
                                  (Errorf "recreating connection: %w" cause)
                          /\ stopRoutines m = true /\ stopRoutines m' = true))
            | Panics msg =>
                stopRoutines m = false
                /\ msg = "invalid memory address or nil pointer dereference"
            end).
  { intros m0 Hsame. destruct (stopRoutines m) eqn:Hs.
    - rewrite GogramFacts.Reconnect_unfold by exact Hsame. cbv zeta.
      cbn [is_nil negb]. split; [done|]. right. eexists. split; [reflexivity|].
      split; [done|]. cbn [Ping emit stopRoutines].
      apply (GogramFacts.CreateConnection_frame env false
               (with_tcpActive false (emit StopRoutinesCalled m0))).
    - rewrite GogramFacts.Reconnect_never_connected by exact Hsame. done. }
  destruct (memorySession m) eqn:Hmem; cbn [negb is_nil].
  - by apply Hre.
  - destruct (SaveSession env m) eqn:Hsave; cbn [negb is_nil];
      try (split; [done|]; left; eexists; split; [reflexivity|]; by split).
    by apply Hre.
Qed.

(** *** Bursts of -404 errors *)

Lemma handle404Errors_burst_from env arrivals :
  forall m count last_unix,
    authKey404 m = [count; last_unix] -> 1 <= count ->
    in_burst last_unix arrivals ->
    count + Z.of_nat (length arrivals) <= 9 ->
    stopRoutines m = true \/ count + Z.of_nat (length arrivals) <= 3 ->
    if count + Z.of_nat (length arrivals) =? 9
    then arrivals = [] \/
         handle404Errors env arrivals m = Panics "[AUTH_KEY_INVALID] (code -404)"
    else exists m' stamp,
        handle404Errors env arrivals m = Returns m'
        /\ authKey404 m' = [count + Z.of_nat (length arrivals); stamp].
Proof.
  induction arrivals as [|[now later] arrivals IH];
    intros m count last Hrec Hc Hburst Hlen Hset.
  - cbn [length handle404Errors]. rewrite Z.add_0_r.
    destruct (Z.eqb_spec count 9); [by left|]. by exists m, last.
  - cbn [in_burst] in Hburst. destruct Hburst as (Hl & Hn & Hla & Hnear & Hrest).
    cbn [length handle404Errors] in *.
    assert (Hok : watchdog_ok (authKey404 m)).
    { right. exists count, last. split; [done|lia]. }
    assert (Hrange : forall c l, authKey404 m = [c; l] -> Int64.in_range (now - l)).
    { intros c l Hcl. rewrite Hrec in Hcl. injection Hcl as <- <-.
      unfold Int64.in_range, Int64.min_int, Int64.max_int. lia. }
    rewrite (GogramFacts.handle404Error_step env now later m Hok Hrange). cbv zeta.
    rewrite Hrec. cbn [watchdog_count].
    destruct (Z.ltb_spec (now - last) 30); [|lia].
    assert (Hnext : forall m1, authKey404 m1 = [count + 1; later] -> count + 1 <= 8 ->
              stopRoutines m1 = true
              \/ count + 1 + Z.of_nat (length arrivals) <= 3 ->
              if count + Z.of_nat (S (length arrivals)) =? 9
              then (now, later) :: arrivals = [] \/
                   handle404Errors env arrivals m1 = Panics "[AUTH_KEY_INVALID] (code -404)"
              else exists m' stamp,
                  handle404Errors env arrivals m1 = Returns m'
                  /\ authKey404 m' = [count + Z.of_nat (S (length arrivals)); stamp]).
    { intros m1 Hm1 Hsmall Hset1.
      specialize (IH m1 (count + 1) later Hm1 ltac:(lia) Hrest ltac:(lia) Hset1).
      replace (count + Z.of_nat (S (length arrivals)))
        with (count + 1 + Z.of_nat (length arrivals)) by lia.
      destruct (Z.eqb_spec (count + 1 + Z.of_nat (length arrivals)) 9) as [H9|H9];
        [|exact IH].
      destruct IH as [->|IH]; [|by right]. cbn [length] in H9. lia. }
    destruct (Z.eqb_spec (count + 1) 4) as [H4|H4].
    + assert (Hs : stopRoutines (with_authKey404 [count + 1; later] m) = true).
      { destruct Hset as [Hs|Hs]; [exact Hs|lia]. }
      rewrite GogramFacts.Reconnect_unfold by exact Hs. cbv zeta.
      destruct (GogramFacts.CreateConnection_frame env false
                  (with_tcpActive false
                     (emit StopRoutinesCalled (with_authKey404 [count + 1; later] m))))
        as (H1 & H2 & _).
      apply Hnext; [|lia|by left].
      cbn [Ping emit authKey404]. by rewrite H2.
    + destruct (Z.ltb_spec 8 (count + 1)) as [H8|H8].
      * destruct (Z.eqb_spec (count + Z.of_nat (S (length arrivals))) 9); [by right|lia].
      * apply Hnext; [done|lia|].
        destruct Hset as [Hs|Hs]; [by left|right; lia].
Qed.

Lemma handle404Errors_never_connected env arrivals :
  forall m count last_unix,
    authKey404 m = [count; last_unix] -> 1 <= count <= 3 ->
    in_burst last_unix arrivals ->
    stopRoutines m = false ->
    4 <= count + Z.of_nat (length arrivals) ->
    handle404Errors env arrivals m
    = Panics "invalid memory address or nil pointer dereference".
Proof.
  induction arrivals as [|[now later] arrivals IH];
    intros m count last Hrec Hc Hburst Hnil Hlen.
  - cbn [length] in Hlen. lia.
  - cbn [in_burst] in Hburst. destruct Hburst as (Hl & Hn & Hla & Hnear & Hrest).
    cbn [length handle404Errors] in *.
    assert (Hok : watchdog_ok (authKey404 m)).
    { right. exists count, last. split; [done|lia]. }
    assert (Hrange : forall c l, authKey404 m = [c; l] -> Int64.in_range (now - l)).
    { intros c l Hcl. rewrite Hrec in Hcl. injection Hcl as <- <-.
      unfold Int64.in_range, Int64.min_int, Int64.max_int. lia. }
    rewrite (GogramFacts.handle404Error_step env now later m Hok Hrange). cbv zeta.
    rewrite Hrec. cbn [watchdog_count].
    destruct (Z.ltb_spec (now - last) 30); [|lia].
    destruct (Z.eqb_spec (count + 1) 4) as [H4|H4].
    + by rewrite GogramFacts.Reconnect_never_connected.
    + destruct (Z.ltb_spec 8 (count + 1)) as [H8|H8]; [lia|].
      apply (IH _ (count + 1) later); [done|lia|done|done|lia].
Qed.

(** X21.  Nine -404 errors in a burst are fatal, fewer are not.  On a
    session with no watchdog record, let a first error be followed by
    others, each arriving less than 30 seconds after the time stamp
    left by the one before.  On a session that has been connected: with
    at most seven followers the client keeps running and the counter
    equals the number of errors; with eight followers, the ninth error
    of the burst, the watchdog panics with
    "[AUTH_KEY_INVALID] (code -404)".  On a session that has never been
    connected the same holds up to the third error, and the fourth,
    whose reconnect calls the nil [stopRoutines], panics. *)
Theorem watchdog_burst (env : Env) (now later : Z)
    (followers : list (Z * Z)) (m : MTProto) :
  authKey404 m = [] ->
  in_burst now followers ->
  (length followers <= 8)%nat ->
  ((length followers <= 7)%nat ->
   stopRoutines m = true \/ (length followers <= 2)%nat ->
   exists m' stamp,
     handle404Errors env ((now, later) :: followers) m = Returns m'
     /\ authKey404 m' = [1 + Z.of_nat (length followers); stamp])
  /\ (length followers = 8%nat ->
      stopRoutines m = true ->
      handle404Errors env ((now, later) :: followers) m
      = Panics "[AUTH_KEY_INVALID] (code -404)")
  /\ ((3 <= length followers)%nat ->
      stopRoutines m = false ->
      handle404Errors env ((now, later) :: followers) m
      = Panics "invalid memory address or nil pointer dereference").
Proof.
  intros Hrec Hburst Hlen. cbn [handle404Errors].
  rewrite (GogramFacts.handle404Error_first env now later m Hrec).
  split; [|split].
  - intros H7 Hset.
    assert (Hset' : stopRoutines (with_authKey404 [1; now] m) = true
                    \/ 1 + Z.of_nat (length followers) <= 3)
      by (destruct Hset; [by left|right; lia]).
    pose proof (handle404Errors_burst_from env followers
                  (with_authKey404 [1; now] m) 1 now eq_refl ltac:(lia) Hburst
                  ltac:(lia) Hset') as H.
    destruct (Z.eqb_spec (1 + Z.of_nat (length followers)) 9); [lia|exact H].
  - intros H8 Hset.
    pose proof (handle404Errors_burst_from env followers
                  (with_authKey404 [1; now] m) 1 now eq_refl ltac:(lia) Hburst
                  ltac:(lia) (or_introl Hset)) as H.
    destruct (Z.eqb_spec (1 + Z.of_nat (length followers)) 9); [|lia].
    destruct H as [->|H]; [done|exact H].
  - intros H3 Hnil.
    apply (handle404Errors_never_connected env followers
             (with_authKey404 [1; now] m) 1 now); [done|lia|done|done|lia].
Qed.

Lemma watchdog_burst_witness :
  ((length shortBurst <= 7)%nat ->
   stopRoutines idle = true \/ (length shortBurst <= 2)%nat ->
   exists m' stamp,
     handle404Errors calm ((1700000000, 1700000000) :: shortBurst) idle = Returns m'
     /\ authKey404 m' = [1 + Z.of_nat (length shortBurst); stamp])
  /\ (length shortBurst = 8%nat ->
      stopRoutines idle = true ->
      handle404Errors calm ((1700000000, 1700000000) :: shortBurst) idle
      = Panics "[AUTH_KEY_INVALID] (code -404)")
  /\ ((3 <= length shortBurst)%nat ->
      stopRoutines idle = false ->
      handle404Errors calm ((1700000000, 1700000000) :: shortBurst) idle
      = Panics "invalid memory address or nil pointer dereference").
Proof.
  apply (watchdog_burst calm 1700000000 1700000000 shortBurst idle).
  - reflexivity.
  - simpl. lia.
  - simpl. lia.
Defined.

End SessionFacts.


(* ===================================================================== *)
(** ** The cache of exported senders *)
(* ===================================================================== *)

Module SendersFacts.
Import Telegram Senders.

Lemma numbered_snd (i : nat) senders : map snd (numbered i senders) = senders.
Proof.
  revert i. induction senders as [|s senders IH]; intros i; [done|].
  unfold numbered in *. cbn. f_equal. apply (IH (S i)).
Qed.

Lemma numbered_snoc (i : nat) senders s :
  numbered i (senders ++ [s])
  = numbered i senders ++ [((i + length senders)%nat, s)].
Proof.
  revert i. induction senders as [|s' senders IH]; intros i.
  - cbn. by rewrite Nat.add_0_r.
  - change ((s' :: senders) ++ [s]) with (s' :: (senders ++ [s])).
    rewrite !TelegramFacts.numbered_cons, IH. cbn [length app].
    by rewrite Nat.add_succ_r.
Qed.

Lemma lookup_filter_sublist (dc : Z) (f : nat * exportedSender -> bool) ps :
  sublist (GetCachedExportedSenders dc (map snd (List.filter f ps)))
          (GetCachedExportedSenders dc (map snd ps)).
Proof.
  unfold GetCachedExportedSenders.
  induction ps as [|p ps IH]; [constructor|].
  cbn. destruct (f p); cbn; destruct (dcID p.2 =? dc); cbn;
    try (by constructor); exact IH.
Qed.

Lemma lookup_elem dc senders (c : nat) :
  c ∈ GetCachedExportedSenders dc senders <->
  exists s, s ∈ senders /\ dcID s = dc /\ client s = c.
Proof.
  unfold GetCachedExportedSenders. rewrite list_elem_of_fmap. split.
  - intros (s & -> & Hs). apply list_elem_of_In, filter_In in Hs as [Hs Hdc].
    exists s. split; [by apply list_elem_of_In|]. split; [lia|done].
  - intros (s & Hs & Hdc & <-). exists s. split; [done|].
    apply list_elem_of_In, filter_In. split; [by apply list_elem_of_In|lia].
Qed.

(** X22.  What a cleaner cycle does to the lookups.  After one cycle of
    [cleanSendersRoutine], [GetCachedExportedSenders] returns for every
    data centre a sub-sequence of what it returned before, in the same
    order; and every client it returned before is either still returned
    or has been terminated by the cycle. *)
Theorem lookup_after_cycle (now : nat -> Z) (senders : list exportedSender) (dc : Z) :
  let '(kept, terminated) := cleanSendersCycle now senders in
  sublist (GetCachedExportedSenders dc kept) (GetCachedExportedSenders dc senders)
  /\ (forall c, c ∈ GetCachedExportedSenders dc senders ->
        c ∈ GetCachedExportedSenders dc kept \/ c ∈ terminated).
Proof.
  rewrite TelegramFacts.cleanSendersCycle_spec. split.
  - rewrite <- (numbered_snd 0 senders) at 2. apply lookup_filter_sublist.
  - intros c (s & Hs & Hdc & Hc)%lookup_elem.
    apply list_elem_of_lookup in Hs as [j Hj].
    pose proof (TelegramFacts.numbered_lookup 0 senders j s Hj) as Hin.
    rewrite Nat.add_0_l in Hin. apply list_elem_of_In in Hin.
    destruct (expired now (j, s)) eqn:He.
    + right. apply list_elem_of_fmap. exists (j, s). split; [done|].
      apply list_elem_of_In, filter_In. by split.
    + left. apply lookup_elem. exists s. split; [|done].
      apply list_elem_of_fmap. exists (j, s). split; [done|].
      apply list_elem_of_In, filter_In. split; [done|]. by rewrite He.
Qed.

(** X23.  A sender just added outlives the next cycle exactly when it is
    young enough.  Add a sender at time [t] to a cache of [n] senders
    and run one cleaner cycle; the cleaner examines it last, at clock
    reading [now n].  If [now n - t] is at most fifteen minutes the
    cycle keeps it, behind the survivors of the old cache, terminates
    what it would have terminated without it, and the lookup for its
    data centre returns the client last; if it is more, the cycle
    drops it and terminates its client after the others. *)
Theorem added_sender_after_cycle (now : nat -> Z) (t dc : Z) (c : nat)
    (senders : list exportedSender) :
  let cache := AddNewExportedSenderToMap t dc c senders in
  let '(kept0, gone0) := cleanSendersCycle now senders in
  if now (length senders) - t <=? DisconnectExportedAfter
  then cleanSendersCycle now cache = (kept0 ++ [mkExportedSender c dc t], gone0)
       /\ GetCachedExportedSenders dc (cleanSendersCycle now cache).1
          = GetCachedExportedSenders dc kept0 ++ [c]
  else cleanSendersCycle now cache = (kept0, gone0 ++ [c]).
Proof.
  cbv zeta. unfold AddNewExportedSenderToMap.
  rewrite !TelegramFacts.cleanSendersCycle_spec.
  set (s := mkExportedSender c dc t).
  rewrite (numbered_snoc 0), Nat.add_0_l, !List.filter_app. cbn [List.filter].
  assert (He : expired now (length senders, s)
               = (DisconnectExportedAfter <? now (length senders) - t))
    by reflexivity.
  rewrite He. rewrite !map_app.
  destruct (Z.leb_spec (now (length senders) - t) DisconnectExportedAfter) as [Hy|Ho].
  - destruct (Z.ltb_spec DisconnectExportedAfter (now (length senders) - t)); [lia|].
    cbn [negb map snd fst]. rewrite app_nil_r. split; [done|].
    unfold GetCachedExportedSenders. rewrite List.filter_app, map_app.
    cbn. by rewrite Z.eqb_refl.
  - destruct (Z.ltb_spec DisconnectExportedAfter (now (length senders) - t)); [|lia].
    cbn [negb map snd fst]. by rewrite app_nil_r.
Qed.

End SendersFacts.


(* ===================================================================== *)
(** ** Cache file names and the progress bar *)
(* ===================================================================== *)

Module ClientFacts.
Import Client.

Lemma substring_two (n : nat) (s : string) :
  (n + 2 <= String.length s)%nat ->
  exists a b, substring n 2 s = String a (String b "")
              /\ get n s = Some a /\ get (S n) s = Some b.
Proof.
  revert n. induction s as [|x s IH]; intros n Hn; [cbn in Hn; lia|].
  destruct n as [|n].
  - destruct s as [|y s]; [cbn in Hn; lia|].
    exists x, y. cbn. by destruct s.
  - cbn in Hn. destruct (IH n ltac:(lia)) as (a & b & Hs & Ha & Hb).
    exists a, b. cbn [substring get]. done.
Qed.

(** X24.  The name of the cache file.  For the empty session string it
    is "cache".  For a session string of one byte the slice expression
    has a negative lower bound and the function panics.  For [n >= 2]
    bytes it is "cache_" followed by exactly two bytes of the session
    string, those at positions [n/2 - 1] and [n/2] (not the ten middle
    characters the comment in the source announces). *)
Theorem genCacheFileName_cases (stringSession : string) :
  let n := String.length stringSession in
  (n = 0%nat -> genCacheFileName stringSession = Returns "cache")
  /\ (n = 1%nat -> exists msg, genCacheFileName stringSession = Panics msg)
  /\ ((2 <= n)%nat ->
      exists a b,
        genCacheFileName stringSession
        = Returns (String.append "cache_" (String a (String b "")))
        /\ get (n / 2 - 1)%nat stringSession = Some a
        /\ get (n / 2)%nat stringSession = Some b).
Proof.
  cbv zeta. split; [|split].
  - destruct stringSession; [done|discriminate].
  - destruct stringSession as [|x [|y s]]; try discriminate. intros _.
    by exists "slice bounds out of range"%string.
  - intros Hn. unfold genCacheFileName.
    destruct (String.eqb_spec stringSession "") as [->|_]; [cbn in Hn; lia|].
    set (n := String.length stringSession) in *.
    assert (Hq : Z.quot (Z.of_nat n) 2 = Z.of_nat (n / 2)).
    { rewrite Z.quot_div_nonneg by lia. by rewrite Nat2Z.inj_div. }
    rewrite Hq.
    assert (Hhalf : (1 <= n / 2 /\ n / 2 + 1 <= n)%nat).
    { pose proof (Nat.div_mod_eq n 2). pose proof (Nat.mod_upper_bound n 2). lia. }
    destruct (Z.leb_spec 0 (Z.of_nat (n / 2) - 1)); [|lia].
    destruct (Z.leb_spec (Z.of_nat (n / 2) - 1) (Z.of_nat (n / 2) + 1)); [|lia].
    destruct (Z.leb_spec (Z.of_nat (n / 2) + 1) (Z.of_nat n)); [|lia].
    cbn [andb].
    replace (Z.to_nat (Z.of_nat (n / 2) - 1)) with (n / 2 - 1)%nat by lia.
    replace (Z.to_nat (Z.of_nat (n / 2) + 1 - (Z.of_nat (n / 2) - 1))) with 2%nat by lia.
    destruct (substring_two (n / 2 - 1) stringSession) as (a & b & Hs & Ha & Hb);
      [fold n; lia|].
    exists a, b. rewrite Hs. split; [done|]. split; [done|].
    by replace (n / 2)%nat with (S (n / 2 - 1)) by lia.
Qed.

(** X25.  The guard of [UploadProgressBar] skips a total of zero only.
    For every other total between -9 and 9 bytes [genPg] divides by
    [total / 10 = 0] and panics, whatever the progress. *)
Theorem genPg_small_total (filled total : Z) :
  -10 < total < 10 ->
  genPg filled total = Panics "integer divide by zero".
Proof.
  intros Ht. unfold genPg. cbv zeta.
  assert (Hq : Z.quot total 10 = 0) by (apply Z.quot_small_iff; lia).
  unfold Int64.quot. rewrite Hq. reflexivity.
Qed.

Lemma genPg_small_total_witness :
  -10 < 7 < 10 /\ genPg 3 7 = Panics "integer divide by zero".
Proof.
  split; [lia|]. apply (genPg_small_total 3 7). lia.
Defined.

Lemma genPg_steps (filled total : Z) :
  0 <= filled <= Int64.max_int -> 10 <= total <= Int64.max_int ->
  let f := filled / (total / 10) in
  0 <= f <= Int64.max_int
  /\ genPg filled total =
     if Int64.max_int <? 6 * f then Panics "strings: Repeat output length overflow"
     else if 10 <? f then Panics "strings: negative Repeat count"
     else Returns (bar (Z.to_nat f) (Z.to_nat (10 - f))).
Proof.
  intros Hf Ht. cbv zeta.
  assert (Hk : 1 <= total / 10 <= Int64.max_int).
  { split; [apply Z.div_le_lower_bound; lia|].
    apply Z.le_trans with total; [apply Z.div_le_upper_bound; lia|lia]. }
  assert (Hcells : 0 <= filled / (total / 10) <= Int64.max_int).
  { split; [apply Z.div_pos; lia|].
    apply Z.le_trans with filled; [|lia].
    apply Z.div_le_upper_bound; [lia|]. nia. }
  split; [exact Hcells|].
  unfold genPg, Int64.quot, Int64.sub. cbv zeta.
  rewrite (Z.quot_div_nonneg total 10) by lia.
  rewrite (Int64Facts.wrap64_id (total / 10))
    by (unfold Int64.in_range, Int64.min_int, Int64.max_int in *; lia).
  destruct (Z.eqb_spec (total / 10) 0); [lia|].
  rewrite (Z.quot_div_nonneg filled (total / 10)) by lia.
  rewrite (Int64Facts.wrap64_id (filled / (total / 10)))
    by (unfold Int64.in_range, Int64.min_int, Int64.max_int in *; lia).
  rewrite (Int64Facts.wrap64_id (10 - filled / (total / 10)))
    by (unfold Int64.in_range, Int64.min_int, Int64.max_int in *; lia).
  unfold Repeat.
  change (Z.of_nat (String.length progressfillemojirectanglefull)) with 6.
  change (Z.of_nat (String.length progressfillemojirectangleempty)) with 6.
  set (f := filled / (total / 10)) in *.
  destruct (Z.ltb_spec f 0); [lia|].
  destruct (Z.ltb_spec Int64.max_int (6 * f)); [reflexivity|].
  destruct (Z.ltb_spec (10 - f) 0); destruct (Z.ltb_spec 10 f); try lia;
    [reflexivity|].
  destruct (Z.ltb_spec Int64.max_int (6 * (10 - f)));
    [unfold Int64.max_int in *; lia|reflexivity].
Qed.

(** X26.  The cells of the bar.  For a progress of [filled] out of
    [total >= 10] bytes (non-negative 64-bit values) let
    [f = filled / (total / 10)].  When [f <= 10] the bar has [f] full
    cells followed by [10 - f] empty ones.  When [f > 10] the call
    panics: in the second [strings.Repeat], on the negative count
    [10 - f], unless six times [f], the length in bytes of the full
    cells, does not fit an [int], in which case the first
    [strings.Repeat] has panicked before on the overflow. *)
Theorem genPg_cells (filled total : Z) :
  0 <= filled <= Int64.max_int -> 10 <= total <= Int64.max_int ->
  let f := filled / (total / 10) in
  genPg filled total =
  if Int64.max_int <? 6 * f then Panics "strings: Repeat output length overflow"
  else if 10 <? f then Panics "strings: negative Repeat count"
  else Returns (bar (Z.to_nat f) (Z.to_nat (10 - f))).
Proof.
  intros Hf Ht. exact (proj2 (genPg_steps filled total Hf Ht)).
Qed.

Lemma genPg_cells_witness :
  genPg 1234 2000 =
  if Int64.max_int <? 6 * (1234 / (2000 / 10))
  then Panics "strings: Repeat output length overflow"
  else if 10 <? 1234 / (2000 / 10) then Panics "strings: negative Repeat count"
  else Returns (bar (Z.to_nat (1234 / (2000 / 10)))
                    (Z.to_nat (10 - 1234 / (2000 / 10)))).
Proof.
  apply (genPg_cells 1234 2000); unfold Int64.max_int; lia.
Defined.

(** A progress far beyond a small total: the first [strings.Repeat]
    panics on the overflow before the second sees the negative count. *)
Example genPg_overflow :
  genPg (2 ^ 62) 10 = Panics "strings: Repeat output length overflow"
  /\ genPg 200 10 = Panics "strings: negative Repeat count".
Proof. split; reflexivity. Qed.

(** X27.  A finished upload does not always draw a full bar.  With
    [filled = total >= 10], the bar is ten full cells when the last
    decimal digit of [total] is smaller than [total / 10], and
    [genPg] panics otherwise: every total from 11 to 19, and 22 to 29,
    33 to 39 and so on up to 99, makes the finished upload panic. *)
Theorem genPg_finished (total : Z) :
  10 <= total <= Int64.max_int ->
  genPg total total =
  if total mod 10 <? total / 10 then Returns (bar 10 0)
  else Panics "strings: negative Repeat count".
Proof.
  intros Ht.
  destruct (genPg_steps total total ltac:(lia) Ht) as [_ ->].
  pose proof (Z.div_mod total 10 ltac:(lia)) as Hdm.
  pose proof (Z.mod_pos_bound total 10 ltac:(lia)) as Hr.
  set (k := total / 10) in *. set (r := total mod 10) in *.
  assert (Hk : 1 <= k) by lia.
  assert (Hsmall : total / k <= 19).
  { apply Z.lt_succ_r. apply Z.div_lt_upper_bound; nia. }
  assert (Hpos : 0 <= total / k) by (apply Z.div_pos; lia).
  destruct (Z.ltb_spec Int64.max_int (6 * (total / k)));
    [unfold Int64.max_int in *; lia|].
  destruct (Z.ltb_spec r k) as [Hlt|Hge].
  - assert (Hf : total / k = 10).
    { symmetry. apply (Z.div_unique total k 10 r); lia. }
    rewrite Hf. reflexivity.
  - assert (Hf : 11 <= total / k).
    { apply Z.div_le_lower_bound; nia. }
    destruct (Z.ltb_spec 10 (total / k)); [done|lia].
Qed.

Lemma genPg_finished_witness :
  genPg 19 19 =
  if 19 mod 10 <? 19 / 10 then Returns (bar 10 0)
  else Panics "strings: negative Repeat count".
Proof.
  apply (genPg_finished 19). unfold Int64.max_int. lia.
Defined.

End ClientFacts.
